(** * Markdown to Confluence storage format and to ADF

    A shallow embedding of the two renderers of confluence-mcp
    ([markdownToStorageFormat], [markdownToAdf]) and of their helpers.

    JavaScript strings are modelled as [string]: one [ascii] stands for
    one code unit, so the model covers the code units below 256.  The
    Markdown lexer and the default renderer of the [marked] package and
    the platform's [URL] constructor and [randomUUID] are not part of the
    repository; they are the [Variable]s of the sections below. *)

From Stdlib Require Import String Ascii List Bool Arith Lia ZArith.
Import ListNotations.
Open Scope list_scope.
Open Scope string_scope.

Set Warnings "-register-all".

(* ================================================================== *)
(** ** JavaScript strings *)
(* ================================================================== *)

Module JsString.

(** The double quote and the line feed, which a string literal of this
    file cannot hold. *)
Definition dq : string := String "034" EmptyString.
Definition nl : string := String "010" EmptyString.

(** [s.length === 0]; a JavaScript string is falsy exactly when empty. *)
Definition isEmpty (s : string) : bool :=
  match s with EmptyString => true | String _ _ => false end.

(** Truthiness of a field that is a string, [null] or [undefined]. *)
Definition truthy (o : option string) : bool :=
  match o with
  | Some s => negb (isEmpty s)
  | None => false
  end.

Fixpoint drop (n : nat) (s : string) : string :=
  match n, s with
  | O, _ => s
  | S _, EmptyString => EmptyString
  | S k, String _ rest => drop k rest
  end.

(** Every code unit of [s] satisfies [p]. *)
Fixpoint allUnits (p : ascii -> bool) (s : string) : bool :=
  match s with
  | EmptyString => true
  | String c rest => p c && allUnits p rest
  end.

(** [contains pat s]: [pat] occurs in [s] ([s.includes(pat)]). *)
Fixpoint contains (pat s : string) : bool :=
  prefix pat s ||
  match s with
  | EmptyString => false
  | String _ rest => contains pat rest
  end.

(** [s.replace(/pat/g, rep)] for a pattern that is a non-empty literal
    and a replacement without [$]: the matches are found from left to
    right and do not overlap.  [skip] counts the code units of the
    current match that are still to be passed over. *)
Fixpoint replaceAll_from (pat rep : string) (skip : nat) (s : string) : string :=
  match s with
  | EmptyString => EmptyString
  | String c rest =>
      match skip with
      | S k => replaceAll_from pat rep k rest
      | O =>
          if prefix pat s
          then rep ++ replaceAll_from pat rep (pred (String.length pat)) rest
          else String c (replaceAll_from pat rep 0 rest)
      end
  end.

Definition replaceAll (pat rep s : string) : string :=
  replaceAll_from pat rep 0 s.

(** [s.replace(/suf$/, "")] for a literal [suf]: the one match, if any,
    is the occurrence of [suf] that ends the string. *)
Fixpoint removeAtEnd (suf s : string) : string :=
  if String.eqb s suf then EmptyString
  else match s with
       | EmptyString => EmptyString
       | String c rest => String c (removeAtEnd suf rest)
       end.

(** [s.split(sep)] for a separator of one code unit.  The result is
    never the empty array: [split sep ""] is [[""]]. *)
Fixpoint split (sep : ascii) (s : string) : list string :=
  match s with
  | EmptyString => [EmptyString]
  | String c rest =>
      if Ascii.eqb c sep then EmptyString :: split sep rest
      else match split sep rest with
           | piece :: pieces => String c piece :: pieces
           | [] => [String c EmptyString]
           end
  end.

(** [a[0]] and [a.pop()]: [undefined] on the empty array. *)
Definition first (a : list string) : option string := hd_error a.

Fixpoint pop (a : list string) : option string :=
  match a with
  | [] => None
  | [x] => Some x
  | _ :: rest => pop rest
  end.

(** WhiteSpace and LineTerminator code units below 256: TAB, LF, VT, FF,
    CR, SP and NBSP. *)
Definition isWhiteSpace (c : ascii) : bool :=
  List.existsb (Ascii.eqb c)
    ["009"; "010"; "011"; "012"; "013"; " "; "160"]%char.

Fixpoint trimStart (s : string) : string :=
  match s with
  | EmptyString => EmptyString
  | String c rest => if isWhiteSpace c then trimStart rest else s
  end.

Fixpoint trimEnd (s : string) : string :=
  match s with
  | EmptyString => EmptyString
  | String c rest =>
      match trimEnd rest with
      | EmptyString => if isWhiteSpace c then EmptyString else String c EmptyString
      | kept => String c kept
      end
  end.

Definition trim (s : string) : string := trimEnd (trimStart s).

(** The code units that [.] of a regular expression does not match. *)
Definition isLineTerminator (c : ascii) : bool :=
  List.existsb (Ascii.eqb c) ["010"; "013"]%char.

End JsString.

(* ================================================================== *)
(** ** Errors *)
(* ================================================================== *)

(** A JavaScript call either returns or throws. *)
Inductive JsError : Type :=
| TypeError (message : string)
| RangeError (message : string).

Inductive Result (A : Type) : Type :=
| Ok (value : A)
| Throw (error : JsError).

Arguments Ok {A} value.
Arguments Throw {A} error.

Definition rbind {A B : Type} (r : Result A) (k : A -> Result B) : Result B :=
  match r with
  | Ok a => k a
  | Throw e => Throw e
  end.

Notation "'try!' x <- r ;; k" := (rbind r (fun x => k))
  (at level 61, x name, r at next level, right associativity).

(** [a.map(f)] and the loop [for (x of a) out += f(x)], stopping at the
    first call that throws. *)
Fixpoint mapResult {A B : Type} (f : A -> Result B) (a : list A)
    : Result (list B) :=
  match a with
  | [] => Ok []
  | x :: rest =>
      try! y <- f x ;;
      try! ys <- mapResult f rest ;;
      Ok (y :: ys)
  end.

Fixpoint concatMap {A : Type} (f : A -> Result string) (a : list A)
    : Result string :=
  match a with
  | [] => Ok ""
  | x :: rest =>
      try! out <- f x ;;
      try! more <- concatMap f rest ;;
      Ok (out ++ more)
  end.

(* ================================================================== *)
(** ** The token tree of [marked] *)
(* ================================================================== *)

(** [marked]'s [Token] union, split along the two levels of its lexer:
    [Inline] for what [inlineTokens] produces and [Token] for what
    [blockTokens] produces.  A constructor keeps the fields that the two
    renderers read.  [GenericInline] and [Generic] stand for tokens of
    any further type ([Tokens.Generic]). *)
Module Marked.

Inductive Inline : Type :=
| Text (text : string)
| Escape (text : string)
| Tag (text : string)
| Link (href : string) (title : option string) (tokens : list Inline)
| Image (href : string) (title : option string) (text : string)
| Strong (tokens : list Inline)
| Em (tokens : list Inline)
| Del (tokens : list Inline)
| Codespan (text : string)
| Br
| GenericInline (type : string) (text : option string).

(** [Tokens.TableCell]. *)
Record TableCell : Type := table_cell { cell_tokens : list Inline }.

(** [Tokens.List.start]: a number or the empty string. *)
Inductive ListStart : Type :=
| NoStart
| Start (n : Z).

Inductive Token : Type :=
| Space
| Code (lang : option string) (text : string)
| Heading (depth : nat) (tokens : option (list Inline))
| Table (header : list TableCell) (rows : list (list TableCell))
| Hr
| Blockquote (tokens : list Token)
| List (ordered : bool) (start : ListStart) (items : list ListItem)
| HTML (text : string)
| Def
| Paragraph (tokens : option (list Inline))
| TextBlock (text : string) (tokens : option (list Inline))
| Generic (type : string)
with ListItem : Type :=
| list_item (tokens : list Token).

(** The tokens that hold no other token of their own level. *)
Definition isInlineLeaf (t : Inline) : Prop :=
  match t with
  | Link _ _ _ | Strong _ | Em _ | Del _ => False
  | _ => True
  end.

Definition isBlockLeaf (t : Token) : Prop :=
  match t with
  | Blockquote _ | List _ _ _ => False
  | _ => True
  end.

(** [tokens || []]. *)
Definition orEmpty {A : Type} (tokens : option (list A)) : list A :=
  match tokens with
  | Some ts => ts
  | None => []
  end.

End Marked.

Import Marked.

(* ================================================================== *)
(** ** The storage format renderer *)
(* ================================================================== *)

Module Storage.
Import JsString.

(** Escape special XML characters for use in attributes. *)
Definition escapeXml (text : string) : string :=
  replaceAll "'" "&apos;"
    (replaceAll dq "&quot;"
      (replaceAll ">" "&gt;"
        (replaceAll "<" "&lt;"
          (replaceAll "&" "&amp;" text)))).

(** The test of [href] against the regular expression of
    [isMarkdownFileLink]: a literal ".md", then optionally "#" and any
    run of code units that are not line terminators, then the end of
    the input.  [fragmentToEnd rest] is the match of what follows
    ".md" at the position where [rest] starts; [testMdSuffix] tries
    every position from left to right. *)
Definition fragmentToEnd (rest : string) : bool :=
  match rest with
  | EmptyString => true
  | String c fragment =>
      Ascii.eqb c "#" && allUnits (fun x => negb (isLineTerminator x)) fragment
  end.

Fixpoint testMdSuffix (href : string) : bool :=
  (prefix ".md" href && fragmentToEnd (drop 3 href)) ||
  match href with
  | EmptyString => false
  | String _ rest => testMdSuffix rest
  end.

(** Escape content for use within CDATA sections. *)
Definition escapeCdata (text : string) : string :=
  replaceAll "]]>" "]]]]><![CDATA[>" text.

(** Extract the page title from a .md link href.  The non-null
    assertion on [pop()] is kept as what it would do at run time: a
    property read on [undefined] throws. *)
Definition mdHrefToPageTitle (href : string) : Result string :=
  match first (split "#" href) with
  | None => Throw (TypeError "Cannot read properties of undefined (reading 'split')")
  | Some withoutFragment =>
      match pop (split "/" withoutFragment) with
      | None => Throw (TypeError "Cannot read properties of undefined (reading 'replace')")
      | Some file => Ok (removeAtEnd ".md" file)
      end
  end.

(** The four renderer methods that [markdownToStorageFormat] installs. *)

Definition code (text : string) (lang : option string) : string :=
  let escapedText := escapeCdata text in
  let langParam :=
    match lang with
    | Some l =>
        if isEmpty l then ""
        else "<ac:parameter ac:name=" ++ dq ++ "language" ++ dq ++ ">"
             ++ escapeXml l ++ "</ac:parameter>"
    | None => ""
    end in
  "<ac:structured-macro ac:name=" ++ dq ++ "code" ++ dq ++ ">"
  ++ langParam
  ++ "<ac:plain-text-body><![CDATA[" ++ escapedText ++ "]]></ac:plain-text-body>"
  ++ "</ac:structured-macro>" ++ nl.

Definition image (href : string) (title : option string) (text : string) : string :=
  let altAttr :=
    if isEmpty text then ""
    else " ac:alt=" ++ dq ++ escapeXml text ++ dq in
  let titleAttr :=
    match title with
    | Some t => if isEmpty t then "" else " ac:title=" ++ dq ++ escapeXml t ++ dq
    | None => ""
    end in
  "<ac:image" ++ altAttr ++ titleAttr ++ ">"
  ++ "<ri:url ri:value=" ++ dq ++ escapeXml href ++ dq ++ " />"
  ++ "</ac:image>".

Definition hr : string := "<hr />" ++ nl.

Section Renderer.

(** [new URL(href, "http://dummy").host], or what the constructor
    throws. *)
Variable new_URL_host : string -> Result string.

(** Check if a link href points to a Markdown file. *)
Definition isMarkdownFileLink (href : string) : bool :=
  match new_URL_host href with
  | Ok host =>
      if negb (String.eqb host "dummy") then false
      else testMdSuffix href
  | Throw _ => testMdSuffix href
  end.

(** [link] returns [None] for [false]: fall back to the default
    renderer. *)
Definition link (parseInline : list Inline -> Result string)
    (href : string) (title : option string) (tokens : list Inline)
    : Result (option string) :=
  if negb (isEmpty href) && isMarkdownFileLink href then
    try! pageTitle <- mdHrefToPageTitle href ;;
    try! linkBody <- parseInline tokens ;;
    let titleAttr :=
      match title with
      | Some t => if isEmpty t then "" else " ac:title=" ++ dq ++ escapeXml t ++ dq
      | None => ""
      end in
    Ok (Some ("<ac:link" ++ titleAttr ++ ">"
              ++ "<ri:page ri:content-title=" ++ dq ++ escapeXml pageTitle ++ dq ++ " />"
              ++ "<ac:link-body>" ++ linkBody ++ "</ac:link-body>"
              ++ "</ac:link>"))
  else Ok None.

(** [marked]'s lexer, and its own renderer method for a token, given
    what the parser returned for the token's children (one string for
    an inline token; for a block token one string per child sequence:
    the body, the items of a list, the cells of a table). *)
Variable lexer : string -> list Token.
Variable defaultInline : Inline -> string -> string.
Variable defaultBlock : Token -> list string -> string.

(** The walk of [marked]'s parser with the installed renderer: every
    token goes to the renderer method of its type, and what the
    methods return is concatenated in document order. *)
Fixpoint renderInline (token : Inline) : Result string :=
  match token with
  | Image href title text => Ok (image href title text)
  | Link href title tokens =>
      try! installed <- link (concatMap renderInline) href title tokens ;;
      match installed with
      | Some out => Ok out
      | None =>
          try! body <- concatMap renderInline tokens ;;
          Ok (defaultInline token body)
      end
  | Strong tokens | Em tokens | Del tokens =>
      try! body <- concatMap renderInline tokens ;;
      Ok (defaultInline token body)
  | _ => Ok (defaultInline token "")
  end.

Definition parseInline (tokens : list Inline) : Result string :=
  concatMap renderInline tokens.

Definition parseCell (cell : TableCell) : Result string :=
  parseInline (cell_tokens cell).

Fixpoint renderBlock (token : Token) : Result string :=
  match token with
  | Code lang text => Ok (code text lang)
  | Hr => Ok hr
  | Heading _ tokens | Paragraph tokens =>
      try! body <- parseInline (orEmpty tokens) ;;
      Ok (defaultBlock token [body])
  | TextBlock _ (Some tokens) =>
      try! body <- parseInline tokens ;;
      Ok (defaultBlock token [body])
  | Blockquote tokens =>
      try! body <- concatMap renderBlock tokens ;;
      Ok (defaultBlock token [body])
  | List _ _ items =>
      try! bodies <- mapResult renderItem items ;;
      Ok (defaultBlock token bodies)
  | Table header rows =>
      try! head <- mapResult parseCell header ;;
      try! body <- mapResult (mapResult parseCell) rows ;;
      Ok (defaultBlock token (head ++ List.concat body)%list)
  | _ => Ok (defaultBlock token [])
  end
with renderItem (item : ListItem) : Result string :=
  match item with
  | list_item tokens => concatMap renderBlock tokens
  end.

Definition parse (tokens : list Token) : Result string :=
  concatMap renderBlock tokens.

(** Convert Markdown content to Confluence storage format (XHTML). *)
Definition markdownToStorageFormat (markdown : string) : Result string :=
  parse (lexer markdown).

End Renderer.

End Storage.

(* ================================================================== *)
(** ** The ADF renderer *)
(* ================================================================== *)

Module Adf.
Import JsString.
Local Open Scope list_scope.

(** *** ADF type definitions *)

(** The values of an [attrs] object ([Record<string, unknown>]); the
    fields of an object are kept in insertion order. *)
Inductive Json : Type :=
| JString (s : string)
| JNumber (n : Z)
| JBool (b : bool)
| JObject (fields : list (string * Json)).

Definition Attrs : Type := list (string * Json).

Fixpoint lookup (key : string) (fields : Attrs) : option Json :=
  match fields with
  | [] => None
  | (k, v) :: rest => if String.eqb k key then Some v else lookup key rest
  end.

Record AdfMark : Type := mark {
  mark_type : string;
  mark_attrs : option Attrs
}.

(** An optional field that is absent is [None]. *)
Inductive AdfNode : Type := node {
  type : string;
  attrs : option Attrs;
  content : option (list AdfNode);
  text : option string;
  marks : option (list AdfMark)
}.

Record AdfDocument : Type := document {
  doc_type : string;
  doc_content : list AdfNode;
  doc_version : Z
}.

(** *** Identifier generation *)

(** A computation that may call [randomUUID]: the state is the number
    of identifiers handed out so far. *)
Definition Gen (A : Type) : Type := nat -> A * nat.

Definition ret {A : Type} (a : A) : Gen A := fun s => (a, s).

Definition bind {A B : Type} (c : Gen A) (k : A -> Gen B) : Gen B :=
  fun s => let (a, s') := c s in k a s'.

Notation "x <- c ;; k" := (bind c (fun x => k))
  (at level 61, c at next level, right associativity).

(** [a.map(f)] and the loop [for (x of a) nodes.push(...f(x))]. *)
Fixpoint mapGen {A B : Type} (f : A -> Gen B) (a : list A) : Gen (list B) :=
  match a with
  | [] => ret []
  | x :: rest =>
      y <- f x ;;
      ys <- mapGen f rest ;;
      ret (y :: ys)
  end.

Fixpoint pushAll {A B : Type} (f : A -> Gen (list B)) (a : list A)
    : Gen (list B) :=
  match a with
  | [] => ret []
  | x :: rest =>
      ys <- f x ;;
      more <- pushAll f rest ;;
      ret (ys ++ more)
  end.

(** *** Nodes without identifiers *)

Definition MERMAID_EXTENSION_KEY : string :=
  "23392b90-4271-4239-98ca-a3e96c663cbb/63d4d207-ac2f-4273-865c-0240d37f044a/static/mermaid-diagram".

Definition textNode (value : string) (active : list AdfMark) : AdfNode :=
  {| type := "text"; attrs := None; content := None; text := Some value;
     marks := match active with [] => None | _ => Some active end |}.

Definition paragraph (inlineNodes : list AdfNode) : AdfNode :=
  {| type := "paragraph"; attrs := None; content := Some inlineNodes;
     text := None; marks := None |}.

(** Convert inline tokens to ADF inline nodes, threading marks through
    nested formatting tokens.  [convertInlineToken] is the body of the
    loop of [convertInlineTokens]: the nodes pushed for one token. *)
Fixpoint convertInlineToken (active : list AdfMark) (token : Inline)
    : list AdfNode :=
  match token with
  | Text value => [textNode value active]
  | Escape value => [textNode value active]
  | Strong tokens =>
      flat_map (convertInlineToken (active ++ [mark "strong" None])) tokens
  | Em tokens =>
      flat_map (convertInlineToken (active ++ [mark "em" None])) tokens
  | Del tokens =>
      flat_map (convertInlineToken (active ++ [mark "strike" None])) tokens
  | Codespan value =>
      [{| type := "text"; attrs := None; content := None; text := Some value;
          marks := Some (active ++ [mark "code" None]) |}]
  | Link href title tokens =>
      let linkMark :=
        mark "link"
          (Some (("href", JString href) ::
                 match title with
                 | Some t => if isEmpty t then [] else [("title", JString t)]
                 | None => []
                 end)) in
      flat_map (convertInlineToken (active ++ [linkMark])) tokens
  | Image href _ alt =>
      [{| type := "text"; attrs := None; content := None;
          text := Some (if isEmpty alt then href else alt);
          marks := Some (active ++ [mark "link" (Some [("href", JString href)])]) |}]
  | Br =>
      [{| type := "hardBreak"; attrs := None; content := None; text := None;
          marks := None |}]
  | Tag value => [textNode value active]
  | GenericInline _ (Some value) => [textNode value active]
  | GenericInline _ None => []
  end.

Definition convertInlineTokens (tokens : list Inline) (active : list AdfMark)
    : list AdfNode :=
  flat_map (convertInlineToken active) tokens.

Definition convertHeading (depth : nat) (tokens : option (list Inline)) : AdfNode :=
  {| type := "heading";
     attrs := Some [("level", JNumber (Z.of_nat depth))];
     content := Some (convertInlineTokens (orEmpty tokens) []);
     text := None; marks := None |}.

Definition isImage (t : Inline) : bool :=
  match t with Image _ _ _ => true | _ => false end.

Definition isBlankText (t : Inline) : bool :=
  match t with
  | Text value => isEmpty (trim value)
  | _ => false
  end.

Definition isImageOnlyParagraph (tokens : list Inline) : bool :=
  let nonSpaceTokens := filter (fun t => negb (isBlankText t)) tokens in
  negb (length nonSpaceTokens =? 0)%nat && forallb isImage nonSpaceTokens.

Definition convertImageToMediaSingle (href : string) (alt : string) : AdfNode :=
  let mediaAttrs :=
    [("type", JString "external"); ("url", JString href)]
    ++ (if isEmpty alt then [] else [("alt", JString alt)]) in
  {| type := "mediaSingle";
     attrs := Some [("layout", JString "center")];
     content := Some [{| type := "media"; attrs := Some mediaAttrs;
                         content := None; text := None; marks := None |}];
     text := None; marks := None |}.

(** [inlineTokens.filter(isImage).map(convertImageToMediaSingle)]. *)
Fixpoint mediaSingles (tokens : list Inline) : list AdfNode :=
  match tokens with
  | [] => []
  | Image href _ alt :: rest => convertImageToMediaSingle href alt :: mediaSingles rest
  | _ :: rest => mediaSingles rest
  end.

Definition convertParagraphNodes (tokens : option (list Inline)) : list AdfNode :=
  let inlineTokens := orEmpty tokens in
  if isImageOnlyParagraph inlineTokens then mediaSingles inlineTokens
  else [paragraph (convertInlineTokens inlineTokens [])].

Definition convertCell (cellType : string) (cell : TableCell) : AdfNode :=
  {| type := cellType; attrs := Some [];
     content := Some [paragraph (convertInlineTokens (cell_tokens cell) [])];
     text := None; marks := None |}.

Definition tableRow (cellType : string) (cells : list TableCell) : AdfNode :=
  {| type := "tableRow"; attrs := None;
     content := Some (map (convertCell cellType) cells);
     text := None; marks := None |}.

Definition convertTable (header : list TableCell) (rows : list (list TableCell))
    : AdfNode :=
  let headerRow :=
    match header with
    | [] => []
    | _ => [tableRow "tableHeader" header]
    end in
  {| type := "table";
     attrs := Some [("isNumberColumnEnabled", JBool false);
                    ("layout", JString "default")];
     content := Some (headerRow ++ map (tableRow "tableCell") rows);
     text := None; marks := None |}.

Definition codeBlockNode (lang : option string) (code : string) : AdfNode :=
  {| type := "codeBlock";
     attrs := Some match lang with
                   | Some l => if isEmpty l then [] else [("language", JString l)]
                   | None => []
                   end;
     content := Some [textNode code []];
     text := None; marks := None |}.

Definition extensionNode (localId : string) : AdfNode :=
  {| type := "extension";
     attrs := Some [("extensionType", JString "com.atlassian.ecosystem");
                    ("extensionKey", JString MERMAID_EXTENSION_KEY);
                    ("parameters", JObject [("localId", JString localId)]);
                    ("localId", JString localId)];
     content := None; text := None; marks := None |}.

Definition listNode (ordered : bool) (start : ListStart) (items : list AdfNode)
    : AdfNode :=
  {| type := if ordered then "orderedList" else "bulletList";
     attrs := match start with
              | Start n => if ordered && negb (n =? 1)%Z
                           then Some [("order", JNumber n)] else None
              | NoStart => None
              end;
     content := Some items; text := None; marks := None |}.

Definition listItemNode (children : list AdfNode) : AdfNode :=
  {| type := "listItem"; attrs := None;
     content := Some match children with
                     | [] => [paragraph []]
                     | _ => children
                     end;
     text := None; marks := None |}.

Section Generator.

(** [uuid n] is the identifier that the platform's generator hands out
    at its [n]-th call. *)
Variable uuid : nat -> string.

Definition randomUUID : Gen string := fun s => (uuid s, S s).

Definition buildMermaidExtensionNode : Gen AdfNode :=
  localId <- randomUUID ;;
  ret (extensionNode localId).

Definition convertCodeBlock (lang : option string) (code : string)
    : Gen (list AdfNode) :=
  let node := codeBlockNode lang code in
  match lang with
  | Some l =>
      if String.eqb l "mermaid" then
        extension <- buildMermaidExtensionNode ;;
        ret [node; extension]
      else ret [node]
  | None => ret [node]
  end.

Definition convertListWith (convertListItem : ListItem -> Gen AdfNode)
    (ordered : bool) (start : ListStart) (items : list ListItem)
    : Gen AdfNode :=
  children <- mapGen convertListItem items ;;
  ret (listNode ordered start children).

(** Convert a single block-level token into one or more ADF nodes;
    [None] is [null]. *)
Fixpoint convertBlockToken (token : Token) : Gen (option (list AdfNode)) :=
  match token with
  | Heading depth tokens => ret (Some [convertHeading depth tokens])
  | Paragraph tokens => ret (Some (convertParagraphNodes tokens))
  | Code lang code =>
      nodes <- convertCodeBlock lang code ;;
      ret (Some nodes)
  | List ordered start items =>
      list <- convertListWith convertListItem ordered start items ;;
      ret (Some [list])
  | Blockquote tokens =>
      children <-
        pushAll (fun t => converted <- convertBlockToken t ;;
                          ret (orEmpty converted)) tokens ;;
      ret (Some [{| type := "blockquote"; attrs := None;
                    content := Some children; text := None; marks := None |}])
  | Table header rows => ret (Some [convertTable header rows])
  | Hr =>
      ret (Some [{| type := "rule"; attrs := None; content := None;
                    text := None; marks := None |}])
  | HTML raw =>
      if isEmpty (trim raw) then ret None
      else ret (Some [paragraph [textNode raw []]])
  | Space | Def => ret None
  | _ => ret None
  end
with convertListItem (item : ListItem) : Gen AdfNode :=
  match item with
  | list_item tokens =>
      children <-
        pushAll
          (fun token =>
             match token with
             | TextBlock _ (Some inline) =>
                 match convertInlineTokens inline [] with
                 | [] => ret []
                 | inlineNodes => ret [paragraph inlineNodes]
                 end
             | List ordered start items =>
                 list <- convertListWith convertListItem ordered start items ;;
                 ret [list]
             | Paragraph inline => ret (convertParagraphNodes inline)
             | Space => ret []
             | _ =>
                 converted <- convertBlockToken token ;;
                 ret (orEmpty converted)
             end)
          tokens ;;
      ret (listItemNode children)
  end.

(** The body of the loop of [convertBlockTokens]: the nodes pushed for
    one token. *)
Definition blockNodes (token : Token) : Gen (list AdfNode) :=
  converted <- convertBlockToken token ;;
  ret (orEmpty converted).

Definition convertBlockTokens (tokens : list Token) : Gen (list AdfNode) :=
  pushAll blockNodes tokens.

Definition convertList (ordered : bool) (start : ListStart)
    (items : list ListItem) : Gen AdfNode :=
  convertListWith convertListItem ordered start items.

(** The body of the loop of [convertListItem]: the nodes pushed for one
    token of the item. *)
Definition listItemStep (token : Token) : Gen (list AdfNode) :=
  match token with
  | TextBlock _ (Some inline) =>
      match convertInlineTokens inline [] with
      | [] => ret []
      | inlineNodes => ret [paragraph inlineNodes]
      end
  | List ordered start items =>
      list <- convertList ordered start items ;;
      ret [list]
  | Paragraph inline => ret (convertParagraphNodes inline)
  | Space => ret []
  | _ =>
      converted <- convertBlockToken token ;;
      ret (orEmpty converted)
  end.

Variable lexer : string -> list Token.

(** Convert Markdown content to Atlassian Document Format (ADF). *)
Definition markdownToAdf (markdown : string) : Gen AdfDocument :=
  let tokens := lexer markdown in
  content <- convertBlockTokens tokens ;;
  ret {| doc_type := "doc";
         doc_content := match content with
                        | [] => [paragraph []]
                        | _ => content
                        end;
         doc_version := 1 |}.

End Generator.

End Adf.

(* ================================================================== *)
(** ** Vocabulary of the properties *)
(* ================================================================== *)

Module Props.
Import JsString.


(** The five characters that are reserved in an XML attribute, and the
    entity that stands for each. *)
Definition isReserved (c : ascii) : bool :=
  List.existsb (Ascii.eqb c) ["&"; "<"; ">"; "034"; "'"]%char.

Definition entityOf (c : ascii) : string :=
  if Ascii.eqb c "&" then "&amp;"
  else if Ascii.eqb c "<" then "&lt;"
  else if Ascii.eqb c ">" then "&gt;"
  else if Ascii.eqb c "034" then "&quot;"
  else if Ascii.eqb c "'" then "&apos;"
  else String c EmptyString.

Fixpoint substitute (f : ascii -> string) (s : string) : string :=
  match s with
  | EmptyString => EmptyString
  | String c rest => f c ++ substitute f rest
  end.

(** How an XML parser reads a run of adjacent CDATA sections: a section
    opens with "<![CDATA[" and closes at the first "]]>" after that; the
    character data of the run is what stands inside the sections.
    [skip] counts the code units of the current delimiter that are
    still to be passed over; [None] when the input is not such a run. *)
Fixpoint readSections (inside : bool) (skip : nat) (s : string) : option string :=
  match s with
  | EmptyString => if inside then None else Some EmptyString
  | String c rest =>
      match skip with
      | S k => readSections inside k rest
      | O =>
          if inside then
            if prefix "]]>" s then readSections false 2 rest
            else option_map (String c) (readSections true 0 rest)
          else
            if prefix "<![CDATA[" s then readSections true 8 rest
            else None
      end
  end.

Definition characterData (s : string) : option string :=
  readSections false 0 s.

(** A fragment: nothing, or "#" and a run without line terminators. *)
Definition isFragment (rest : string) : Prop :=
  rest = "" \/
  exists f, rest = "#" ++ f
            /\ allUnits (fun x => negb (isLineTerminator x)) f = true.

(** [href] ends in ".md", optionally followed by a fragment. *)
Definition endsInMd (href : string) : Prop :=
  exists before rest, href = before ++ ".md" ++ rest /\ isFragment rest.

Definition hasUnit (c : ascii) (s : string) : bool :=
  negb (allUnits (fun x => negb (Ascii.eqb x c)) s).

(** [href] is [dir ++ file ++ ".md" ++ rest]: directory components,
    then a file name with the Markdown extension, then a fragment. *)
Definition isMdPath (dir file rest : string) : Prop :=
  (dir = "" \/ exists d, dir = d ++ "/")
  /\ hasUnit "#" dir = false
  /\ hasUnit "#" file = false
  /\ hasUnit "/" file = false
  /\ isFragment rest.

(** The cross-document reference macro for a page title, an optional
    link title and a rendered body. *)
Definition pageLink (pageTitle : string) (title : option string) (body : string)
    : string :=
  "<ac:link"
  ++ (if truthy title
      then " ac:title=" ++ dq
           ++ Storage.escapeXml (match title with Some t => t | None => "" end)
           ++ dq
      else "")
  ++ "><ri:page ri:content-title=" ++ dq ++ Storage.escapeXml pageTitle ++ dq
  ++ " /><ac:link-body>" ++ body ++ "</ac:link-body></ac:link>".

(** The code macro of a mermaid block. *)
Definition mermaidCodeMacro (text : string) : string :=
  "<ac:structured-macro ac:name=" ++ dq ++ "code" ++ dq ++ ">"
  ++ "<ac:parameter ac:name=" ++ dq ++ "language" ++ dq ++ ">mermaid</ac:parameter>"
  ++ "<ac:plain-text-body><![CDATA[" ++ Storage.escapeCdata text
  ++ "]]></ac:plain-text-body></ac:structured-macro>" ++ nl.

End Props.

(* ================================================================== *)
(** ** Vocabulary of the properties of ADF documents *)
(* ================================================================== *)

Module AdfProps.
Import JsString Adf.
Local Open Scope list_scope.

Definition children (n : AdfNode) : list AdfNode :=
  match content n with
  | Some c => c
  | None => []
  end.

(** A node and all its descendants, in document order. *)
Fixpoint subnodes (n : AdfNode) : list AdfNode :=
  match n with
  | node _ _ (Some c) _ _ => n :: flat_map subnodes c
  | node _ _ None _ _ => [n]
  end.

Definition nodesOf (doc : AdfDocument) : list AdfNode :=
  flat_map subnodes (doc_content doc).

(** The content sequences of a document: that of the document and that
    of every node that has one. *)
Definition contentOf (n : AdfNode) : list (list AdfNode) :=
  match content n with
  | Some c => [c]
  | None => []
  end.

Definition containersOf (doc : AdfDocument) : list (list AdfNode) :=
  doc_content doc :: flat_map contentOf (nodesOf doc).

Definition isExtension (n : AdfNode) : bool := String.eqb (type n) "extension".

Definition languageOf (n : AdfNode) : option string :=
  match attrs n with
  | Some fields =>
      match lookup "language" fields with
      | Some (JString l) => Some l
      | _ => None
      end
  | None => None
  end.

Definition isMermaidCodeBlock (n : AdfNode) : bool :=
  String.eqb (type n) "codeBlock"
  && match languageOf n with
     | Some l => String.eqb l "mermaid"
     | None => false
     end.

(** In a sequence of siblings, a node is an extension exactly when the
    node before it is a mermaid code block, and the sequence does not
    end with a mermaid code block.  [afterMermaid] tells whether the
    node before the sequence is one. *)
Fixpoint adjacent (afterMermaid : bool) (siblings : list AdfNode) : bool :=
  match siblings with
  | [] => negb afterMermaid
  | n :: rest =>
      Bool.eqb (isExtension n) afterMermaid
      && adjacent (isMermaidCodeBlock n) rest
  end.

(** The types of the block nodes that the renderer builds. *)
Definition isBlockLevel (n : AdfNode) : bool :=
  List.existsb (String.eqb (type n))
    ["paragraph"; "heading"; "mediaSingle"; "codeBlock"; "extension";
     "bulletList"; "orderedList"; "blockquote"; "table"; "rule"].

Definition isListItem (n : AdfNode) : bool := String.eqb (type n) "listItem".

Definition emptyParagraph : AdfNode := paragraph [].

(** The document of the empty-document fallback. *)
Definition emptyDocument : AdfDocument :=
  {| doc_type := "doc"; doc_content := [emptyParagraph]; doc_version := 1 |}.

(** [p] holds of a node and of all its descendants. *)
Fixpoint everyNode (p : AdfNode -> bool) (n : AdfNode) : bool :=
  p n &&
  match n with
  | node _ _ (Some c) _ _ => forallb (everyNode p) c
  | node _ _ None _ _ => true
  end.

Definition placed (n : AdfNode) : bool := adjacent false (children n).

Definition filled (n : AdfNode) : bool :=
  if isListItem n
  then negb (length (children n) =? 0)%nat && forallb isBlockLevel (children n)
  else true.

Definition sound (n : AdfNode) : bool := placed n && filled n.

(** A node that is neither an extension nor a mermaid code block. *)
Definition calm (n : AdfNode) : bool :=
  negb (isExtension n) && negb (isMermaidCodeBlock n).

Definition quiet (n : AdfNode) : bool := sound n && calm n.

Definition isInlineNode (n : AdfNode) : bool :=
  (String.eqb (type n) "text" || String.eqb (type n) "hardBreak")
  && match content n with Some _ => false | None => true end.

(** A paragraph is image-only: it has an image, and every token is an
    image or a text run of white space. *)
Definition imageOnly (tokens : list Inline) : Prop :=
  Exists (fun t => isImage t = true) tokens
  /\ Forall (fun t => isImage t = true
                     \/ exists value, t = Text value
                                      /\ allUnits isWhiteSpace value = true)
       tokens.

(** The images of a paragraph, in order: href and alternative text. *)
Fixpoint imagesOf (tokens : list Inline) : list (string * string) :=
  match tokens with
  | [] => []
  | Image href _ alt :: rest => (href, alt) :: imagesOf rest
  | _ :: rest => imagesOf rest
  end.

(** The [mediaSingle] node of the specification for one image. *)
Definition mediaSingleOf (image : string * string) : AdfNode :=
  let (href, alt) := image in
  {| type := "mediaSingle";
     attrs := Some [("layout", JString "center")];
     content :=
       Some [{| type := "media";
                attrs := Some (if isEmpty alt
                               then [("type", JString "external");
                                     ("url", JString href)]
                               else [("type", JString "external");
                                     ("url", JString href);
                                     ("alt", JString alt)]);
                content := None; text := None; marks := None |}];
     text := None; marks := None |}.

(** What a conversion that starts with [s] identifiers handed out and
    ends with [s'] has built: siblings in which extensions stand where
    they should, sound nodes all the way down, and one extension node
    per identifier drawn, in document order. *)
Definition extensionsOf (nodes : list AdfNode) : list AdfNode :=
  filter isExtension (flat_map subnodes nodes).

Definition Built (uuid : nat -> string) (nodes : list AdfNode) (s s' : nat)
    : Prop :=
  s <= s'
  /\ adjacent false nodes = true
  /\ forallb (everyNode sound) nodes = true
  /\ extensionsOf nodes = map (fun k => extensionNode (uuid k)) (seq s (s' - s)).

Definition BuiltBlocks (uuid : nat -> string) (nodes : list AdfNode)
    (s s' : nat) : Prop :=
  Built uuid nodes s s' /\ forallb isBlockLevel nodes = true.

End AdfProps.

(* ================================================================== *)
(** ** Vocabulary of further properties *)
(* ================================================================== *)

Module MoreProps.
Import JsString Adf AdfProps Props.

(** The characters that end or open something inside an attribute. *)
Definition isMarkup (c : ascii) : bool :=
  List.existsb (Ascii.eqb c) ["<"; ">"; "034"; "'"]%char.

(** The five entities that [escapeXml] writes. *)
Definition entities : list string :=
  ["&amp;"; "&lt;"; "&gt;"; "&quot;"; "&apos;"]%list.

(** A string that can stand in an attribute value: it holds no "<",
    ">", double quote or apostrophe, and every ampersand in it starts
    one of the five entities. *)
Fixpoint wellEscaped (s : string) : bool :=
  match s with
  | EmptyString => true
  | String c rest =>
      (if Ascii.eqb c "&" then List.existsb (fun e => prefix e s) entities
       else negb (isReserved c))
      && wellEscaped rest
  end.

(** How an XML parser reads an attribute value back: each of the five
    entities stands for its character.  [skip] counts the code units of
    the current entity that are still to be passed over. *)
Fixpoint unescapeFrom (skip : nat) (s : string) : string :=
  match s with
  | EmptyString => EmptyString
  | String c rest =>
      match skip with
      | S k => unescapeFrom k rest
      | O =>
          if prefix "&amp;" s then String "&" (unescapeFrom 4 rest)
          else if prefix "&lt;" s then String "<" (unescapeFrom 3 rest)
          else if prefix "&gt;" s then String ">" (unescapeFrom 3 rest)
          else if prefix "&quot;" s then String "034" (unescapeFrom 5 rest)
          else if prefix "&apos;" s then String "'" (unescapeFrom 5 rest)
          else String c (unescapeFrom 0 rest)
      end
  end.

Definition unescapeXml (s : string) : string := unescapeFrom 0 s.

Definition hasReserved (s : string) : bool :=
  negb (allUnits (fun c => negb (isReserved c)) s).

(** The number of occurrences of a code unit. *)
Fixpoint countUnit (c : ascii) (s : string) : nat :=
  match s with
  | EmptyString => 0
  | String x rest => (if Ascii.eqb x c then 1 else 0) + countUnit c rest
  end.

(** The marks of a node; an absent [marks] field is no mark. *)
Definition marksOf (n : AdfNode) : list AdfMark :=
  match marks n with
  | Some m => m
  | None => []%list
  end.

(** Image-only, as a test: some token is an image, and every token is
    an image or a text run of white space. *)
Definition isBlankRun (t : Inline) : bool :=
  match t with
  | Text value => allUnits isWhiteSpace value
  | _ => false
  end.

Definition imageOnlyb (tokens : list Inline) : bool :=
  List.existsb isImage tokens
  && List.forallb (fun t => isImage t || isBlankRun t) tokens.

(** The number of nodes that a block token contributes to the content
    sequence it is converted into. *)
Definition nodeCount (t : Token) : nat :=
  match t with
  | Heading _ _ | Table _ _ | Hr | Blockquote _ | List _ _ _ => 1
  | Paragraph tokens =>
      if imageOnlyb (orEmpty tokens)
      then List.length (List.filter isImage (orEmpty tokens))
      else 1
  | Code (Some l) _ => if String.eqb l "mermaid" then 2 else 1
  | Code None _ => 1
  | HTML raw => if allUnits isWhiteSpace raw then 0 else 1
  | _ => 0
  end.

(** The number of mermaid code blocks of a token, at any depth. *)
Fixpoint mermaidBlocks (t : Token) : nat :=
  match t with
  | Code (Some l) _ => if String.eqb l "mermaid" then 1 else 0
  | Blockquote tokens => list_sum (List.map mermaidBlocks tokens)
  | List _ _ items => list_sum (List.map mermaidItem items)
  | _ => 0
  end
with mermaidItem (item : ListItem) : nat :=
  match item with
  | list_item tokens => list_sum (List.map mermaidBlocks tokens)
  end.

Definition localIdOf (n : AdfNode) : option string :=
  match attrs n with
  | Some fields =>
      match lookup "localId" fields with
      | Some (JString i) => Some i
      | _ => None
      end
  | None => None
  end.

(** The nesting of the document format, as far as the renderer uses
    it.  A text node has a text and nothing below it; no other node has
    a text or marks; a paragraph or a heading holds text nodes and hard
    breaks; a mediaSingle holds one media; a code block holds one text
    node without marks; a list holds list items; a list item or a
    blockquote holds block nodes; a table holds rows; a row holds header
    cells or data cells; a cell holds one paragraph; hardBreak, rule,
    media and extension hold nothing; there is no other type. *)
Definition hasType (types : list string) (n : AdfNode) : bool :=
  List.existsb (String.eqb (type n)) types.

Definition absent {A : Type} (o : option A) : bool :=
  match o with
  | None => true
  | Some _ => false
  end.

Definition conforms (n : AdfNode) : bool :=
  if String.eqb (type n) "text"
  then negb (absent (text n)) && absent (content n) && absent (attrs n)
  else
    absent (text n) && absent (marks n) &&
    if hasType ["hardBreak"; "rule"; "media"; "extension"]%list n
    then absent (content n)
    else
      match content n with
      | None => false
      | Some c =>
          if hasType ["paragraph"; "heading"]%list n
          then List.forallb (hasType ["text"; "hardBreak"]%list) c
          else if String.eqb (type n) "mediaSingle"
          then match c with
               | [m]%list => String.eqb (type m) "media"
               | _ => false
               end
          else if String.eqb (type n) "codeBlock"
          then match c with
               | [t]%list => String.eqb (type t) "text" && absent (marks t)
               | _ => false
               end
          else if hasType ["bulletList"; "orderedList"]%list n
          then List.forallb (hasType ["listItem"]%list) c
          else if hasType ["listItem"; "blockquote"]%list n
          then List.forallb isBlockLevel c
          else if String.eqb (type n) "table"
          then List.forallb (hasType ["tableRow"]%list) c
          else if String.eqb (type n) "tableRow"
          then List.forallb (hasType ["tableHeader"]%list) c
               || List.forallb (hasType ["tableCell"]%list) c
          else if hasType ["tableHeader"; "tableCell"]%list n
          then match c with
               | [p]%list => String.eqb (type p) "paragraph"
               | _ => false
               end
          else false
      end.

(** The inline formatting, as a reader of the Markdown sees it.  A
    formatting token puts one mark on everything it holds: strong, em,
    strike for del, and for a link a link mark with the href and, when
    the title is not empty, the title. *)
Definition markOf (t : Inline) : option AdfMark :=
  match t with
  | Strong _ => Some (mark "strong" None)
  | Em _ => Some (mark "em" None)
  | Del _ => Some (mark "strike" None)
  | Link href title _ =>
      Some (mark "link"
              (Some (("href", JString href) ::
                     match title with
                     | Some t => if isEmpty t then []%list
                                 else [("title", JString t)]%list
                     | None => []%list
                     end)))
  | _ => None
  end.

Definition heldBy (t : Inline) : list Inline :=
  match t with
  | Strong tokens | Em tokens | Del tokens | Link _ _ tokens => tokens
  | _ => []%list
  end.

(** The mark that a token without children brings itself: code for a
    code span, and a link to the image for an image within text. *)
Definition ownMarks (t : Inline) : list AdfMark :=
  match t with
  | Codespan _ => [mark "code" None]%list
  | Image href _ _ => [mark "link" (Some [("href", JString href)]%list)]%list
  | _ => []%list
  end.

(** The text that a token without children shows. *)
Definition textOf (t : Inline) : option string :=
  match t with
  | Text value | Escape value | Tag value | Codespan value => Some value
  | Image href _ alt => Some (if isEmpty alt then href else alt)
  | GenericInline _ value => value
  | _ => None
  end.

(** [Under path leaf tokens]: the token [leaf], which holds no token,
    stands in [tokens] inside the formatting tokens of [path], the
    outermost first. *)
Inductive Under : list Inline -> Inline -> list Inline -> Prop :=
| under_here (leaf : Inline) (tokens : list Inline) :
    List.In leaf tokens -> markOf leaf = None -> Under []%list leaf tokens
| under_inside (w : Inline) (path : list Inline) (leaf : Inline)
    (tokens : list Inline) :
    List.In w tokens -> markOf w <> None -> Under path leaf (heldBy w) ->
    Under (w :: path)%list leaf tokens.

Definition pathMarks (path : list Inline) : list AdfMark :=
  List.flat_map (fun w => match markOf w with
                          | Some m => [m]%list
                          | None => []%list
                          end) path.

(** A node of the conversion of [tokens] under the marks [active]: its
    [marks] field is never an empty array, and it is a hard break
    without marks or the text node of a token of [tokens] whose marks
    are [active], then the marks of the formatting tokens around the
    token from the outermost to the innermost, then its own mark. *)
Definition stamped (tokens : list Inline) (active : list AdfMark)
    (n : AdfNode) : Prop :=
  marks n <> Some []%list
  /\ ((type n = "hardBreak" /\ marks n = None)
      \/ (type n = "text"
          /\ exists path leaf,
               Under path leaf tokens
               /\ text n = textOf leaf
               /\ marksOf n = (active ++ pathMarks path ++ ownMarks leaf)%list)).

(** An inline node, and a list item, that conform all the way down. *)
Definition inlineOk (n : AdfNode) : bool :=
  everyNode conforms n && hasType ["text"; "hardBreak"]%list n.

Definition itemOk (n : AdfNode) : bool :=
  everyNode conforms n && hasType ["listItem"]%list n.

(** A sequence of block nodes whose nodes conform all the way down. *)
Definition Shaped (nodes : list AdfNode) : Prop :=
  List.forallb (everyNode conforms) nodes = true
  /\ List.forallb isBlockLevel nodes = true.

End MoreProps.

(* ================================================================== *)
(** ** The renderers on the call stack *)
(* ================================================================== *)

(** The two renderers as the engine runs them.  A computation is given
    the room left on the call stack, in frames, and the number of
    identifiers drawn so far; it returns or throws.  A call takes a
    frame, and a call without room throws RangeError; [marked]'s lexer
    returns or throws; nothing catches but the [try] of
    [isMarkdownFileLink].  The frames counted are those of the calls
    written here: an engine needs at least that many. *)
Module Runtime.
Import JsString Adf.
Local Open Scope list_scope.

Definition Run (A : Type) : Type := nat -> nat -> Result A * nat.

Definition pure {A : Type} (a : A) : Run A := fun _ s => (Ok a, s).

Definition lift {A : Type} (r : Result A) : Run A := fun _ s => (r, s).

Definition andThen {A B : Type} (c : Run A) (k : A -> Run B) : Run B :=
  fun frames s =>
    match c frames s with
    | (Ok a, s') => k a frames s'
    | (Throw e, s') => (Throw e, s')
    end.

Notation "'run!' x <- c ;; k" := (andThen c (fun x => k))
  (at level 61, x name, c at next level, right associativity).

Definition stackOverflow : JsError :=
  RangeError "Maximum call stack size exceeded".

(** The call of a function with the body [body]. *)
Definition call {A : Type} (body : Run A) : Run A :=
  fun frames s =>
    match frames with
    | O => (Throw stackOverflow, s)
    | S room => body room s
    end.

(** The call of a function that calls no function through which the
    renderers recurse, and returns [a]. *)
Definition leaf {A : Type} (a : A) : Run A := call (pure a).

(** [for (x of a) nodes.push(...f(x))], [a.map(f)] and
    [for (x of a) out += f(x)]. *)
Fixpoint forEach {A B : Type} (f : A -> Run (list B)) (a : list A)
    : Run (list B) :=
  match a with
  | [] => pure []
  | x :: rest =>
      run! ys <- f x ;;
      run! more <- forEach f rest ;;
      pure (ys ++ more)
  end.

Fixpoint mapRun {A B : Type} (f : A -> Run B) (a : list A) : Run (list B) :=
  match a with
  | [] => pure []
  | x :: rest =>
      run! y <- f x ;;
      run! ys <- mapRun f rest ;;
      pure (y :: ys)
  end.

Fixpoint concatRun {A : Type} (f : A -> Run string) (a : list A)
    : Run string :=
  match a with
  | [] => pure ""%string
  | x :: rest =>
      run! out <- f x ;;
      run! more <- concatRun f rest ;;
      pure (out ++ more)%string
  end.

(** *** markdown-to-adf *)

Section Engine.

Variable uuid : nat -> string.

(** [instance.lexer(markdown)]: the tokens, or what the lexer throws. *)
Variable lexer : string -> Result (list Token).

Definition randomUUID : Run string := fun _ s => (Ok (uuid s), S s).

Definition buildMermaidExtensionNode : Run AdfNode :=
  call (run! localId <- randomUUID ;;
        pure (extensionNode localId)).

(** The body of the loop of [convertInlineTokens]; a token without
    children pushes what [Adf.convertInlineToken] says, and a
    formatting token calls [convertInlineTokens] on its children. *)
Fixpoint convertInlineToken (active : list AdfMark) (token : Inline)
    : Run (list AdfNode) :=
  match token with
  | Strong tokens =>
      call (forEach (convertInlineToken (active ++ [mark "strong" None])) tokens)
  | Em tokens =>
      call (forEach (convertInlineToken (active ++ [mark "em" None])) tokens)
  | Del tokens =>
      call (forEach (convertInlineToken (active ++ [mark "strike" None])) tokens)
  | Link href title tokens =>
      let linkMark :=
        mark "link"
          (Some (("href", JString href) ::
                 match title with
                 | Some t => if isEmpty t then [] else [("title", JString t)]
                 | None => []
                 end)) in
      call (forEach (convertInlineToken (active ++ [linkMark])) tokens)
  | _ => pure (Adf.convertInlineToken active token)
  end.

Definition convertInlineTokens (tokens : list Inline) (active : list AdfMark)
    : Run (list AdfNode) :=
  call (forEach (convertInlineToken active) tokens).

Definition convertHeading (depth : nat) (tokens : option (list Inline))
    : Run AdfNode :=
  call (run! inlineNodes <- convertInlineTokens (orEmpty tokens) [] ;;
        pure {| type := "heading";
                attrs := Some [("level", JNumber (Z.of_nat depth))];
                content := Some inlineNodes;
                text := None; marks := None |}).

Definition convertParagraphNodes (tokens : option (list Inline))
    : Run (list AdfNode) :=
  call (let inlineTokens := orEmpty tokens in
        run! imageOnly <- leaf (isImageOnlyParagraph inlineTokens) ;;
        if imageOnly then leaf (mediaSingles inlineTokens)
        else
          run! inlineNodes <- convertInlineTokens inlineTokens [] ;;
          pure [paragraph inlineNodes]).

Definition convertCell (cellType : string) (cell : TableCell) : Run AdfNode :=
  call (run! inlineNodes <- convertInlineTokens (cell_tokens cell) [] ;;
        pure {| type := cellType; attrs := Some [];
                content := Some [paragraph inlineNodes];
                text := None; marks := None |}).

Definition tableRow (cellType : string) (cells : list TableCell)
    : Run AdfNode :=
  run! converted <- mapRun (convertCell cellType) cells ;;
  pure {| type := "tableRow"; attrs := None; content := Some converted;
          text := None; marks := None |}.

Definition convertTable (header : list TableCell)
    (rows : list (list TableCell)) : Run AdfNode :=
  call (run! headerRow <-
          match header with
          | [] => pure []
          | _ => run! row <- tableRow "tableHeader" header ;; pure [row]
          end ;;
        run! bodyRows <- mapRun (tableRow "tableCell") rows ;;
        pure {| type := "table";
                attrs := Some [("isNumberColumnEnabled", JBool false);
                               ("layout", JString "default")];
                content := Some (headerRow ++ bodyRows);
                text := None; marks := None |}).

Definition convertCodeBlock (lang : option string) (code : string)
    : Run (list AdfNode) :=
  call (let node := codeBlockNode lang code in
        match lang with
        | Some l =>
            if String.eqb l "mermaid" then
              run! extension <- buildMermaidExtensionNode ;;
              pure [node; extension]
            else pure [node]
        | None => pure [node]
        end).

Definition convertListWith (convertListItem : ListItem -> Run AdfNode)
    (ordered : bool) (start : ListStart) (items : list ListItem)
    : Run AdfNode :=
  call (run! children <- mapRun convertListItem items ;;
        pure (listNode ordered start children)).

Fixpoint convertBlockToken (token : Token) : Run (option (list AdfNode)) :=
  call
    match token with
    | Heading depth tokens =>
        run! heading <- convertHeading depth tokens ;;
        pure (Some [heading])
    | Paragraph tokens =>
        run! nodes <- convertParagraphNodes tokens ;;
        pure (Some nodes)
    | Code lang code =>
        run! nodes <- convertCodeBlock lang code ;;
        pure (Some nodes)
    | List ordered start items =>
        run! list <- convertListWith convertListItem ordered start items ;;
        pure (Some [list])
    | Blockquote tokens =>
        run! quote <-
          call (run! children <-
                  call (forEach
                          (fun t => run! converted <- convertBlockToken t ;;
                                    pure (orEmpty converted)) tokens) ;;
                pure {| type := "blockquote"; attrs := None;
                        content := Some children;
                        text := None; marks := None |}) ;;
        pure (Some [quote])
    | Table header rows =>
        run! table <- convertTable header rows ;;
        pure (Some [table])
    | Hr =>
        pure (Some [{| type := "rule"; attrs := None; content := None;
                       text := None; marks := None |}])
    | HTML raw =>
        if isEmpty (trim raw) then pure None
        else pure (Some [paragraph [textNode raw []]])
    | _ => pure None
    end
with convertListItem (item : ListItem) : Run AdfNode :=
  call
    match item with
    | list_item tokens =>
        run! children <-
          forEach
            (fun token =>
               match token with
               | TextBlock _ (Some inline) =>
                   run! inlineNodes <- convertInlineTokens inline [] ;;
                   match inlineNodes with
                   | [] => pure []
                   | _ => pure [paragraph inlineNodes]
                   end
               | List ordered start items =>
                   run! list <-
                     convertListWith convertListItem ordered start items ;;
                   pure [list]
               | Paragraph inline => convertParagraphNodes inline
               | Space => pure []
               | _ =>
                   run! converted <- convertBlockToken token ;;
                   pure (orEmpty converted)
               end)
            tokens ;;
        pure (listItemNode children)
    end.

(** The body of the loop of [convertBlockTokens]. *)
Definition blockNodes (token : Token) : Run (list AdfNode) :=
  run! converted <- convertBlockToken token ;;
  pure (orEmpty converted).

Definition convertBlockTokens (tokens : list Token) : Run (list AdfNode) :=
  call (forEach blockNodes tokens).

(** The body of the loop of [convertListItem]. *)
Definition listItemStep (token : Token) : Run (list AdfNode) :=
  match token with
  | TextBlock _ (Some inline) =>
      run! inlineNodes <- convertInlineTokens inline [] ;;
      match inlineNodes with
      | [] => pure []
      | _ => pure [paragraph inlineNodes]
      end
  | List ordered start items =>
      run! list <- convertListWith convertListItem ordered start items ;;
      pure [list]
  | Paragraph inline => convertParagraphNodes inline
  | Space => pure []
  | _ =>
      run! converted <- convertBlockToken token ;;
      pure (orEmpty converted)
  end.

(** What a caller runs when it calls [markdownToAdf]: the body of the
    function, with the room that the caller has left. *)
Definition markdownToAdf (markdown : string) : Run AdfDocument :=
  run! tokens <- lift (lexer markdown) ;;
  run! nodes <- convertBlockTokens tokens ;;
  pure {| doc_type := "doc";
          doc_content := match nodes with
                         | [] => [paragraph []]
                         | _ => nodes
                         end;
          doc_version := 1 |}.

End Engine.

(** *** markdown-to-storage *)

Section Renderer.

Variable new_URL_host : string -> Result string.
Variable lexer : string -> Result (list Token).
Variable defaultInline : Inline -> string -> string.
Variable defaultBlock : Token -> list string -> string.

(** [Storage.isMarkdownFileLink] holds the [try] and its [catch]. *)
Definition isMarkdownFileLink (href : string) : Run bool :=
  leaf (Storage.isMarkdownFileLink new_URL_host href).

Definition mdHrefToPageTitle (href : string) : Run string :=
  call (lift (Storage.mdHrefToPageTitle href)).

Definition link (parseInline : list Inline -> Run string)
    (href : string) (title : option string) (tokens : list Inline)
    : Run (option string) :=
  call (run! markdownFile <-
          (if isEmpty href then pure false else isMarkdownFileLink href) ;;
        if markdownFile then
          run! pageTitle <- mdHrefToPageTitle href ;;
          run! linkBody <- parseInline tokens ;;
          let titleAttr :=
            match title with
            | Some t => if isEmpty t then ""
                        else (" ac:title=" ++ dq ++ Storage.escapeXml t ++ dq)%string
            | None => ""
            end in
          pure (Some ("<ac:link" ++ titleAttr ++ ">"
                      ++ "<ri:page ri:content-title=" ++ dq
                      ++ Storage.escapeXml pageTitle ++ dq ++ " />"
                      ++ "<ac:link-body>" ++ linkBody ++ "</ac:link-body>"
                      ++ "</ac:link>"))%string
        else pure None).

(** The walk of [marked]'s parser with the installed renderer. *)
Fixpoint renderInline (token : Inline) : Run string :=
  match token with
  | Image href title text => leaf (Storage.image href title text)
  | Link href title tokens =>
      run! installed <-
        link (fun ts => call (concatRun renderInline ts)) href title tokens ;;
      match installed with
      | Some out => pure out
      | None =>
          run! body <- call (concatRun renderInline tokens) ;;
          leaf (defaultInline token body)
      end
  | Strong tokens | Em tokens | Del tokens =>
      run! body <- call (concatRun renderInline tokens) ;;
      leaf (defaultInline token body)
  | _ => leaf (defaultInline token "")
  end.

Definition parseInline (tokens : list Inline) : Run string :=
  call (concatRun renderInline tokens).

Definition parseCell (cell : TableCell) : Run string :=
  parseInline (cell_tokens cell).

Fixpoint renderBlock (token : Token) : Run string :=
  match token with
  | Code lang text => leaf (Storage.code text lang)
  | Hr => leaf Storage.hr
  | Heading _ tokens | Paragraph tokens =>
      run! body <- parseInline (orEmpty tokens) ;;
      leaf (defaultBlock token [body])
  | TextBlock _ (Some tokens) =>
      run! body <- parseInline tokens ;;
      leaf (defaultBlock token [body])
  | Blockquote tokens =>
      run! body <- call (concatRun renderBlock tokens) ;;
      leaf (defaultBlock token [body])
  | List _ _ items =>
      run! bodies <- mapRun renderItem items ;;
      leaf (defaultBlock token bodies)
  | Table header rows =>
      run! head <- mapRun parseCell header ;;
      run! body <- mapRun (mapRun parseCell) rows ;;
      leaf (defaultBlock token (head ++ List.concat body))
  | _ => leaf (defaultBlock token [])
  end
with renderItem (item : ListItem) : Run string :=
  match item with
  | list_item tokens => call (concatRun renderBlock tokens)
  end.

Definition parse (tokens : list Token) : Run string :=
  call (concatRun renderBlock tokens).

(** What a caller runs when it calls [markdownToStorageFormat]. *)
Definition markdownToStorageFormat (markdown : string) : Run string :=
  run! tokens <- lift (lexer markdown) ;;
  parse tokens.

End Renderer.

End Runtime.

Module RuntimeProps.
Import Runtime.

(** [Quiet c r n]: the computation [c] draws no identifier and does not
    look at how many were drawn; with [n] frames or more it does what
    the result [r] says, and with fewer it does the same or throws
    RangeError.  [Calm c r]: so for some [n]. *)
Definition Quiet {A : Type} (c : Run A) (r : Result A) (n : nat) : Prop :=
  forall frames,
    (n <= frames -> forall s, c frames s = (r, s))
    /\ ((forall s, c frames s = (r, s))
        \/ (forall s, c frames s = (Throw stackOverflow, s))).

Definition Calm {A : Type} (c : Run A) (r : Result A) : Prop :=
  exists n, Quiet c r n.

(** [Follows c g n]: with [n] frames or more the computation [c]
    returns what the computation [g], which knows no stack, returns,
    and draws the same identifiers; with fewer it does the same or
    throws RangeError.  [Tracks c g]: so for some [n]. *)
Definition Follows {A : Type} (c : Run A) (g : Adf.Gen A) (n : nat) : Prop :=
  forall frames s,
    (n <= frames -> c frames s = (Ok (fst (g s)), snd (g s)))
    /\ (c frames s = (Ok (fst (g s)), snd (g s))
        \/ fst (c frames s) = Throw stackOverflow).

Definition Tracks {A : Type} (c : Run A) (g : Adf.Gen A) : Prop :=
  exists n, Follows c g n.

(** A paragraph inside [k] blockquotes, one in the other: the token of
    a line that starts with [k] times ">". *)
Fixpoint nested (k : nat) (inner : Token) : Token :=
  match k with
  | O => inner
  | S less => Blockquote [nested less inner]%list
  end.

Definition quoted (k : nat) : Token :=
  nested k (Paragraph (Some [Text "a"]%list)).

End RuntimeProps.

(* ================================================================== *)
(** ** Fixtures *)
(* ================================================================== *)

(** Stand-ins for the library and the platform, used to run the two
    renderers on inputs of the repository's tests. *)
Module Fixture.
Import JsString.

(** The Markdown of the mermaid tests and the tokens that the lexer
    returns for it. *)
Definition fence : string := "```".

Definition oneDiagram : string :=
  fence ++ "mermaid" ++ nl ++ "graph TD" ++ nl ++ "    A --> B" ++ nl ++ fence.

Definition twoDiagrams : string :=
  fence ++ "mermaid" ++ nl ++ "graph TD" ++ nl ++ "A-->B" ++ nl ++ fence
  ++ nl ++ nl
  ++ fence ++ "mermaid" ++ nl ++ "graph LR" ++ nl ++ "C-->D" ++ nl ++ fence.

Definition lexer (markdown : string) : list Token :=
  if String.eqb markdown oneDiagram then
    [Code (Some "mermaid") ("graph TD" ++ nl ++ "    A --> B")]
  else if String.eqb markdown twoDiagrams then
    [Code (Some "mermaid") ("graph TD" ++ nl ++ "A-->B"); Space;
     Code (Some "mermaid") ("graph LR" ++ nl ++ "C-->D")]
  else if String.eqb markdown "![Alt text](https://example.com/image.png)" then
    [Paragraph (Some [Image "https://example.com/image.png" None "Alt text"])]
  else if String.eqb markdown ("- Item 1" ++ nl ++ "- Item 2") then
    [List false NoStart
       [list_item [TextBlock "Item 1" (Some [Text "Item 1"])];
        list_item [TextBlock "Item 2" (Some [Text "Item 2"])]]]
  else [].

(** A resolver for references that stay on the host of the base: it
    answers as the [URL] constructor does on a relative reference and on
    an absolute URL whose host is "dummy". *)
Definition sameHost (href : string) : Result string := Ok "dummy".

(** A default renderer that writes the text of a token and the output of
    its children, without any tag. *)
Definition plainInline (token : Inline) (body : string) : string :=
  match token with
  | Text value | Escape value | Tag value | Codespan value => value
  | _ => body
  end.

Definition plainBlock (token : Token) (children : list string) : string :=
  String.concat "" children.

(** The line of three thousand ">" and one letter, and two lexers for
    it: one that exhausts the call stack itself and throws, as a lexer
    does that descends once per ">", and one that returns the token
    tree, three thousand blockquotes deep. *)
Fixpoint repeated (piece : string) (count : nat) : string :=
  match count with
  | O => ""
  | S less => piece ++ repeated piece less
  end.

Definition deepQuotes : string := repeated ">" 3000 ++ " a".


Definition deepLexer (markdown : string) : Result (list Token) :=
  if String.eqb markdown deepQuotes then Ok [RuntimeProps.quoted 3000]%list
  else Ok (lexer markdown).

(** An identifier generator that counts in unary. *)
Fixpoint countingUuid (n : nat) : string :=
  match n with
  | O => "id"
  | S k => countingUuid k ++ "'"
  end.

End Fixture.

(* ================================================================== *)
(** ** Properties of the string primitives *)
(* ================================================================== *)

Module JsStringFacts.
Import JsString.


Lemma append_assoc (a b c : string) : (a ++ b) ++ c = a ++ (b ++ c).
Proof. induction a as [|x a IH]; simpl; [reflexivity | now rewrite IH]. Qed.

Lemma prefix_nil (s : string) : prefix "" s = true.
Proof. now destruct s. Qed.

Lemma prefix_append (p s : string) : prefix p (p ++ s) = true.
Proof.
  induction p as [|c p IH]; simpl.
  - apply prefix_nil.
  - destruct (ascii_dec c c) as [_|n]; [exact IH | now elim n].
Qed.

Lemma prefix_split (p s : string) :
  prefix p s = true -> exists rest, s = p ++ rest.
Proof.
  revert s; induction p as [|c p IH]; intros s H.
  - now exists s.
  - destruct s as [|d s]; simpl in H; [discriminate|].
    destruct (ascii_dec c d) as [->|_]; [|discriminate].
    destruct (IH s H) as [rest ->]. now exists rest.
Qed.


Lemma drop_append (p s : string) : drop (String.length p) (p ++ s) = s.
Proof. induction p as [|c p IH]; simpl; [now destruct s | exact IH]. Qed.

(** Passing over the rest of a match is dropping that many code units. *)
Lemma replaceAll_from_drop (pat rep : string) (n : nat) (s : string) :
  replaceAll_from pat rep n s = replaceAll pat rep (drop n s).
Proof.
  revert n; induction s as [|c s IH]; intros [|n]; try reflexivity.
  simpl. apply IH.
Qed.

(** The three equations of the left-to-right scan. *)
Lemma replaceAll_nil (pat rep : string) : replaceAll pat rep "" = "".
Proof. reflexivity. Qed.

Lemma replaceAll_match (pat rep s : string) :
  pat <> "" -> replaceAll pat rep (pat ++ s) = rep ++ replaceAll pat rep s.
Proof.
  intros Hne. destruct pat as [|c pat]; [now elim Hne|].
  unfold replaceAll at 1. change (String c pat ++ s) with (String c (pat ++ s)).
  cbn [replaceAll_from].
  change (String c (pat ++ s)) with (String c pat ++ s).
  rewrite prefix_append, replaceAll_from_drop. cbn [String.length pred].
  now rewrite drop_append.
Qed.

Lemma replaceAll_step (pat rep : string) (c : ascii) (s : string) :
  prefix pat (String c s) = false ->
  replaceAll pat rep (String c s) = String c (replaceAll pat rep s).
Proof. intros H. unfold replaceAll. cbn [replaceAll_from]. now rewrite H. Qed.

(** A pattern of one code unit: the scan is a substitution unit by unit. *)
Lemma replaceAll_unit (p : ascii) (rep : string) (c : ascii) (s : string) :
  replaceAll (String p "") rep (String c s)
  = (if Ascii.eqb c p then rep else String c "") ++ replaceAll (String p "") rep s.
Proof.
  destruct (Ascii.eqb_spec c p) as [->|Hne].
  - apply (replaceAll_match (String p "") rep s). discriminate.
  - apply replaceAll_step. simpl.
    destruct (ascii_dec p c) as [->|_]; [now elim Hne | reflexivity].
Qed.

Lemma replaceAll_unit_append (p : ascii) (rep a b : string) :
  replaceAll (String p "") rep (a ++ b)
  = replaceAll (String p "") rep a ++ replaceAll (String p "") rep b.
Proof.
  induction a as [|c a IH]; [reflexivity|].
  change (String c a ++ b) with (String c (a ++ b)).
  rewrite !replaceAll_unit, IH. now rewrite append_assoc.
Qed.

Lemma split_not_nil (sep : ascii) (s : string) : split sep s <> [].
Proof.
  induction s as [|c s IH]; simpl; [discriminate|].
  destruct (Ascii.eqb c sep); [discriminate|].
  destruct (split sep s); [now elim IH | discriminate].
Qed.

Lemma pop_some (a : list string) : a <> [] -> exists x, pop a = Some x.
Proof.
  induction a as [|x a IH]; intros H; [now elim H|].
  destruct a as [|y a]; [now exists x|].
  apply IH. discriminate.
Qed.

End JsStringFacts.

(* ================================================================== *)
(** ** Properties of the storage format renderer *)
(* ================================================================== *)

Module StorageFacts.
Import JsString JsStringFacts Storage Props.

(** *** escapeXml *)

Lemma escapeXml_append (a b : string) :
  escapeXml (a ++ b) = escapeXml a ++ escapeXml b.
Proof. unfold escapeXml, dq. now rewrite !replaceAll_unit_append. Qed.

Lemma escapeXml_unit (c : ascii) : escapeXml (String c "") = entityOf c.
Proof.
  destruct c as [b0 b1 b2 b3 b4 b5 b6 b7].
  destruct b0, b1, b2, b3, b4, b5, b6, b7; reflexivity.
Qed.

Lemma escapeXml_substitute (text : string) :
  escapeXml text = substitute entityOf text.
Proof.
  induction text as [|c text IH]; [reflexivity|].
  change (String c text) with (String c "" ++ text).
  rewrite escapeXml_append, escapeXml_unit, IH. reflexivity.
Qed.

Lemma entityOf_plain (c : ascii) :
  isReserved c = false -> entityOf c = String c "".
Proof.
  unfold isReserved, entityOf. simpl. intros H.
  repeat (apply orb_false_elim in H; destruct H as [-> H]). reflexivity.
Qed.

(** C9.  [escapeXml] replaces every ampersand by "&amp;", every "<" by
    "&lt;", every ">" by "&gt;", every double quote by "&quot;" and every
    apostrophe by "&apos;", leaves every other code unit in place, and
    does not escape the ampersand of an entity that it wrote itself
    (the ampersand is replaced first).  On a string without any of the
    five reserved characters it is the identity. *)
Theorem escapeXml_entities (text : string) :
  escapeXml text = substitute entityOf text
  /\ escapeXml "&" = "&amp;"
  /\ escapeXml "<" = "&lt;"
  /\ escapeXml ">" = "&gt;"
  /\ escapeXml dq = "&quot;"
  /\ escapeXml "'" = "&apos;"
  /\ (allUnits (fun c => negb (isReserved c)) text = true ->
      escapeXml text = text).
Proof.
  split; [apply escapeXml_substitute|].
  repeat (split; [reflexivity|]).
  rewrite escapeXml_substitute.
  induction text as [|c text IH]; [reflexivity|].
  simpl. intros H. apply andb_true_iff in H. destruct H as [Hc Ht].
  apply negb_true_iff in Hc.
  rewrite (entityOf_plain c Hc), (IH Ht). reflexivity.
Qed.

Lemma escapeXml_entities_witness :
  escapeXml "Season Highlights 2024" = "Season Highlights 2024".
Proof.
  apply (proj2 (proj2 (proj2 (proj2 (proj2 (proj2
    (escapeXml_entities "Season Highlights 2024"))))))).
  reflexivity.
Defined.

(** *** escapeCdata *)


Lemma escapeCdata_match (s : string) :
  escapeCdata ("]]>" ++ s) = "]]]]><![CDATA[>" ++ escapeCdata s.
Proof. apply replaceAll_match. discriminate. Qed.

Lemma escapeCdata_step (c : ascii) (s : string) :
  prefix "]]>" (String c s) = false ->
  escapeCdata (String c s) = String c (escapeCdata s).
Proof. apply replaceAll_step. Qed.

(** Induction along the scan for the terminator. *)
Lemma terminator_ind (P : string -> Prop) :
  P "" ->
  (forall s, P s -> P ("]]>" ++ s)) ->
  (forall c s, prefix "]]>" (String c s) = false -> P s -> P (String c s)) ->
  forall s, P s.
Proof.
  intros Hnil Hmatch Hstep s.
  assert (H : forall n s, String.length s <= n -> P s).
  { clear s. induction n as [|n IH]; intros s Hlen.
    - destruct s; [exact Hnil | simpl in Hlen; lia].
    - destruct s as [|c s]; [exact Hnil|].
      destruct (prefix "]]>" (String c s)) eqn:Hp.
      + destruct (prefix_split _ _ Hp) as [rest E]. rewrite E.
        apply Hmatch, IH.
        assert (L : String.length (String c s) = String.length ("]]>" ++ rest))
          by now rewrite E.
        simpl in L, Hlen. lia.
      + apply Hstep; [exact Hp|]. apply IH. simpl in Hlen. lia. }
  apply (H (String.length s)). lia.
Qed.




Lemma readSections_drop (inside : bool) (n : nat) (s : string) :
  readSections inside n s = readSections inside 0 (drop n s).
Proof.
  revert n; induction s as [|c s IH]; intros [|n]; try reflexivity.
  simpl. apply IH.
Qed.









End StorageFacts.

(* ================================================================== *)
(** ** Induction over token trees *)
(* ================================================================== *)

Module MarkedFacts.

Section InlineInduction.
Variable P : Inline -> Prop.
Hypothesis Hleaf : forall t, isInlineLeaf t -> P t.
Hypothesis Hlink :
  forall href title tokens, Forall P tokens -> P (Link href title tokens).
Hypothesis Hstrong : forall tokens, Forall P tokens -> P (Strong tokens).
Hypothesis Hem : forall tokens, Forall P tokens -> P (Em tokens).
Hypothesis Hdel : forall tokens, Forall P tokens -> P (Del tokens).

Fixpoint Inline_induction (t : Inline) : P t :=
  let all :=
    fix all (l : list Inline) : Forall P l :=
      match l with
      | [] => Forall_nil P
      | x :: rest => Forall_cons x (Inline_induction x) (all rest)
      end in
  match t with
  | Link href title tokens => Hlink href title tokens (all tokens)
  | Strong tokens => Hstrong tokens (all tokens)
  | Em tokens => Hem tokens (all tokens)
  | Del tokens => Hdel tokens (all tokens)
  | Text v => Hleaf (Text v) I
  | Escape v => Hleaf (Escape v) I
  | Tag v => Hleaf (Tag v) I
  | Image h ti v => Hleaf (Image h ti v) I
  | Codespan v => Hleaf (Codespan v) I
  | Br => Hleaf Br I
  | GenericInline ty v => Hleaf (GenericInline ty v) I
  end.
End InlineInduction.

Section TokenInduction.
Variable P : Token -> Prop.
Variable Q : ListItem -> Prop.
Hypothesis Hleaf : forall t, isBlockLeaf t -> P t.
Hypothesis Hquote : forall tokens, Forall P tokens -> P (Blockquote tokens).
Hypothesis Hlist :
  forall ordered start items, Forall Q items -> P (List ordered start items).
Hypothesis Hitem : forall tokens, Forall P tokens -> Q (list_item tokens).

Fixpoint Token_induction (t : Token) : P t :=
  match t with
  | Blockquote tokens =>
      Hquote tokens
        ((fix all (l : list Token) : Forall P l :=
            match l with
            | [] => Forall_nil P
            | x :: rest => Forall_cons x (Token_induction x) (all rest)
            end) tokens)
  | List ordered start items =>
      Hlist ordered start items
        ((fix all (l : list ListItem) : Forall Q l :=
            match l with
            | [] => Forall_nil Q
            | x :: rest => Forall_cons x (ListItem_induction x) (all rest)
            end) items)
  | Space => Hleaf Space I
  | Code l v => Hleaf (Code l v) I
  | Heading d ts => Hleaf (Heading d ts) I
  | Table h r => Hleaf (Table h r) I
  | Hr => Hleaf Hr I
  | HTML v => Hleaf (HTML v) I
  | Def => Hleaf Def I
  | Paragraph ts => Hleaf (Paragraph ts) I
  | TextBlock v ts => Hleaf (TextBlock v ts) I
  | Generic ty => Hleaf (Generic ty) I
  end
with ListItem_induction (i : ListItem) : Q i :=
  match i with
  | list_item tokens =>
      Hitem tokens
        ((fix all (l : list Token) : Forall P l :=
            match l with
            | [] => Forall_nil P
            | x :: rest => Forall_cons x (Token_induction x) (all rest)
            end) tokens)
  end.

Lemma Tokens_induction (tokens : list Token) : Forall P tokens.
Proof. induction tokens; constructor; [apply Token_induction | assumption]. Qed.
End TokenInduction.

Lemma concatMap_total {A : Type} (f : A -> Result string) (a : list A) :
  Forall (fun x => exists out, f x = Ok out) a ->
  exists out, concatMap f a = Ok out.
Proof.
  induction 1 as [|x rest [out Hx] _ [more IH]]; simpl.
  - now exists "".
  - rewrite Hx, IH. simpl. now eexists.
Qed.

Lemma mapResult_total {A B : Type} (f : A -> Result B) (a : list A) :
  Forall (fun x => exists out, f x = Ok out) a ->
  exists out, mapResult f a = Ok out.
Proof.
  induction 1 as [|x rest [out Hx] _ [more IH]]; simpl.
  - now eexists.
  - rewrite Hx, IH. simpl. now eexists.
Qed.

Lemma concatMap_app {A : Type} (f : A -> Result string) (a b : list A)
    (x y : string) :
  concatMap f a = Ok x -> concatMap f b = Ok y ->
  concatMap f (a ++ b)%list = Ok (x ++ y).
Proof.
  revert x; induction a as [|t a IH]; intros x Ha Hb; simpl in *.
  - injection Ha as <-. exact Hb.
  - destruct (f t) as [o|e]; [|discriminate]. simpl in *.
    destruct (concatMap f a) as [m|e]; [|discriminate]. simpl in *.
    injection Ha as <-. rewrite (IH m eq_refl Hb). simpl.
    now rewrite JsStringFacts.append_assoc.
Qed.

End MarkedFacts.

(* ================================================================== *)
(** ** Properties of the installed renderer methods *)
(* ================================================================== *)

Module RendererFacts.
Import JsString JsStringFacts Storage Props MarkedFacts.

(** *** The test of the href and the page title *)

Lemma length_append (a b : string) :
  String.length (a ++ b) = String.length a + String.length b.
Proof. induction a as [|c a IH]; simpl; [reflexivity | now rewrite IH]. Qed.

Lemma fragmentToEnd_isFragment (rest : string) :
  fragmentToEnd rest = true <-> isFragment rest.
Proof.
  unfold isFragment. destruct rest as [|c f]; simpl.
  - split; [now left | reflexivity].
  - split.
    + intros H. apply andb_true_iff in H. destruct H as [Hc Hf].
      apply Ascii.eqb_eq in Hc. subst c. right. now exists f.
    + intros [H|(g & E & Hg)]; [discriminate|].
      injection E as -> ->. exact Hg.
Qed.

Lemma testMdSuffix_found (before rest : string) :
  fragmentToEnd rest = true -> testMdSuffix (before ++ ".md" ++ rest) = true.
Proof.
  intros H. induction before as [|c before IH].
  - destruct rest; simpl in *; now rewrite ?H.
  - change (String c before ++ ".md" ++ rest)
      with (String c (before ++ ".md" ++ rest)).
    cbn [testMdSuffix]. rewrite IH. apply orb_true_r.
Qed.

Lemma testMdSuffix_endsInMd (href : string) :
  testMdSuffix href = true <-> endsInMd href.
Proof.
  split.
  - induction href as [|c href IH]; intros H; cbn [testMdSuffix] in H.
    + rewrite orb_false_r in H. apply andb_true_iff in H. now destruct H.
    + apply orb_true_iff in H. destruct H as [H|H].
      * apply andb_true_iff in H. destruct H as [Hp Hf].
        destruct (prefix_split _ _ Hp) as [rest E]. rewrite E in Hf.
        change 3 with (String.length ".md") in Hf. rewrite drop_append in Hf.
        exists "", rest. split; [exact E | now apply fragmentToEnd_isFragment].
      * destruct (IH H) as (before & rest & E & Hf).
        exists (String c before), rest. split; [now rewrite E | exact Hf].
  - intros (before & rest & -> & Hf).
    apply testMdSuffix_found. now apply fragmentToEnd_isFragment.
Qed.

Lemma hasUnit_append (c : ascii) (a b : string) :
  hasUnit c (a ++ b) = (hasUnit c a || hasUnit c b)%bool.
Proof.
  unfold hasUnit. induction a as [|x a IH]; simpl; [reflexivity|].
  destruct (Ascii.eqb x c); simpl; [reflexivity | exact IH].
Qed.

Lemma split_none (sep : ascii) (s : string) :
  hasUnit sep s = false -> split sep s = [s].
Proof.
  unfold hasUnit. induction s as [|c s IH]; simpl; [reflexivity|].
  destruct (Ascii.eqb c sep); simpl; [discriminate|].
  intros H. now rewrite (IH H).
Qed.

Lemma first_split (sep : ascii) (base rest : string) :
  hasUnit sep base = false ->
  rest = "" \/ (exists f, rest = String sep f) ->
  first (split sep (base ++ rest)) = Some base.
Proof.
  unfold hasUnit. induction base as [|c base IH]; simpl; intros Hb Hr.
  - destruct Hr as [->|[f ->]]; simpl; [reflexivity|].
    now rewrite Ascii.eqb_refl.
  - destruct (Ascii.eqb c sep); simpl in Hb; [discriminate|].
    specialize (IH Hb Hr).
    destruct (split sep (base ++ rest)) as [|piece pieces]; [discriminate|].
    simpl in IH. injection IH as ->. reflexivity.
Qed.

Lemma pop_cons (x : string) (a : list string) :
  a <> [] -> pop (x :: a) = pop a.
Proof. destruct a; [intros H; now elim H | reflexivity]. Qed.

Lemma split_after_separator (sep : ascii) (a b : string) :
  exists piece pieces,
    split sep (a ++ String sep b) = piece :: pieces
    /\ pieces <> []
    /\ pop pieces = pop (split sep b).
Proof.
  induction a as [|c a (piece & pieces & E & Hne & Hp)]; simpl.
  - rewrite Ascii.eqb_refl. exists "", (split sep b).
    repeat split. apply split_not_nil.
  - rewrite E. destruct (Ascii.eqb c sep).
    + exists "", (piece :: pieces). repeat split; [discriminate|].
      now rewrite pop_cons.
    + exists (String c piece), pieces. now repeat split.
Qed.

Lemma pop_split (dir file : string) :
  dir = "" \/ (exists d, dir = d ++ "/") ->
  hasUnit "/" file = false ->
  pop (split "/" (dir ++ file)) = Some file.
Proof.
  intros [->|[d ->]] Hf.
  - simpl. now rewrite split_none.
  - rewrite append_assoc. change ("/" ++ file) with (String "/" file).
    destruct (split_after_separator "/" d file) as (piece & pieces & E & Hne & Hp).
    rewrite E, pop_cons, Hp by exact Hne. now rewrite split_none.
Qed.

Lemma removeAtEnd_suffix (suf file : string) :
  removeAtEnd suf (file ++ suf) = file.
Proof.
  induction file as [|c file IH].
  - destruct suf; simpl; [reflexivity|]. now rewrite Ascii.eqb_refl, String.eqb_refl.
  - change (String c file ++ suf) with (String c (file ++ suf)).
    cbn [removeAtEnd]. destruct (String.eqb_spec (String c (file ++ suf)) suf) as [E|_].
    + apply (f_equal String.length) in E. simpl in E.
      rewrite length_append in E. lia.
    + now rewrite IH.
Qed.

Lemma mdHrefToPageTitle_total (href : string) :
  exists pageTitle, mdHrefToPageTitle href = Ok pageTitle.
Proof.
  unfold mdHrefToPageTitle.
  destruct (split "#" href) as [|withoutFragment l] eqn:E.
  - now elim (split_not_nil "#" href).
  - simpl. destruct (pop_some (split "/" withoutFragment)) as [file ->].
    + apply split_not_nil.
    + now eexists.
Qed.

Lemma mdHrefToPageTitle_path (dir file rest : string) :
  isMdPath dir file rest ->
  mdHrefToPageTitle (dir ++ file ++ ".md" ++ rest) = Ok file.
Proof.
  intros (Hdir & Hd & Hf & Hslash & Hrest). unfold mdHrefToPageTitle.
  replace (dir ++ file ++ ".md" ++ rest) with ((dir ++ file ++ ".md") ++ rest)
    by now rewrite !append_assoc.
  rewrite first_split.
  - replace (dir ++ file ++ ".md") with (dir ++ (file ++ ".md")) by reflexivity.
    rewrite pop_split; [| exact Hdir |].
    + now rewrite removeAtEnd_suffix.
    + now rewrite hasUnit_append, Hslash.
  - now rewrite !hasUnit_append, Hd, Hf.
  - destruct Hrest as [->|(f & -> & _)]; [now left | right; now exists f].
Qed.

Section Renderer.
Variable new_URL_host : string -> Result string.
Variable lexer : string -> list Token.
Variable defaultInline : Inline -> string -> string.
Variable defaultBlock : Token -> list string -> string.

Local Abbreviation isMarkdownFileLink := (Storage.isMarkdownFileLink new_URL_host).
Local Abbreviation link := (Storage.link new_URL_host).
Local Abbreviation renderInline := (Storage.renderInline new_URL_host defaultInline).
Local Abbreviation parseInline := (Storage.parseInline new_URL_host defaultInline).
Local Abbreviation renderBlock :=
  (Storage.renderBlock new_URL_host defaultInline defaultBlock).
Local Abbreviation renderItem :=
  (Storage.renderItem new_URL_host defaultInline defaultBlock).
Local Abbreviation parse := (Storage.parse new_URL_host defaultInline defaultBlock).
Local Abbreviation markdownToStorageFormat :=
  (Storage.markdownToStorageFormat new_URL_host lexer defaultInline defaultBlock).

(** *** No call throws *)

Lemma link_total (inner : list Inline -> Result string) href title tokens :
  (exists body, inner tokens = Ok body) ->
  exists out, link inner href title tokens = Ok out.
Proof.
  intros [body Hb]. unfold Storage.link.
  destruct (negb (isEmpty href) && isMarkdownFileLink href)%bool; [|now eexists].
  destruct (mdHrefToPageTitle_total href) as [pageTitle ->]. simpl.
  rewrite Hb. simpl. now eexists.
Qed.

Lemma renderInline_total (token : Inline) :
  exists out, renderInline token = Ok out.
Proof.
  induction token as [t Ht | href title tokens IH | tokens IH | tokens IH
                      | tokens IH] using Inline_induction.
  - destruct t; try contradiction; simpl; now eexists.
  - pose proof (concatMap_total _ _ IH) as Hb.
    destruct (link_total _ href title tokens Hb) as [installed Hl].
    cbn [Storage.renderInline]. rewrite Hl. simpl.
    destruct installed; [now eexists|].
    destruct Hb as [body ->]. simpl. now eexists.
  - destruct (concatMap_total _ _ IH) as [body Hb].
    cbn [Storage.renderInline]. rewrite Hb. simpl. now eexists.
  - destruct (concatMap_total _ _ IH) as [body Hb].
    cbn [Storage.renderInline]. rewrite Hb. simpl. now eexists.
  - destruct (concatMap_total _ _ IH) as [body Hb].
    cbn [Storage.renderInline]. rewrite Hb. simpl. now eexists.
Qed.

Lemma parseInline_total (tokens : list Inline) :
  exists out, parseInline tokens = Ok out.
Proof.
  apply concatMap_total, Forall_forall. intros t _. apply renderInline_total.
Qed.

Lemma parseCells_total (cells : list TableCell) :
  exists out, mapResult (Storage.parseCell new_URL_host defaultInline) cells = Ok out.
Proof.
  apply mapResult_total, Forall_forall. intros c _. apply parseInline_total.
Qed.

Lemma renderBlock_list ordered start items :
  renderBlock (List ordered start items)
  = try! bodies <- mapResult renderItem items ;;
    Ok (defaultBlock (List ordered start items) bodies).
Proof. reflexivity. Qed.

Lemma renderBlock_total (token : Token) :
  exists out, renderBlock token = Ok out.
Proof.
  induction token as [t Ht | tokens IH | ordered start items IH | tokens IH]
    using Token_induction
    with (Q := fun item => exists out, renderItem item = Ok out).
  - destruct t; try contradiction; cbn [Storage.renderBlock];
      try (now eexists).
    + destruct (parseInline_total (orEmpty tokens)) as [body ->].
      simpl. now eexists.
    + destruct (parseCells_total header) as [head ->]. simpl.
      destruct (mapResult_total
                  (mapResult (Storage.parseCell new_URL_host defaultInline)) rows)
        as [body ->].
      * apply Forall_forall. intros r _. apply parseCells_total.
      * simpl. now eexists.
    + destruct (parseInline_total (orEmpty tokens)) as [body ->].
      simpl. now eexists.
    + destruct tokens as [tokens|]; [|now eexists].
      destruct (parseInline_total tokens) as [body ->]. simpl. now eexists.
  - destruct (concatMap_total _ _ IH) as [body Hb].
    cbn [Storage.renderBlock]. rewrite Hb. simpl. now eexists.
  - destruct (mapResult_total _ _ IH) as [bodies Hb].
    rewrite renderBlock_list, Hb. simpl. now eexists.
  - cbn [Storage.renderItem]. now apply concatMap_total.
Qed.

Lemma parse_total (tokens : list Token) : exists out, parse tokens = Ok out.
Proof.
  apply concatMap_total, Forall_forall. intros t _. apply renderBlock_total.
Qed.

Lemma markdownToStorageFormat_total (markdown : string) :
  exists out, markdownToStorageFormat markdown = Ok out.
Proof. apply parse_total. Qed.

(** *** Links *)

Lemma isMarkdownFileLink_local href :
  (forall h, new_URL_host href = Ok h -> h = "dummy") ->
  isMarkdownFileLink href = testMdSuffix href.
Proof.
  intros H. unfold Storage.isMarkdownFileLink.
  destruct (new_URL_host href) as [host|e]; [|reflexivity].
  now rewrite (H host eq_refl).
Qed.

Lemma isMarkdownFileLink_foreign href h :
  new_URL_host href = Ok h -> h <> "dummy" -> isMarkdownFileLink href = false.
Proof.
  intros E Hh. unfold Storage.isMarkdownFileLink. rewrite E.
  apply String.eqb_neq in Hh. now rewrite Hh.
Qed.

Lemma isMarkdownFileLink_endsInMd href :
  isMarkdownFileLink href = true -> endsInMd href.
Proof.
  unfold Storage.isMarkdownFileLink. intros H. apply testMdSuffix_endsInMd.
  destruct (new_URL_host href) as [host|e]; [|exact H].
  destruct (negb (host =? "dummy")); [discriminate | exact H].
Qed.

Lemma pageLink_eq pageTitle title body :
  "<ac:link"
  ++ match title with
     | Some t => if isEmpty t then "" else " ac:title=" ++ dq ++ escapeXml t ++ dq
     | None => ""
     end
  ++ ">" ++ "<ri:page ri:content-title=" ++ dq ++ escapeXml pageTitle ++ dq ++ " />"
  ++ "<ac:link-body>" ++ body ++ "</ac:link-body>" ++ "</ac:link>"
  = pageLink pageTitle title body.
Proof.
  unfold pageLink, truthy, dq.
  destruct title as [t|]; [destruct (isEmpty t)|]; simpl negb; cbv iota;
    rewrite ?append_assoc; cbn [append]; reflexivity.
Qed.

Lemma renderInline_link href title tokens :
  renderInline (Link href title tokens)
  = try! installed <- link parseInline href title tokens ;;
    match installed with
    | Some out => Ok out
    | None =>
        try! body <- parseInline tokens ;;
        Ok (defaultInline (Link href title tokens) body)
    end.
Proof. reflexivity. Qed.

(** The link method on the hrefs it is written for.  A link whose
    href is a path with directory
    components, a file name ending in ".md" and an optional fragment,
    and which does not resolve to a host other than that of the base,
    renders as the cross-document reference macro: the page title is
    the file name without directories, extension and fragment, the
    title attribute is there only when the link has a title, and the
    body is the rendered inline content.  A link whose href does not
    end in ".md" (optionally followed by a fragment), or resolves to a
    host other than "dummy", goes to the default link renderer; so does
    every link to https://example.com. *)
Theorem link_md_reference href title tokens :
  exists body,
    parseInline tokens = Ok body
    /\ (forall dir file rest,
          href = dir ++ file ++ ".md" ++ rest ->
          isMdPath dir file rest ->
          (forall h, new_URL_host href = Ok h -> h = "dummy") ->
          renderInline (Link href title tokens)
          = Ok (pageLink file title body))
    /\ (~ endsInMd href \/ (exists h, new_URL_host href = Ok h /\ h <> "dummy") ->
        renderInline (Link href title tokens)
        = Ok (defaultInline (Link href title tokens) body))
    /\ renderInline (Link "https://example.com" title tokens)
       = Ok (defaultInline (Link "https://example.com" title tokens) body).
Proof.
  destruct (parseInline_total tokens) as [body Hb]. exists body.
  split; [exact Hb|]. split; [|split].
  - intros dir file rest -> Hpath Hlocal.
    rewrite renderInline_link. unfold Storage.link.
    rewrite (isMarkdownFileLink_local _ Hlocal).
    replace (dir ++ file ++ ".md" ++ rest) with ((dir ++ file) ++ ".md" ++ rest)
      by now rewrite !append_assoc.
    rewrite testMdSuffix_found
      by (apply fragmentToEnd_isFragment; apply Hpath).
    replace (isEmpty ((dir ++ file) ++ ".md" ++ rest)) with false
      by (destruct dir, file; reflexivity).
    replace ((dir ++ file) ++ ".md" ++ rest) with (dir ++ file ++ ".md" ++ rest)
      by now rewrite !append_assoc.
    cbn [negb andb]. rewrite (mdHrefToPageTitle_path _ _ _ Hpath).
    cbn [rbind]. rewrite Hb. cbn [rbind]. now rewrite pageLink_eq.
  - intros H. rewrite renderInline_link. unfold Storage.link.
    replace (isMarkdownFileLink href) with false.
    + rewrite andb_false_r. cbn [rbind]. rewrite Hb. reflexivity.
    + destruct H as [Hno|(h & E & Hh)].
      * destruct (isMarkdownFileLink href) eqn:Hm; [|reflexivity].
        now elim Hno; apply isMarkdownFileLink_endsInMd.
      * symmetry. now apply (isMarkdownFileLink_foreign _ h).
  - rewrite renderInline_link. unfold Storage.link.
    replace (isMarkdownFileLink "https://example.com") with false.
    + cbn [rbind isEmpty negb andb]. rewrite Hb. reflexivity.
    + unfold Storage.isMarkdownFileLink.
      destruct (new_URL_host "https://example.com") as [host|e]; [|reflexivity].
      now destruct (negb (host =? "dummy")).
Qed.

(** *** Mermaid blocks *)

Lemma code_mermaid text : code text (Some "mermaid") = mermaidCodeMacro text.
Proof.
  unfold code, mermaidCodeMacro, dq, nl. cbn [isEmpty].
  change (escapeXml "mermaid") with "mermaid".
  rewrite ?append_assoc. cbn [append]. reflexivity.
Qed.

(** C2, as amended.  A fenced code block tagged mermaid renders as the
    ordinary code macro with the language parameter "mermaid" and the
    escaped text in a CDATA body, wherever the block stands; at the top
    level the macro is followed at once by the rendering of the next
    token.  No extension macro is added and no identifier is drawn. *)
Theorem mermaid_block_is_code_macro markdown before text after :
  lexer markdown = (before ++ [Code (Some "mermaid") text] ++ after)%list ->
  renderBlock (Code (Some "mermaid") text) = Ok (mermaidCodeMacro text)
  /\ exists a b,
       parse before = Ok a
       /\ parse after = Ok b
       /\ markdownToStorageFormat markdown = Ok (a ++ mermaidCodeMacro text ++ b).
Proof.
  intros E. split.
  - cbn [Storage.renderBlock]. now rewrite code_mermaid.
  - destruct (parse_total before) as [a Ha], (parse_total after) as [b Hb].
    exists a, b. repeat split; [exact Ha | exact Hb |].
    unfold Storage.markdownToStorageFormat. rewrite E.
    apply concatMap_app; [exact Ha|].
    change ([Code (Some "mermaid") text] ++ after)%list
      with (Code (Some "mermaid") text :: after).
    cbn [concatMap Storage.renderBlock rbind].
    fold (Storage.parse new_URL_host defaultInline defaultBlock after).
    rewrite Hb. cbn [rbind]. now rewrite code_mermaid.
Qed.

End Renderer.

Lemma link_md_reference_witness :
  Storage.renderInline Fixture.sameHost Fixture.plainInline
    (Link "docs/sample-short.md#section" (Some "Highlights")
       [Text "Season Highlights"])
  = Ok (pageLink "sample-short" (Some "Highlights") "Season Highlights").
Proof.
  destruct (link_md_reference Fixture.sameHost Fixture.plainInline
              "docs/sample-short.md#section" (Some "Highlights")
              [Text "Season Highlights"]) as (body & Hb & Hmd & _).
  injection Hb as <-.
  apply (Hmd "docs/" "sample-short" "#section" eq_refl).
  - repeat split; try reflexivity.
    + right. now exists "docs".
    + right. now exists "section".
  - intros h E. now injection E as <-.
Defined.

(** C4.  The claim holds of the hrefs above, and the code breaks it
    on an absolute URL whose host is the host of the base that
    [isMarkdownFileLink] resolves against: the guard compares the host
    with "dummy", so [http://dummy/guide.md] passes for a relative link
    to a Markdown file, and the link renders as the cross-document
    reference macro to the page "guide", not as what the default link
    renderer returns. *)
Theorem link_on_sentinel_host :
  Storage.isMarkdownFileLink Fixture.sameHost "http://dummy/guide.md" = true
  /\ Storage.renderInline Fixture.sameHost Fixture.plainInline
       (Link "http://dummy/guide.md" None [Text "Guide"])
     = Ok (pageLink "guide" None "Guide")
  /\ Storage.renderInline Fixture.sameHost Fixture.plainInline
       (Link "http://dummy/guide.md" None [Text "Guide"])
     <> Ok (Fixture.plainInline
              (Link "http://dummy/guide.md" None [Text "Guide"]) "Guide").
Proof. split; [reflexivity|]. split; [reflexivity | discriminate]. Qed.

Lemma mermaid_block_is_code_macro_witness :
  Storage.markdownToStorageFormat Fixture.sameHost Fixture.lexer
    Fixture.plainInline Fixture.plainBlock Fixture.oneDiagram
  = Ok (mermaidCodeMacro ("graph TD" ++ nl ++ "    A --> B")).
Proof.
  destruct (mermaid_block_is_code_macro Fixture.sameHost Fixture.lexer
              Fixture.plainInline Fixture.plainBlock Fixture.oneDiagram
              [] ("graph TD" ++ nl ++ "    A --> B") [] eq_refl)
    as (_ & a & b & Ha & Hb & H).
  injection Ha as <-. injection Hb as <-.
  rewrite H. reflexivity.
Defined.

(** The claim C2 says that the storage output of a mermaid block has an
    extension macro with the extension key right after the code macro.
    On the Markdown of the mermaid test the output is the code macro
    and nothing else, and the key does not occur in it. *)
Lemma storage_mermaid_counterexample :
  Storage.markdownToStorageFormat Fixture.sameHost Fixture.lexer
    Fixture.plainInline Fixture.plainBlock Fixture.oneDiagram
  = Ok (mermaidCodeMacro ("graph TD" ++ nl ++ "    A --> B"))
  /\ contains Adf.MERMAID_EXTENSION_KEY
       (mermaidCodeMacro ("graph TD" ++ nl ++ "    A --> B")) = false
  /\ contains "extension"
       (mermaidCodeMacro ("graph TD" ++ nl ++ "    A --> B")) = false.
Proof. repeat split; vm_compute; reflexivity. Qed.

End RendererFacts.

(* ================================================================== *)
(** ** Properties of the ADF renderer *)
(* ================================================================== *)

Module AdfFacts.
Import JsString Adf AdfProps MarkedFacts.
Local Open Scope list_scope.

(** *** Running a computation *)

Lemma bind_run {A B : Type} (c : Gen A) (k : A -> Gen B) (s : nat) :
  bind c k s = k (fst (c s)) (snd (c s)).
Proof. unfold bind. now destruct (c s). Qed.

Lemma pushAll_cons {A B : Type} (f : A -> Gen (list B)) x rest s :
  pushAll f (x :: rest) s
  = (fst (f x s) ++ fst (pushAll f rest (snd (f x s))),
     snd (pushAll f rest (snd (f x s)))).
Proof. cbn [pushAll]. now rewrite !bind_run. Qed.

Lemma mapGen_cons {A B : Type} (f : A -> Gen B) x rest s :
  mapGen f (x :: rest) s
  = (fst (f x s) :: fst (mapGen f rest (snd (f x s))),
     snd (mapGen f rest (snd (f x s)))).
Proof. cbn [mapGen]. now rewrite !bind_run. Qed.

(** *** White space *)



(** *** Image-only paragraphs *)




Lemma convertImageToMediaSingle_spec href alt :
  convertImageToMediaSingle href alt = mediaSingleOf (href, alt).
Proof. unfold convertImageToMediaSingle, mediaSingleOf. now destruct (isEmpty alt). Qed.

Lemma mediaSingles_spec (tokens : list Inline) :
  mediaSingles tokens = map mediaSingleOf (imagesOf tokens).
Proof.
  induction tokens as [|t rest IH]; [reflexivity|].
  destruct t; simpl; try exact IH.
  now rewrite IH, convertImageToMediaSingle_spec.
Qed.

Lemma imagesOf_length (tokens : list Inline) :
  length (imagesOf tokens) = length (filter isImage tokens).
Proof.
  induction tokens as [|t rest IH]; [reflexivity|].
  destruct t; simpl; try exact IH. now rewrite IH.
Qed.



(** *** The empty document *)

Section Document.
Variable uuid : nat -> string.
Variable lexer : string -> list Token.

Lemma markdownToAdf_run markdown s :
  markdownToAdf uuid lexer markdown s
  = ({| doc_type := "doc";
        doc_content :=
          match fst (convertBlockTokens uuid (lexer markdown) s) with
          | [] => [paragraph []]
          | _ => fst (convertBlockTokens uuid (lexer markdown) s)
          end;
        doc_version := 1 |},
     snd (convertBlockTokens uuid (lexer markdown) s)).
Proof. unfold markdownToAdf. now rewrite bind_run. Qed.

(** C6.  When the conversion of the blocks yields no node, the document
    is the fallback document: type "doc", version 1 and one paragraph
    with empty content.  This is so for the empty string, for which the
    lexer returns no token; and the content of a document is never
    empty. *)
Theorem empty_document_fallback markdown s :
  (fst (convertBlockTokens uuid (lexer markdown) s) = [] ->
   fst (markdownToAdf uuid lexer markdown s) = emptyDocument)
  /\ (lexer "" = [] ->
      markdownToAdf uuid lexer "" s = (emptyDocument, s))
  /\ doc_content (fst (markdownToAdf uuid lexer markdown s)) <> [].
Proof.
  split; [|split].
  - intros H. rewrite markdownToAdf_run. cbn [fst]. now rewrite H.
  - intros H. rewrite markdownToAdf_run. now rewrite H.
  - rewrite markdownToAdf_run. cbn [fst doc_content].
    destruct (fst (convertBlockTokens uuid (lexer markdown) s)); discriminate.
Qed.

End Document.

Lemma empty_document_fallback_witness :
  markdownToAdf Fixture.countingUuid Fixture.lexer "" 0 = (emptyDocument, 0).
Proof.
  apply (empty_document_fallback Fixture.countingUuid Fixture.lexer "" 0).
  reflexivity.
Defined.

(** *** Nodes and their descendants *)

Section NodeInduction.
Variable P : AdfNode -> Prop.
Hypothesis Hleaf : forall ty a tx mk, P (node ty a None tx mk).
Hypothesis Hnode :
  forall ty a c tx mk, Forall P c -> P (node ty a (Some c) tx mk).

Fixpoint AdfNode_induction (n : AdfNode) : P n :=
  match n with
  | node ty a (Some c) tx mk =>
      Hnode ty a c tx mk
        ((fix all (l : list AdfNode) : Forall P l :=
            match l with
            | [] => Forall_nil P
            | x :: rest => Forall_cons x (AdfNode_induction x) (all rest)
            end) c)
  | node ty a None tx mk => Hleaf ty a tx mk
  end.
End NodeInduction.

Lemma forallb_flat_map {A B : Type} (p : B -> bool) (f : A -> list B) (l : list A) :
  forallb p (flat_map f l) = forallb (fun x => forallb p (f x)) l.
Proof.
  induction l as [|x l IH]; [reflexivity|].
  simpl. now rewrite forallb_app, IH.
Qed.

Lemma forallb_map_all {A B : Type} (p : B -> bool) (f : A -> B) (l : list A) :
  (forall x, p (f x) = true) -> forallb p (map f l) = true.
Proof. intros H. induction l as [|x l IH]; [reflexivity|]. simpl. now rewrite H. Qed.

Lemma forallb_ext_Forall {A : Type} (f g : A -> bool) (l : list A) :
  Forall (fun x => f x = g x) l -> forallb f l = forallb g l.
Proof. induction 1 as [|x l E _ IH]; [reflexivity|]. simpl. now rewrite E, IH. Qed.

Lemma forallb_weaken {A : Type} (f g : A -> bool) (l : list A) :
  (forall x, f x = true -> g x = true) ->
  forallb f l = true -> forallb g l = true.
Proof.
  intros H. rewrite !forallb_forall. intros Hf x Hx. apply H, Hf, Hx.
Qed.

Lemma everyNode_subnodes (p : AdfNode -> bool) (n : AdfNode) :
  everyNode p n = forallb p (subnodes n).
Proof.
  induction n as [ty a tx mk | ty a c tx mk IH] using AdfNode_induction.
  - simpl. now rewrite andb_true_r.
  - cbn [everyNode subnodes forallb]. f_equal.
    rewrite forallb_flat_map. now apply forallb_ext_Forall.
Qed.

Lemma everyNode_node (p : AdfNode -> bool) ty a c tx mk :
  everyNode p (node ty a (Some c) tx mk)
  = p (node ty a (Some c) tx mk) && forallb (everyNode p) c.
Proof. reflexivity. Qed.

Lemma everyNode_weaken (p q : AdfNode -> bool) (n : AdfNode) :
  (forall m, p m = true -> q m = true) ->
  everyNode p n = true -> everyNode q n = true.
Proof. rewrite !everyNode_subnodes. apply forallb_weaken. Qed.

Lemma everyNode_here (p : AdfNode -> bool) (n : AdfNode) :
  everyNode p n = true -> p n = true.
Proof. destruct n as [ty a [c|] tx mk]; simpl; intros H;
         apply andb_true_iff in H; apply H. Qed.

(** *** Siblings *)

Lemma adjacent_app (b : bool) (l1 l2 : list AdfNode) :
  adjacent b l1 = true -> adjacent false l2 = true ->
  adjacent b (l1 ++ l2) = true.
Proof.
  revert b; induction l1 as [|n l1 IH]; intros b H1 H2; simpl in *.
  - destruct b; [discriminate | exact H2].
  - apply andb_true_iff in H1. destruct H1 as [-> H1]. now apply IH.
Qed.

Lemma adjacent_calm (l : list AdfNode) :
  forallb calm l = true -> adjacent false l = true.
Proof.
  induction l as [|n l IH]; [reflexivity|]. simpl. intros H.
  apply andb_true_iff in H. destruct H as [Hn Hl].
  unfold calm in Hn. apply andb_true_iff in Hn. destruct Hn as [He Hm].
  apply negb_true_iff in He, Hm. rewrite He, Hm. now apply IH.
Qed.

(** What [adjacent] says, position by position. *)
Lemma adjacent_positions (b : bool) (l : list AdfNode) :
  adjacent b l = true ->
  (forall e, nth_error l 0 = Some e -> isExtension e = b)
  /\ (forall i p, nth_error l i = Some p -> isMermaidCodeBlock p = true ->
       exists e, nth_error l (S i) = Some e /\ isExtension e = true)
  /\ (forall i p e, nth_error l i = Some p -> nth_error l (S i) = Some e ->
       isExtension e = true -> isMermaidCodeBlock p = true).
Proof.
  revert b; induction l as [|n l IH]; intros b H; simpl in H.
  - repeat split; intros; try discriminate; destruct i; discriminate.
  - apply andb_true_iff in H. destruct H as [Hn Hl].
    apply Bool.eqb_prop in Hn. destruct (IH _ Hl) as (H0 & Hfwd & Hbwd).
    split; [|split].
    + intros e E. now injection E as <-.
    + intros [|i] p E Hp.
      * injection E as <-. cbn [nth_error].
        destruct l as [|e l]; [simpl in Hl; now rewrite Hp in Hl|].
        exists e. split; [reflexivity|]. rewrite (H0 e eq_refl). exact Hp.
      * apply (Hfwd i p E Hp).
    + intros [|i] p e E1 E2 He.
      * injection E1 as <-. cbn [nth_error] in E2.
        now rewrite <- (H0 e E2).
      * apply (Hbwd i p e E1 E2 He).
Qed.

(** *** Nodes that hold no extension and no list item *)

Lemma quiet_leaf ty a tx mk :
  (ty =? "extension") = false -> (ty =? "codeBlock") = false ->
  (ty =? "listItem") = false ->
  everyNode quiet (node ty a None tx mk) = true.
Proof.
  intros He Hc Hl. cbn. unfold quiet, sound, placed, filled, calm,
    isListItem, isExtension, isMermaidCodeBlock. cbn. now rewrite He, Hc, Hl.
Qed.

Lemma quiet_container ty a c tx mk :
  (ty =? "extension") = false -> (ty =? "codeBlock") = false ->
  (ty =? "listItem") = false ->
  forallb (everyNode quiet) c = true ->
  everyNode quiet (node ty a (Some c) tx mk) = true.
Proof.
  intros He Hc Hl H. cbn [everyNode]. rewrite H, andb_true_r.
  unfold quiet, sound, placed, filled, calm, isListItem, isExtension,
    isMermaidCodeBlock. cbn. rewrite He, Hc, Hl. cbn.
  rewrite !andb_true_r. apply adjacent_calm.
  revert H. apply forallb_weaken. intros m Hm.
  apply everyNode_here in Hm. unfold quiet in Hm.
  apply andb_true_iff in Hm. apply Hm.
Qed.

Lemma inline_quiet (n : AdfNode) :
  isInlineNode n = true -> everyNode quiet n = true.
Proof.
  destruct n as [ty a [c|] tx mk]; unfold isInlineNode; cbn;
    rewrite ?andb_false_r; [discriminate|].
  rewrite andb_true_r. intros H. apply orb_true_iff in H.
  destruct H as [H|H]; apply String.eqb_eq in H; subst ty;
    now apply quiet_leaf.
Qed.

Lemma textNode_inline value active : isInlineNode (textNode value active) = true.
Proof. reflexivity. Qed.

Lemma convertInlineToken_inline (token : Inline) :
  forall active, forallb isInlineNode (convertInlineToken active token) = true.
Proof.
  induction token as [t Ht | href title tokens IH | tokens IH | tokens IH
                      | tokens IH] using Inline_induction; intros active.
  - destruct t; try contradiction; try reflexivity.
    destruct text0; reflexivity.
  - cbn [convertInlineToken]. rewrite forallb_flat_map.
    apply forallb_forall. intros t Ht. rewrite Forall_forall in IH. now apply IH.
  - cbn [convertInlineToken]. rewrite forallb_flat_map.
    apply forallb_forall. intros t Ht. rewrite Forall_forall in IH. now apply IH.
  - cbn [convertInlineToken]. rewrite forallb_flat_map.
    apply forallb_forall. intros t Ht. rewrite Forall_forall in IH. now apply IH.
  - cbn [convertInlineToken]. rewrite forallb_flat_map.
    apply forallb_forall. intros t Ht. rewrite Forall_forall in IH. now apply IH.
Qed.

Lemma convertInlineTokens_quiet tokens active :
  forallb (everyNode quiet) (convertInlineTokens tokens active) = true.
Proof.
  unfold convertInlineTokens. rewrite forallb_flat_map.
  apply forallb_forall. intros t _.
  generalize (convertInlineToken_inline t active).
  apply forallb_weaken, inline_quiet.
Qed.

Lemma paragraph_quiet tokens active :
  everyNode quiet (paragraph (convertInlineTokens tokens active)) = true.
Proof. apply quiet_container; try reflexivity. apply convertInlineTokens_quiet. Qed.

Lemma mediaSingles_quiet tokens :
  forallb (fun n => everyNode quiet n && isBlockLevel n) (mediaSingles tokens) = true.
Proof.
  induction tokens as [|t rest IH]; [reflexivity|].
  destruct t; simpl; exact IH.
Qed.

Lemma convertParagraphNodes_quiet tokens :
  forallb (fun n => everyNode quiet n && isBlockLevel n)
    (convertParagraphNodes tokens) = true.
Proof.
  unfold convertParagraphNodes.
  destruct (isImageOnlyParagraph (orEmpty tokens)); [apply mediaSingles_quiet|].
  cbn [forallb]. now rewrite paragraph_quiet.
Qed.

Lemma convertCell_quiet cellType cell :
  (cellType =? "extension") = false -> (cellType =? "codeBlock") = false ->
  (cellType =? "listItem") = false ->
  everyNode quiet (convertCell cellType cell) = true.
Proof.
  intros. apply quiet_container; try assumption.
  cbn [forallb]. now rewrite paragraph_quiet.
Qed.

Lemma tableRow_quiet cellType cells :
  (cellType =? "extension") = false -> (cellType =? "codeBlock") = false ->
  (cellType =? "listItem") = false ->
  everyNode quiet (tableRow cellType cells) = true.
Proof.
  intros. apply quiet_container; try reflexivity.
  apply forallb_map_all. intros c. now apply convertCell_quiet.
Qed.

Lemma convertTable_quiet header rows :
  everyNode quiet (convertTable header rows) = true.
Proof.
  apply quiet_container; try reflexivity. rewrite forallb_app. apply andb_true_iff.
  split.
  - destruct header; [reflexivity|]. cbn [forallb].
    now rewrite tableRow_quiet.
  - apply forallb_map_all. intros r. now apply tableRow_quiet.
Qed.

(** *** What a conversion builds *)

Lemma filter_none {A : Type} (p : A -> bool) (l : list A) :
  forallb (fun x => negb (p x)) l = true -> filter p l = [].
Proof.
  induction l as [|x l IH]; [reflexivity|]. simpl. intros H.
  apply andb_true_iff in H. destruct H as [Hx Hl].
  apply negb_true_iff in Hx. rewrite Hx. now apply IH.
Qed.

Lemma quiet_calm (m : AdfNode) : quiet m = true -> calm m = true.
Proof. unfold quiet. intros H. apply andb_true_iff in H. apply H. Qed.

Lemma quiet_sound (m : AdfNode) : quiet m = true -> sound m = true.
Proof. unfold quiet. intros H. apply andb_true_iff in H. apply H. Qed.

Lemma calm_not_extension (m : AdfNode) :
  calm m = true -> negb (isExtension m) = true.
Proof. unfold calm. intros H. apply andb_true_iff in H. apply H. Qed.

Lemma extensionsOf_app (a b : list AdfNode) :
  extensionsOf (a ++ b) = extensionsOf a ++ extensionsOf b.
Proof. unfold extensionsOf. now rewrite flat_map_app, filter_app. Qed.

Lemma extensionsOf_quiet (l : list AdfNode) :
  forallb (everyNode quiet) l = true -> extensionsOf l = [].
Proof.
  intros H. unfold extensionsOf. apply filter_none.
  rewrite forallb_flat_map. revert H. apply forallb_weaken. intros n Hn.
  rewrite everyNode_subnodes in Hn. revert Hn. apply forallb_weaken.
  intros m Hm. now apply calm_not_extension, quiet_calm.
Qed.

Lemma extensionsOf_container ty a c tx mk :
  (ty =? "extension") = false ->
  extensionsOf [node ty a (Some c) tx mk] = extensionsOf c.
Proof.
  intros He. unfold extensionsOf. cbn [flat_map subnodes].
  rewrite app_nil_r. cbn [filter]. unfold isExtension at 1. cbn [type].
  now rewrite He.
Qed.

Section Conversion.
Variable uuid : nat -> string.

Local Abbreviation Built := (AdfProps.Built uuid).
Local Abbreviation BuiltBlocks := (AdfProps.BuiltBlocks uuid).

Lemma Built_quiet l s : forallb (everyNode quiet) l = true -> Built l s s.
Proof.
  intros H. split; [|split; [|split]].
  - lia.
  - apply adjacent_calm. revert H. apply forallb_weaken. intros n Hn.
    now apply quiet_calm, everyNode_here.
  - revert H. apply forallb_weaken. intros n.
    apply everyNode_weaken, quiet_sound.
  - rewrite (extensionsOf_quiet _ H), Nat.sub_diag. reflexivity.
Qed.

Lemma Built_app a b s s1 s2 :
  Built a s s1 -> Built b s1 s2 -> Built (a ++ b) s s2.
Proof.
  intros (L1 & A1 & S1 & E1) (L2 & A2 & S2 & E2). split; [|split; [|split]].
  - lia.
  - now apply adjacent_app.
  - now rewrite forallb_app, S1, S2.
  - rewrite extensionsOf_app, E1, E2, <- map_app. f_equal.
    replace (s2 - s) with ((s1 - s) + (s2 - s1)) by lia.
    rewrite seq_app. do 2 f_equal. lia.
Qed.

Lemma Built_container ty a c tx mk s s' :
  (ty =? "extension") = false -> (ty =? "codeBlock") = false ->
  (ty =? "listItem") = false ->
  Built c s s' -> Built [node ty a (Some c) tx mk] s s'.
Proof.
  intros He Hc Hl (L & A & S & E). split; [|split; [|split]].
  - exact L.
  - cbn. unfold isExtension, isMermaidCodeBlock. cbn. now rewrite He, Hc.
  - cbn [forallb]. rewrite everyNode_node, S.
    unfold sound, placed, filled, isListItem. cbn [type children content].
    now rewrite A, Hl.
  - now rewrite extensionsOf_container.
Qed.

Lemma Built_listItem c s s' :
  Built c s s' -> forallb isBlockLevel c = true ->
  Built [listItemNode c] s s'.
Proof.
  intros (L & A & S & E) B. destruct c as [|n c].
  - split; [exact L|]. split; [reflexivity|]. split; [reflexivity | exact E].
  - split; [|split; [|split]].
    + exact L.
    + reflexivity.
    + unfold listItemNode. cbn [forallb]. rewrite everyNode_node, S.
      unfold sound, placed, filled, isListItem. cbn [type children content].
      rewrite A, B. reflexivity.
    + unfold listItemNode. now rewrite extensionsOf_container.
Qed.

Lemma BuiltBlocks_nil s : BuiltBlocks [] s s.
Proof. split; [now apply Built_quiet | reflexivity]. Qed.

Lemma BuiltBlocks_quiet l s :
  forallb (fun n => everyNode quiet n && isBlockLevel n) l = true ->
  BuiltBlocks l s s.
Proof.
  intros H. split.
  - apply Built_quiet. revert H. apply forallb_weaken. intros n Hn.
    apply andb_true_iff in Hn. apply Hn.
  - revert H. apply forallb_weaken. intros n Hn.
    apply andb_true_iff in Hn. apply Hn.
Qed.

Lemma BuiltBlocks_app a b s s1 s2 :
  BuiltBlocks a s s1 -> BuiltBlocks b s1 s2 -> BuiltBlocks (a ++ b) s s2.
Proof.
  intros [Ba La] [Bb Lb]. split; [now apply (Built_app a b s s1 s2)|].
  now rewrite forallb_app, La, Lb.
Qed.

Lemma convertCodeBlock_built lang code s :
  BuiltBlocks (fst (convertCodeBlock uuid lang code s)) s
    (snd (convertCodeBlock uuid lang code s)).
Proof.
  unfold convertCodeBlock. destruct lang as [l|].
  - destruct (String.eqb_spec l "mermaid") as [->|Hne].
    + cbv beta iota delta [bind ret buildMermaidExtensionNode randomUUID fst snd].
      split; [|reflexivity]. split; [lia|].
      split; [reflexivity|]. split; [reflexivity|].
      replace (S s - s) with 1 by lia. reflexivity.
    + apply BuiltBlocks_quiet. cbn [ret fst forallb]. rewrite !andb_true_r.
      apply andb_true_iff. split; [|reflexivity].
      unfold quiet, sound, placed, filled, calm, isListItem, isExtension,
        isMermaidCodeBlock, languageOf. cbn.
      destruct (isEmpty l); cbn; [reflexivity|].
      apply String.eqb_neq in Hne. now rewrite Hne.
  - apply BuiltBlocks_quiet. reflexivity.
Qed.

Lemma pushAll_built {A : Type} (f : A -> Gen (list AdfNode)) (l : list A) :
  Forall (fun x => forall s, BuiltBlocks (fst (f x s)) s (snd (f x s))) l ->
  forall s, BuiltBlocks (fst (pushAll f l s)) s (snd (pushAll f l s)).
Proof.
  induction 1 as [|x l Hx _ IH]; intros s.
  - apply BuiltBlocks_nil.
  - rewrite pushAll_cons. cbn [fst snd].
    apply (BuiltBlocks_app _ _ s (snd (f x s))); [apply Hx | apply IH].
Qed.

Lemma mapGen_built {A : Type} (f : A -> Gen AdfNode) (l : list A) :
  Forall (fun x => forall s, Built [fst (f x s)] s (snd (f x s))) l ->
  forall s, Built (fst (mapGen f l s)) s (snd (mapGen f l s)).
Proof.
  induction 1 as [|x l Hx _ IH]; intros s.
  - now apply Built_quiet.
  - rewrite mapGen_cons. cbn [fst snd].
    apply (Built_app [fst (f x s)] _ s (snd (f x s))); [apply Hx | apply IH].
Qed.

(** The equations of the mutual conversion. *)
Lemma convertBlockToken_quote tokens :
  convertBlockToken uuid (Blockquote tokens)
  = (children <- convertBlockTokens uuid tokens ;;
     ret (Some [{| type := "blockquote"; attrs := None;
                   content := Some children; text := None; marks := None |}])).
Proof. reflexivity. Qed.

Lemma convertBlockToken_list ordered start items :
  convertBlockToken uuid (List ordered start items)
  = (list <- convertList uuid ordered start items ;; ret (Some [list])).
Proof. reflexivity. Qed.

Lemma convertListItem_loop tokens :
  convertListItem uuid (list_item tokens)
  = (children <- pushAll (listItemStep uuid) tokens ;;
     ret (listItemNode children)).
Proof. reflexivity. Qed.

Lemma convertList_run ordered start items s :
  convertList uuid ordered start items s
  = (listNode ordered start (fst (mapGen (convertListItem uuid) items s)),
     snd (mapGen (convertListItem uuid) items s)).
Proof. unfold convertList, convertListWith. now rewrite bind_run. Qed.

Lemma convertList_built ordered start items :
  Forall (fun item => forall s,
            Built [fst (convertListItem uuid item s)] s
              (snd (convertListItem uuid item s))) items ->
  forall s, BuiltBlocks [fst (convertList uuid ordered start items s)] s
              (snd (convertList uuid ordered start items s)).
Proof.
  intros H s. rewrite convertList_run. cbn [fst snd]. split.
  - unfold listNode. destruct ordered;
      apply Built_container; try reflexivity; now apply mapGen_built.
  - unfold listNode. now destruct ordered.
Qed.

Local Abbreviation blockNodes := (Adf.blockNodes uuid).

Lemma blockNodes_run token s :
  blockNodes token s
  = (orEmpty (fst (convertBlockToken uuid token s)),
     snd (convertBlockToken uuid token s)).
Proof. unfold Adf.blockNodes. now rewrite bind_run. Qed.

Lemma listItemStep_built token :
  (forall s, BuiltBlocks (fst (blockNodes token s)) s (snd (blockNodes token s))) ->
  forall s, BuiltBlocks (fst (listItemStep uuid token s)) s
              (snd (listItemStep uuid token s)).
Proof.
  intros H s.
  assert (Same : listItemStep uuid token s = blockNodes token s ->
                 BuiltBlocks (fst (listItemStep uuid token s)) s
                   (snd (listItemStep uuid token s)))
    by (intros ->; apply H).
  destruct token; try (apply Same; reflexivity).
  - apply Same. rewrite blockNodes_run, convertBlockToken_list.
    cbn [listItemStep]. now rewrite !bind_run.
  - destruct tokens as [inline|]; [|apply Same; reflexivity].
    cbn [listItemStep].
    destruct (convertInlineTokens inline []) as [|n inlineNodes] eqn:E.
    + apply BuiltBlocks_nil.
    + apply BuiltBlocks_quiet. cbn [ret fst forallb].
      rewrite <- E, paragraph_quiet. reflexivity.
Qed.

Lemma convert_built (token : Token) :
  forall s, BuiltBlocks (fst (blockNodes token s)) s (snd (blockNodes token s)).
Proof.
  induction token as [t Ht | tokens IH | ordered start items IH | tokens IH]
    using Token_induction
    with (Q := fun item => forall s,
                 Built [fst (convertListItem uuid item s)] s
                   (snd (convertListItem uuid item s))
                 /\ isListItem (fst (convertListItem uuid item s)) = true);
    intros s.
  - rewrite blockNodes_run. cbn [fst snd].
    destruct t; try contradiction; cbn [convertBlockToken];
      try apply BuiltBlocks_nil.
    + rewrite bind_run. cbn [ret fst snd orEmpty]. apply convertCodeBlock_built.
    + apply BuiltBlocks_quiet. cbn [ret fst orEmpty forallb].
      unfold convertHeading. rewrite quiet_container; try reflexivity.
      apply convertInlineTokens_quiet.
    + apply BuiltBlocks_quiet. cbn [ret fst orEmpty forallb].
      now rewrite convertTable_quiet.
    + destruct (isEmpty (trim text0));
        [apply BuiltBlocks_nil | now apply BuiltBlocks_quiet].
    + apply BuiltBlocks_quiet. apply convertParagraphNodes_quiet.
  - rewrite blockNodes_run, convertBlockToken_quote, bind_run.
    cbn [ret fst snd orEmpty]. split; [|reflexivity].
    apply Built_container; try reflexivity.
    apply (pushAll_built blockNodes tokens IH s).
  - rewrite blockNodes_run, convertBlockToken_list, bind_run.
    cbn [ret fst snd orEmpty]. apply convertList_built.
    revert IH. apply Forall_impl. intros item Hitem s0. apply Hitem.
  - rewrite convertListItem_loop, bind_run. cbn [ret fst snd].
    assert (Hstep : forall s0,
               BuiltBlocks (fst (pushAll (listItemStep uuid) tokens s0)) s0
                 (snd (pushAll (listItemStep uuid) tokens s0))).
    { apply pushAll_built. revert IH. apply Forall_impl. intros t Ht.
      now apply listItemStep_built. }
    destruct (Hstep s) as [B L]. split; [now apply Built_listItem | reflexivity].
Qed.

Lemma convertBlockTokens_built tokens s :
  BuiltBlocks (fst (convertBlockTokens uuid tokens s)) s
    (snd (convertBlockTokens uuid tokens s)).
Proof.
  apply (pushAll_built blockNodes tokens).
  apply Forall_forall. intros t _. apply convert_built.
Qed.

Lemma markdownToAdf_built lexer markdown s :
  Built (doc_content (fst (markdownToAdf uuid lexer markdown s))) s
    (snd (markdownToAdf uuid lexer markdown s)).
Proof.
  rewrite markdownToAdf_run. cbn [fst snd doc_content].
  destruct (convertBlockTokens_built (lexer markdown) s) as [B _].
  destruct (fst (convertBlockTokens uuid (lexer markdown) s)) as [|n l];
    [|exact B].
  destruct B as (L & _ & _ & E).
  split; [exact L|]. split; [reflexivity|]. split; [reflexivity | exact E].
Qed.

End Conversion.

(** *** Documents *)

Section Documents.
Variable uuid : nat -> string.
Variable lexer : string -> list Token.

Lemma nodesOf_sound markdown s n :
  In n (nodesOf (fst (markdownToAdf uuid lexer markdown s))) -> sound n = true.
Proof.
  destruct (markdownToAdf_built uuid lexer markdown s) as (_ & _ & S & _).
  unfold nodesOf. intros H. apply in_flat_map in H.
  destruct H as (m & Hm & Hn).
  rewrite forallb_forall in S. specialize (S m Hm).
  rewrite everyNode_subnodes, forallb_forall in S. now apply S.
Qed.

Lemma containers_adjacent markdown s siblings :
  In siblings (containersOf (fst (markdownToAdf uuid lexer markdown s))) ->
  adjacent false siblings = true.
Proof.
  unfold containersOf. intros [<-|H].
  - apply (markdownToAdf_built uuid lexer markdown s).
  - apply in_flat_map in H. destruct H as (n & Hn & Hc).
    apply nodesOf_sound in Hn. unfold sound in Hn.
    apply andb_true_iff in Hn. destruct Hn as [Hp _].
    unfold placed, children in Hp. unfold contentOf in Hc.
    destruct (content n) as [c|]; [|contradiction].
    destruct Hc as [<-|[]]. exact Hp.
Qed.

(** C1.  In every content sequence of the document that markdownToAdf
    returns, the first node is no extension, a mermaid code block is
    followed at once by an extension node, and an extension node is
    preceded at once by a mermaid code block; so a code block with
    another language or without one is never followed by an extension.
    The extension nodes of the document, in document order, are built
    from the identifiers that the generator handed out during the call,
    one identifier per node: each node has the extension type
    "com.atlassian.ecosystem", the fixed key, and its identifier both in
    parameters.localId and in localId. *)
Theorem mermaid_extension_adjacent markdown s :
  let doc := fst (markdownToAdf uuid lexer markdown s) in
  let s' := snd (markdownToAdf uuid lexer markdown s) in
  (forall siblings, In siblings (containersOf doc) ->
     (forall e, nth_error siblings 0 = Some e -> isExtension e = false)
     /\ (forall i p, nth_error siblings i = Some p ->
          isMermaidCodeBlock p = true ->
          exists e, nth_error siblings (S i) = Some e /\ isExtension e = true)
     /\ (forall i p e, nth_error siblings i = Some p ->
          nth_error siblings (S i) = Some e ->
          isExtension e = true -> isMermaidCodeBlock p = true)
     /\ (forall i p e, nth_error siblings i = Some p ->
          nth_error siblings (S i) = Some e ->
          type p = "codeBlock" -> languageOf p <> Some "mermaid" ->
          isExtension e = false))
  /\ filter isExtension (nodesOf doc)
     = map (fun k => extensionNode (uuid k)) (seq s (s' - s))
  /\ (forall e, In e (nodesOf doc) -> isExtension e = true ->
      exists k, s <= k < s'
        /\ attrs e
           = Some [("extensionType", JString "com.atlassian.ecosystem");
                   ("extensionKey", JString MERMAID_EXTENSION_KEY);
                   ("parameters", JObject [("localId", JString (uuid k))]);
                   ("localId", JString (uuid k))])
  /\ s <= s'.
Proof.
  intros doc s'.
  destruct (markdownToAdf_built uuid lexer markdown s) as (L & _ & _ & E).
  fold doc s' in L, E. change (extensionsOf (doc_content doc))
    with (filter isExtension (nodesOf doc)) in E.
  split; [|split; [exact E | split; [|exact L]]].
  - intros siblings Hin.
    destruct (adjacent_positions false siblings
                (containers_adjacent markdown s siblings Hin))
      as (H0 & Hfwd & Hbwd).
    split; [exact H0|]. split; [exact Hfwd|]. split; [exact Hbwd|].
    intros i p e Hp He Hty Hlang.
    destruct (isExtension e) eqn:Hx; [|reflexivity].
    pose proof (Hbwd i p e Hp He Hx) as Hm.
    unfold isMermaidCodeBlock in Hm. apply andb_true_iff in Hm.
    destruct Hm as [_ Hm]. destruct (languageOf p) as [l|]; [|discriminate].
    apply String.eqb_eq in Hm. subst l. now elim Hlang.
  - intros e Hin Hx.
    assert (Hf : In e (filter isExtension (nodesOf doc)))
      by (apply filter_In; now split).
    rewrite E in Hf. apply in_map_iff in Hf. destruct Hf as (k & <- & Hk).
    apply in_seq in Hk. exists k. split; [lia | reflexivity].
Qed.

(** C8.  Every listItem node of the document that markdownToAdf returns
    has a content with at least one child, and its children are block
    nodes.  An item whose tokens yield no node gets one empty
    paragraph. *)
Theorem list_item_not_empty markdown s :
  (forall n, In n (nodesOf (fst (markdownToAdf uuid lexer markdown s))) ->
     type n = "listItem" ->
     exists c, content n = Some c /\ c <> []
               /\ Forall (fun m => isBlockLevel m = true) c)
  /\ (forall tokens s0,
        fst (pushAll (listItemStep uuid) tokens s0) = [] ->
        fst (convertListItem uuid (list_item tokens) s0)
        = {| type := "listItem"; attrs := None;
             content := Some [emptyParagraph]; text := None; marks := None |}).
Proof.
  split.
  - intros n Hin Hty. apply nodesOf_sound in Hin. unfold sound in Hin.
    apply andb_true_iff in Hin. destruct Hin as [_ Hf].
    unfold filled, isListItem, children in Hf. rewrite Hty in Hf.
    cbn [String.eqb Ascii.eqb Bool.eqb] in Hf.
    destruct (content n) as [c|]; [|discriminate]. exists c.
    apply andb_true_iff in Hf. destruct Hf as [Hlen Hall].
    split; [reflexivity|]. split.
    + intros ->. discriminate.
    + apply Forall_forall. now apply forallb_forall.
  - intros tokens s0 H. rewrite convertListItem_loop, bind_run.
    cbn [ret fst]. now rewrite H.
Qed.

End Documents.

Lemma mermaid_extension_adjacent_witness :
  exists e,
    nth_error
      (doc_content
         (fst (markdownToAdf Fixture.countingUuid Fixture.lexer
                 Fixture.twoDiagrams 0))) 3 = Some e
    /\ isExtension e = true.
Proof.
  destruct (mermaid_extension_adjacent Fixture.countingUuid Fixture.lexer
              Fixture.twoDiagrams 0) as (H & _).
  destruct (H (doc_content
                 (fst (markdownToAdf Fixture.countingUuid Fixture.lexer
                         Fixture.twoDiagrams 0))))
    as (_ & Hfwd & _).
  - left. reflexivity.
  - apply (Hfwd 2 (codeBlockNode (Some "mermaid")
                     ("graph LR" ++ nl ++ "C-->D"))); reflexivity.
Defined.

Lemma list_item_not_empty_witness :
  exists c,
    content (listItemNode [paragraph [textNode "Item 1" []]]) = Some c
    /\ c <> [] /\ Forall (fun m => isBlockLevel m = true) c.
Proof.
  destruct (list_item_not_empty Fixture.countingUuid Fixture.lexer
              ("- Item 1" ++ nl ++ "- Item 2") 0) as (H & _).
  apply H; [|reflexivity].
  right. left. reflexivity.
Defined.

End AdfFacts.

(* ================================================================== *)
(** ** Both renderers *)
(* ================================================================== *)

Module RuntimeFacts.
Import JsString Adf Runtime RuntimeProps MarkedFacts.
Local Open Scope list_scope.

(** *** Computations that draw no identifier *)

Lemma Calm_pure {A : Type} (a : A) : Calm (pure a) (Ok a).
Proof. exists 0. intros frames. split; [reflexivity | now left]. Qed.

Lemma Calm_lift {A : Type} (r : Result A) : Calm (lift r) r.
Proof. exists 0. intros frames. split; [reflexivity | now left]. Qed.

Lemma Calm_call {A : Type} (c : Run A) (r : Result A) :
  Calm c r -> Calm (call c) r.
Proof.
  intros [n H]. exists (S n). intros [|frames].
  - split; [lia | now right].
  - destruct (H frames) as [Hn Hd].
    split; [intros L; apply Hn; lia | exact Hd].
Qed.

Lemma Calm_leaf {A : Type} (a : A) : Calm (leaf a) (Ok a).
Proof. apply Calm_call, Calm_pure. Qed.

Lemma Calm_result {A : Type} (c : Run A) (r r' : Result A) :
  r = r' -> Calm c r -> Calm c r'.
Proof. now intros ->. Qed.

Lemma Calm_andThen {A B : Type} (c : Run A) (k : A -> Run B)
    (r : Result A) (h : A -> Result B) :
  Calm c r -> (forall a, r = Ok a -> Calm (k a) (h a)) ->
  Calm (andThen c k) (rbind r h).
Proof.
  intros [n Hc] Hk. destruct r as [a|e].
  - destruct (Hk a eq_refl) as [m Hm]. exists (Nat.max n m).
    intros frames. unfold andThen. destruct (Hc frames) as [Hn Hd].
    destruct (Hm frames) as [Hmn Hmd]. split.
    + intros L s. rewrite Hn by lia. apply Hmn. lia.
    + destruct Hd as [Hd | Hd].
      * destruct Hmd as [Hmd | Hmd]; [left | right]; intros s;
          now rewrite Hd, Hmd.
      * right. intros s. now rewrite Hd.
  - exists n. intros frames. unfold andThen.
    destruct (Hc frames) as [Hn Hd]. split.
    + intros L s. now rewrite Hn.
    + destruct Hd as [Hd | Hd]; [left | right]; intros s; now rewrite Hd.
Qed.

Lemma Calm_concat {A : Type} (f : A -> Run string) (g : A -> Result string)
    (l : list A) :
  Forall (fun x => Calm (f x) (g x)) l -> Calm (concatRun f l) (concatMap g l).
Proof.
  induction 1 as [|x l Hx _ IH]; [apply Calm_pure|].
  cbn [concatRun concatMap]. apply Calm_andThen; [exact Hx|]. intros out _.
  apply Calm_andThen; [exact IH|]. intros more _. apply Calm_pure.
Qed.

Lemma Calm_map {A B : Type} (f : A -> Run B) (g : A -> Result B) (l : list A) :
  Forall (fun x => Calm (f x) (g x)) l -> Calm (mapRun f l) (mapResult g l).
Proof.
  induction 1 as [|x l Hx _ IH]; [apply Calm_pure|].
  cbn [mapRun mapResult]. apply Calm_andThen; [exact Hx|]. intros y _.
  apply Calm_andThen; [exact IH|]. intros ys _. apply Calm_pure.
Qed.

Lemma Calm_forEach {A B : Type} (f : A -> Run (list B)) (g : A -> list B)
    (l : list A) :
  Forall (fun x => Calm (f x) (Ok (g x))) l ->
  Calm (forEach f l) (Ok (flat_map g l)).
Proof.
  induction 1 as [|x l Hx _ IH]; [apply Calm_pure|].
  cbn [forEach flat_map].
  apply (Calm_result _ (rbind (Ok (g x))
                          (fun ys => rbind (Ok (flat_map g l))
                                       (fun more => Ok (ys ++ more)))));
    [reflexivity|].
  apply Calm_andThen; [exact Hx|]. intros ys _.
  apply Calm_andThen; [exact IH|]. intros more _. apply Calm_pure.
Qed.

Lemma Calm_mapPure {A B : Type} (f : A -> Run B) (g : A -> B) (l : list A) :
  Forall (fun x => Calm (f x) (Ok (g x))) l ->
  Calm (mapRun f l) (Ok (map g l)).
Proof.
  induction 1 as [|x l Hx _ IH]; [apply Calm_pure|].
  cbn [mapRun map].
  apply (Calm_result _ (rbind (Ok (g x))
                          (fun y => rbind (Ok (map g l))
                                      (fun ys => Ok (y :: ys)))));
    [reflexivity|].
  apply Calm_andThen; [exact Hx|]. intros y _.
  apply Calm_andThen; [exact IH|]. intros ys _. apply Calm_pure.
Qed.

(** What a calm computation does, whatever the stack. *)
Lemma Calm_state {A : Type} (c : Run A) (r : Result A) :
  Calm c r -> forall frames s, snd (c frames s) = s.
Proof.
  intros [n H] frames s. destruct (H frames) as [_ [Hd | Hd]];
    now rewrite Hd.
Qed.

Lemma Calm_outcome {A : Type} (c : Run A) (r : Result A) :
  Calm c r ->
  forall frames,
    (forall s, fst (c frames s) = r)
    \/ (forall s, fst (c frames s) = Throw stackOverflow).
Proof.
  intros [n H] frames. destruct (H frames) as [_ [Hd | Hd]];
    [left | right]; intros s; now rewrite Hd.
Qed.

Lemma Calm_returns {A : Type} (c : Run A) (r : Result A) :
  Calm c r -> exists n, forall frames s, n <= frames -> c frames s = (r, s).
Proof.
  intros [n H]. exists n. intros frames s L. now apply (proj1 (H frames)).
Qed.

(** *** Computations that follow a stack-free computation *)

Lemma Calm_Tracks {A : Type} (c : Run A) (a : A) :
  Calm c (Ok a) -> Tracks c (ret a).
Proof.
  intros [n H]. exists n. intros frames s. destruct (H frames) as [Hn Hd].
  split; [intros L; now apply Hn|].
  destruct Hd as [Hd | Hd]; rewrite Hd; [now left | now right].
Qed.

Lemma Follows_weaken {A : Type} (c : Run A) (g : Gen A) (n m : nat) :
  n <= m -> Follows c g n -> Follows c g m.
Proof.
  intros L H frames s. destruct (H frames s) as [Hn Hd].
  split; [intros L'; apply Hn; lia | exact Hd].
Qed.

Lemma Tracks_same {A : Type} (c : Run A) (g g' : Gen A) :
  (forall s, g s = g' s) -> Tracks c g -> Tracks c g'.
Proof.
  intros E [n H]. exists n. intros frames s. rewrite <- E. apply H.
Qed.

Lemma Tracks_call {A : Type} (c : Run A) (g : Gen A) :
  Tracks c g -> Tracks (call c) g.
Proof.
  intros [n H]. exists (S n). intros [|frames] s; cbn [call].
  - split; [lia | now right].
  - destruct (H frames s) as [Hn Hd]. split; [intros L; apply Hn; lia | exact Hd].
Qed.

Lemma Follows_andThen {A B : Type} (c : Run A) (k : A -> Run B)
    (g : Gen A) (h : A -> Gen B) (n m : nat) :
  Follows c g n -> (forall a, Follows (k a) (h a) m) ->
  Follows (andThen c k) (bind g h) (Nat.max n m).
Proof.
  intros Hc Hk frames s. unfold andThen. rewrite AdfFacts.bind_run.
  destruct (Hc frames s) as [Hn Hd]. split.
  - intros L. rewrite Hn by lia. apply Hk. lia.
  - destruct Hd as [-> | Hd]; [apply Hk|].
    right. destruct (c frames s) as [[a|e] s']; cbn [fst] in *;
      [discriminate | now injection Hd as ->].
Qed.

(** A continuation that only builds a value. *)
Lemma Tracks_value {A B : Type} (c : Run A) (g : Gen A) (f : A -> B) :
  Tracks c g ->
  Tracks (andThen c (fun a => pure (f a))) (bind g (fun a => ret (f a))).
Proof.
  intros [n H]. exists (Nat.max n 0). apply Follows_andThen; [exact H|].
  intros a frames s. split; [reflexivity | now left].
Qed.

Lemma Tracks_forEach {A B : Type} (f : A -> Run (list B))
    (g : A -> Gen (list B)) (l : list A) :
  Forall (fun x => Tracks (f x) (g x)) l -> Tracks (forEach f l) (pushAll g l).
Proof.
  induction 1 as [|x l [n Hx] _ [m IH]].
  - exists 0. intros frames s. split; [reflexivity | now left].
  - exists (Nat.max n (Nat.max m 0)). cbn [forEach pushAll].
    apply Follows_andThen; [exact Hx|]. intros ys.
    apply Follows_andThen; [exact IH|]. intros more frames s.
    split; [reflexivity | now left].
Qed.

Lemma Tracks_map {A B : Type} (f : A -> Run B) (g : A -> Gen B) (l : list A) :
  Forall (fun x => Tracks (f x) (g x)) l -> Tracks (mapRun f l) (mapGen g l).
Proof.
  induction 1 as [|x l [n Hx] _ [m IH]].
  - exists 0. intros frames s. split; [reflexivity | now left].
  - exists (Nat.max n (Nat.max m 0)). cbn [mapRun mapGen].
    apply Follows_andThen; [exact Hx|]. intros y.
    apply Follows_andThen; [exact IH|]. intros ys frames s.
    split; [reflexivity | now left].
Qed.

(** *** The storage renderer on the stack *)

Section StorageRun.
Variable new_URL_host : string -> Result string.
Variable defaultInline : Inline -> string -> string.
Variable defaultBlock : Token -> list string -> string.

Local Abbreviation renderInline := (Runtime.renderInline new_URL_host defaultInline).
Local Abbreviation parseInline := (Runtime.parseInline new_URL_host defaultInline).
Local Abbreviation renderBlock :=
  (Runtime.renderBlock new_URL_host defaultInline defaultBlock).
Local Abbreviation renderItem :=
  (Runtime.renderItem new_URL_host defaultInline defaultBlock).
Local Abbreviation parse := (Runtime.parse new_URL_host defaultInline defaultBlock).

Lemma link_calm (parseInlineRun : list Inline -> Run string)
    (parseInlineResult : list Inline -> Result string) href title tokens :
  Calm (parseInlineRun tokens) (parseInlineResult tokens) ->
  Calm (Runtime.link new_URL_host parseInlineRun href title tokens)
    (Storage.link new_URL_host parseInlineResult href title tokens).
Proof.
  intros Hbody. unfold Runtime.link, Storage.link. apply Calm_call.
  apply (Calm_result _
           (rbind (Ok (negb (isEmpty href)
                       && Storage.isMarkdownFileLink new_URL_host href))
              (fun markdownFile : bool =>
                 if markdownFile then
                   rbind (Storage.mdHrefToPageTitle href)
                     (fun pageTitle =>
                        rbind (parseInlineResult tokens)
                          (fun linkBody =>
                             Ok (Some
                                   ("<ac:link"
                                    ++ match title with
                                       | Some t =>
                                           if isEmpty t then ""
                                           else " ac:title=" ++ dq
                                                ++ Storage.escapeXml t ++ dq
                                       | None => ""
                                       end
                                    ++ ">"
                                    ++ "<ri:page ri:content-title=" ++ dq
                                    ++ Storage.escapeXml pageTitle ++ dq ++ " />"
                                    ++ "<ac:link-body>" ++ linkBody
                                    ++ "</ac:link-body>"
                                    ++ "</ac:link>")%string)))
                 else Ok None)));
    [cbn [rbind];
     now destruct (negb (isEmpty href)
                   && Storage.isMarkdownFileLink new_URL_host href)|].
  apply Calm_andThen.
  - destruct (isEmpty href); cbn [negb andb];
      [apply Calm_pure | apply Calm_leaf].
  - intros [|] _; [|apply Calm_pure].
    apply Calm_andThen; [apply Calm_call, Calm_lift|]. intros pageTitle _.
    apply Calm_andThen; [exact Hbody|]. intros linkBody _. apply Calm_pure.
Qed.

Lemma renderInline_calm (token : Inline) :
  Calm (renderInline token)
    (Storage.renderInline new_URL_host defaultInline token).
Proof.
  induction token as [t Ht | href title tokens IH | tokens IH | tokens IH
                      | tokens IH] using Inline_induction;
    cbn [Runtime.renderInline Storage.renderInline].
  - destruct t; try contradiction; apply Calm_leaf.
  - apply Calm_andThen.
    + apply link_calm. now apply Calm_call, Calm_concat.
    + intros [out|] _; [apply Calm_pure|].
      apply Calm_andThen; [now apply Calm_call, Calm_concat|].
      intros body _. apply Calm_leaf.
  - apply Calm_andThen; [now apply Calm_call, Calm_concat|].
    intros body _. apply Calm_leaf.
  - apply Calm_andThen; [now apply Calm_call, Calm_concat|].
    intros body _. apply Calm_leaf.
  - apply Calm_andThen; [now apply Calm_call, Calm_concat|].
    intros body _. apply Calm_leaf.
Qed.

Lemma parseInline_calm (tokens : list Inline) :
  Calm (parseInline tokens)
    (Storage.parseInline new_URL_host defaultInline tokens).
Proof.
  apply Calm_call, Calm_concat, Forall_forall. intros t _.
  apply renderInline_calm.
Qed.

Lemma parseCells_calm (cells : list TableCell) :
  Calm (mapRun (Runtime.parseCell new_URL_host defaultInline) cells)
    (mapResult (Storage.parseCell new_URL_host defaultInline) cells).
Proof.
  apply Calm_map, Forall_forall. intros cell _. apply parseInline_calm.
Qed.

Lemma renderBlock_calm (token : Token) :
  Calm (renderBlock token)
    (Storage.renderBlock new_URL_host defaultInline defaultBlock token).
Proof.
  induction token as [t Ht | tokens IH | ordered start items IH | tokens IH]
    using Token_induction
    with (Q := fun item =>
                 Calm (renderItem item)
                   (Storage.renderItem new_URL_host defaultInline
                      defaultBlock item));
    cbn [Runtime.renderBlock Runtime.renderItem
         Storage.renderBlock Storage.renderItem].
  - destruct t as [| lang code | depth inline | header rows | | | | raw | |
                   inline | raw [inline|] | kind];
      try contradiction; try apply Calm_leaf.
    + apply Calm_andThen; [apply parseInline_calm|].
      intros body _. apply Calm_leaf.
    + apply Calm_andThen; [apply parseCells_calm|]. intros head _.
      apply Calm_andThen.
      * apply Calm_map, Forall_forall. intros row _. apply parseCells_calm.
      * intros body _. apply Calm_leaf.
    + apply Calm_andThen; [apply parseInline_calm|].
      intros body _. apply Calm_leaf.
    + apply Calm_andThen; [apply parseInline_calm|].
      intros body _. apply Calm_leaf.
  - apply Calm_andThen; [now apply Calm_call, Calm_concat|].
    intros body _. apply Calm_leaf.
  - apply Calm_andThen; [now apply Calm_map|].
    intros bodies _. apply Calm_leaf.
  - now apply Calm_call, Calm_concat.
Qed.

Lemma parse_calm (tokens : list Token) :
  Calm (parse tokens)
    (Storage.parse new_URL_host defaultInline defaultBlock tokens).
Proof.
  apply Calm_call, Calm_concat, Forall_forall. intros t _.
  apply renderBlock_calm.
Qed.

Lemma markdownToStorageFormat_calm (lexer : string -> Result (list Token))
    (markdown : string) :
  Calm (Runtime.markdownToStorageFormat new_URL_host lexer defaultInline
          defaultBlock markdown)
    (rbind (lexer markdown)
       (Storage.parse new_URL_host defaultInline defaultBlock)).
Proof.
  apply Calm_andThen; [apply Calm_lift|]. intros tokens _. apply parse_calm.
Qed.





End StorageRun.

(** *** The ADF renderer on the stack *)

Lemma Tracks_run {A : Type} (c c' : Run A) (g : Gen A) :
  (forall frames s, c frames s = c' frames s) -> Tracks c g -> Tracks c' g.
Proof.
  intros E [n H]. exists n. intros frames s. rewrite <- E. apply H.
Qed.

Lemma convertInlineToken_calm (token : Inline) :
  forall active,
    Calm (Runtime.convertInlineToken active token)
      (Ok (Adf.convertInlineToken active token)).
Proof.
  assert (Nest : forall (tokens : list Inline) (active : list AdfMark),
             Forall (fun t => forall a,
                       Calm (Runtime.convertInlineToken a t)
                         (Ok (Adf.convertInlineToken a t))) tokens ->
             Calm (call (forEach (Runtime.convertInlineToken active) tokens))
               (Ok (flat_map (Adf.convertInlineToken active) tokens))).
  { intros tokens active IH. apply Calm_call, Calm_forEach.
    revert IH. apply Forall_impl. intros t Ht. apply Ht. }
  induction token as [t Ht | href title tokens IH | tokens IH | tokens IH
                      | tokens IH] using Inline_induction; intros active;
    cbn [Runtime.convertInlineToken Adf.convertInlineToken];
    try (now apply Nest).
  destruct t; try contradiction; apply Calm_pure.
Qed.

Lemma convertInlineTokens_calm (tokens : list Inline) (active : list AdfMark) :
  Calm (Runtime.convertInlineTokens tokens active)
    (Ok (Adf.convertInlineTokens tokens active)).
Proof.
  apply Calm_call, Calm_forEach, Forall_forall. intros t _.
  apply convertInlineToken_calm.
Qed.

(** A continuation that only builds a value. *)
Lemma Calm_value {A B : Type} (c : Run A) (a : A) (f : A -> B) :
  Calm c (Ok a) -> Calm (andThen c (fun x => pure (f x))) (Ok (f a)).
Proof.
  intros H.
  apply (Calm_result _ (rbind (Ok a) (fun x => Ok (f x)))); [reflexivity|].
  apply Calm_andThen; [exact H|]. intros x _. apply Calm_pure.
Qed.

Lemma convertHeading_calm (depth : nat) (tokens : option (list Inline)) :
  Calm (Runtime.convertHeading depth tokens)
    (Ok (Adf.convertHeading depth tokens)).
Proof.
  apply Calm_call.
  apply (Calm_value _ _
           (fun inlineNodes =>
              {| type := "heading";
                 attrs := Some [("level", JNumber (Z.of_nat depth))];
                 content := Some inlineNodes; text := None; marks := None |})).
  apply convertInlineTokens_calm.
Qed.

Lemma convertParagraphNodes_calm (tokens : option (list Inline)) :
  Calm (Runtime.convertParagraphNodes tokens)
    (Ok (Adf.convertParagraphNodes tokens)).
Proof.
  apply Calm_call. cbv zeta.
  apply (Calm_result _
           (rbind (Ok (isImageOnlyParagraph (orEmpty tokens)))
              (fun imageOnly : bool =>
                 Ok (if imageOnly then mediaSingles (orEmpty tokens)
                     else [paragraph
                             (Adf.convertInlineTokens (orEmpty tokens) [])])))).
  { unfold Adf.convertParagraphNodes. cbn [rbind].
    now destruct (isImageOnlyParagraph (orEmpty tokens)). }
  apply Calm_andThen; [apply Calm_leaf|]. intros [|] _; [apply Calm_leaf|].
  apply (Calm_value _ _ (fun inlineNodes => [paragraph inlineNodes])).
  apply convertInlineTokens_calm.
Qed.

Lemma convertCell_calm (cellType : string) (cell : TableCell) :
  Calm (Runtime.convertCell cellType cell) (Ok (Adf.convertCell cellType cell)).
Proof.
  apply Calm_call.
  apply (Calm_value _ _
           (fun inlineNodes =>
              {| type := cellType; attrs := Some [];
                 content := Some [paragraph inlineNodes];
                 text := None; marks := None |})).
  apply convertInlineTokens_calm.
Qed.

Lemma tableRow_calm (cellType : string) (cells : list TableCell) :
  Calm (Runtime.tableRow cellType cells) (Ok (Adf.tableRow cellType cells)).
Proof.
  apply (Calm_value _ _
           (fun converted =>
              {| type := "tableRow"; attrs := None; content := Some converted;
                 text := None; marks := None |})).
  apply Calm_mapPure, Forall_forall. intros cell _. apply convertCell_calm.
Qed.

Lemma convertTable_calm (header : list TableCell)
    (rows : list (list TableCell)) :
  Calm (Runtime.convertTable header rows) (Ok (Adf.convertTable header rows)).
Proof.
  apply Calm_call.
  apply (Calm_result _
           (rbind (Ok match header with
                      | [] => []
                      | _ => [Adf.tableRow "tableHeader" header]
                      end)
              (fun headerRow =>
                 rbind (Ok (map (Adf.tableRow "tableCell") rows))
                   (fun bodyRows =>
                      Ok {| type := "table";
                            attrs := Some [("isNumberColumnEnabled", JBool false);
                                           ("layout", JString "default")];
                            content := Some (headerRow ++ bodyRows);
                            text := None; marks := None |}))));
    [reflexivity|].
  apply Calm_andThen.
  - destruct header as [|cell cells]; [apply Calm_pure|].
    apply (Calm_value _ _ (fun row => [row])). apply tableRow_calm.
  - intros headerRow _. apply Calm_andThen.
    + apply Calm_mapPure, Forall_forall. intros row _. apply tableRow_calm.
    + intros bodyRows _. apply Calm_pure.
Qed.

Section AdfRun.
Variable uuid : nat -> string.

Lemma buildMermaidExtensionNode_tracks :
  Tracks (Runtime.buildMermaidExtensionNode uuid)
    (Adf.buildMermaidExtensionNode uuid).
Proof.
  apply Tracks_call. apply (Tracks_value _ _ extensionNode).
  exists 0. intros frames s. split; [reflexivity | now left].
Qed.

Lemma convertCodeBlock_tracks (lang : option string) (code : string) :
  Tracks (Runtime.convertCodeBlock uuid lang code)
    (Adf.convertCodeBlock uuid lang code).
Proof.
  apply Tracks_call. unfold Adf.convertCodeBlock. cbv zeta.
  destruct lang as [l|]; [destruct (String.eqb l "mermaid")|];
    try apply Calm_Tracks, Calm_pure.
  apply (Tracks_value _ _ (fun extension => [codeBlockNode (Some l) code; extension])).
  apply buildMermaidExtensionNode_tracks.
Qed.

(** The equations of the mutual conversion. *)
Lemma stack_convertBlockToken_quote tokens :
  Runtime.convertBlockToken uuid (Blockquote tokens)
  = call (run! quote <-
            call (run! children <- Runtime.convertBlockTokens uuid tokens ;;
                  pure {| type := "blockquote"; attrs := None;
                          content := Some children;
                          text := None; marks := None |}) ;;
          pure (Some [quote])).
Proof. reflexivity. Qed.

Lemma stack_convertBlockToken_list ordered start items :
  Runtime.convertBlockToken uuid (List ordered start items)
  = call (run! list <-
            Runtime.convertListWith (Runtime.convertListItem uuid)
              ordered start items ;;
          pure (Some [list])).
Proof. reflexivity. Qed.

Lemma stack_convertListItem_loop tokens :
  Runtime.convertListItem uuid (list_item tokens)
  = call (run! children <- forEach (Runtime.listItemStep uuid) tokens ;;
          pure (listItemNode children)).
Proof. reflexivity. Qed.

Lemma blockNodes_tracks (token : Token) :
  Tracks (Runtime.convertBlockToken uuid token)
    (Adf.convertBlockToken uuid token) ->
  Tracks (Runtime.blockNodes uuid token) (Adf.blockNodes uuid token).
Proof. intros H. now apply (Tracks_value _ _ (@orEmpty AdfNode)). Qed.

Lemma convertList_tracks ordered start items :
  Forall (fun item => Tracks (Runtime.convertListItem uuid item)
                        (Adf.convertListItem uuid item)) items ->
  Tracks (Runtime.convertListWith (Runtime.convertListItem uuid)
            ordered start items)
    (Adf.convertList uuid ordered start items).
Proof.
  intros H. apply Tracks_call.
  apply (Tracks_value _ _ (listNode ordered start)). now apply Tracks_map.
Qed.

Lemma convert_tracks (token : Token) :
  Tracks (Runtime.convertBlockToken uuid token)
    (Adf.convertBlockToken uuid token)
  /\ Tracks (Runtime.listItemStep uuid token) (Adf.listItemStep uuid token).
Proof.
  induction token as [t Ht | tokens IH | ordered start items IH | tokens IH]
    using Token_induction
    with (Q := fun item => Tracks (Runtime.convertListItem uuid item)
                             (Adf.convertListItem uuid item)).
  - assert (Hblock : Tracks (Runtime.convertBlockToken uuid t)
                       (Adf.convertBlockToken uuid t)).
    { destruct t as [| lang code | depth inline | header rows | | | | raw | |
                     inline | raw inline | kind];
        try contradiction;
        cbn [Runtime.convertBlockToken Adf.convertBlockToken];
        apply Tracks_call; try apply Calm_Tracks, Calm_pure.
      - apply (Tracks_value _ _ (@Some (list AdfNode))).
        apply convertCodeBlock_tracks.
      - apply Calm_Tracks.
        apply (Calm_value _ _ (fun heading => Some [heading])).
        apply convertHeading_calm.
      - apply Calm_Tracks.
        apply (Calm_value _ _ (fun table => Some [table])).
        apply convertTable_calm.
      - destruct (isEmpty (trim raw)); apply Calm_Tracks, Calm_pure.
      - apply Calm_Tracks.
        apply (Calm_value _ _ (@Some (list AdfNode))).
        apply convertParagraphNodes_calm. }
    split; [exact Hblock|].
    destruct t as [| lang code | depth inline | header rows | | | | raw | |
                   inline | raw [inline|] | kind];
      try contradiction;
      try (now apply (Tracks_value _ _ (@orEmpty AdfNode)) in Hblock).
    + apply Calm_Tracks, Calm_pure.
    + apply Calm_Tracks, convertParagraphNodes_calm.
    + cbn [Runtime.listItemStep Adf.listItemStep].
      apply (Tracks_same _
               (ret match Adf.convertInlineTokens inline [] with
                    | [] => []
                    | _ => [paragraph (Adf.convertInlineTokens inline [])]
                    end));
        [intros s; now destruct (Adf.convertInlineTokens inline [])|].
      apply Calm_Tracks.
      apply (Calm_result _
               (rbind (Ok (Adf.convertInlineTokens inline []))
                  (fun inlineNodes =>
                     Ok match inlineNodes with
                        | [] => []
                        | _ => [paragraph inlineNodes]
                        end))); [reflexivity|].
      apply Calm_andThen; [apply convertInlineTokens_calm|].
      intros [|n inlineNodes] _; apply Calm_pure.
  - assert (Hblock : Tracks (Runtime.convertBlockToken uuid (Blockquote tokens))
                       (Adf.convertBlockToken uuid (Blockquote tokens))).
    { rewrite stack_convertBlockToken_quote, AdfFacts.convertBlockToken_quote.
      apply Tracks_call.
      apply (Tracks_same _
               (bind (bind (Adf.convertBlockTokens uuid tokens)
                        (fun children =>
                           ret {| type := "blockquote"; attrs := None;
                                  content := Some children;
                                  text := None; marks := None |}))
                  (fun quote => ret (Some [quote]))));
        [intros s; now rewrite !AdfFacts.bind_run|].
      apply (Tracks_value _ _ (fun quote => Some [quote])).
      apply Tracks_call.
      apply (Tracks_value _ _
               (fun children =>
                  {| type := "blockquote"; attrs := None;
                     content := Some children; text := None; marks := None |})).
      apply Tracks_call, Tracks_forEach.
      revert IH. apply Forall_impl. intros t [Ht _].
      now apply blockNodes_tracks. }
    split; [exact Hblock|].
    now apply (Tracks_value _ _ (@orEmpty AdfNode)) in Hblock.
  - assert (Hlist : Tracks (Runtime.convertListWith (Runtime.convertListItem uuid)
                              ordered start items)
                      (Adf.convertList uuid ordered start items))
      by now apply convertList_tracks.
    split.
    + rewrite stack_convertBlockToken_list, AdfFacts.convertBlockToken_list.
      apply Tracks_call.
      now apply (Tracks_value _ _ (fun list => Some [list])).
    + now apply (Tracks_value _ _ (fun list => [list])).
  - rewrite stack_convertListItem_loop, AdfFacts.convertListItem_loop.
    apply Tracks_call. apply (Tracks_value _ _ listItemNode).
    apply Tracks_forEach. revert IH. apply Forall_impl. intros t Ht.
    apply Ht.
Qed.

Lemma convertBlockTokens_tracks (tokens : list Token) :
  Tracks (Runtime.convertBlockTokens uuid tokens)
    (Adf.convertBlockTokens uuid tokens).
Proof.
  apply Tracks_call, Tracks_forEach, Forall_forall. intros t _.
  apply blockNodes_tracks, convert_tracks.
Qed.

Lemma markdownToAdf_tracks (lexer : string -> Result (list Token))
    (markdown : string) (tokens : list Token) :
  lexer markdown = Ok tokens ->
  Tracks (Runtime.markdownToAdf uuid lexer markdown)
    (Adf.markdownToAdf uuid (fun _ => tokens) markdown).
Proof.
  intros E.
  apply (Tracks_run
           (run! nodes <- Runtime.convertBlockTokens uuid tokens ;;
            pure {| doc_type := "doc";
                    doc_content := match nodes with
                                   | [] => [paragraph []]
                                   | _ => nodes
                                   end;
                    doc_version := 1 |})).
  { intros frames s. unfold Runtime.markdownToAdf, andThen at 3, lift.
    now rewrite E. }
  apply (Tracks_value _ _
           (fun nodes =>
              {| doc_type := "doc";
                 doc_content := match nodes with
                                | [] => [paragraph []]
                                | _ => nodes
                                end;
                 doc_version := 1 |})).
  apply convertBlockTokens_tracks.
Qed.





(** Two conversions in a row of one mermaid block. *)
Lemma markdownToAdf_twice (lexer : string -> Result (list Token))
    (markdown code : string) (s : nat) :
  lexer markdown = Ok [Code (Some "mermaid") code] ->
  uuid s <> uuid (S s) ->
  exists n, forall frames, n <= frames ->
    exists a b,
      fst ((run! a <- Runtime.markdownToAdf uuid lexer markdown ;;
            run! b <- Runtime.markdownToAdf uuid lexer markdown ;;
            pure (a, b)) frames s) = Ok (a, b)
      /\ a <> b.
Proof.
  intros E Hne.
  destruct (markdownToAdf_tracks lexer markdown _ E) as [n H].
  exists n. intros frames L. unfold andThen.
  rewrite (proj1 (H frames s) L).
  rewrite (proj1 (H frames _) L). cbn [pure fst].
  eexists. eexists. split; [reflexivity|].
  rewrite !AdfFacts.markdownToAdf_run. cbn [fst snd].
  unfold Adf.convertBlockTokens. rewrite !AdfFacts.pushAll_cons.
  cbn. intros Heq. injection Heq as Heq. now elim Hne.
Qed.

End AdfRun.

End RuntimeFacts.

Module Contract.
Import JsString Adf Runtime RuntimeProps.
Local Open Scope list_scope.

Section Renderers.
Variable new_URL_host : string -> Result string.
Variable lexer : string -> Result (list Token).
Variable defaultInline : Inline -> string -> string.
Variable defaultBlock : Token -> list string -> string.
Variable uuid : nat -> string.

Local Abbreviation markdownToStorageFormat :=
  (Runtime.markdownToStorageFormat new_URL_host lexer defaultInline
     defaultBlock).
Local Abbreviation markdownToAdf := (Runtime.markdownToAdf uuid lexer).


(** C10.  markdownToStorageFormat draws no identifier, whatever the
    call does, and what it does with a given stack does not depend on
    the identifiers drawn before the call; so two calls that return,
    any time and with any stack, return the same string.  markdownToAdf
    is different: on an input that is one mermaid block, two calls in a
    row return different documents as soon as the generator hands out
    two different identifiers. *)
Theorem storage_deterministic (markdown : string)
    (frames1 frames2 s1 s2 : nat) :
  snd (markdownToStorageFormat markdown frames1 s1) = s1
  /\ fst (markdownToStorageFormat markdown frames1 s1)
     = fst (markdownToStorageFormat markdown frames1 s2)
  /\ (forall out1 out2,
        fst (markdownToStorageFormat markdown frames1 s1) = Ok out1 ->
        fst (markdownToStorageFormat markdown frames2 s2) = Ok out2 ->
        out1 = out2)
  /\ (forall code,
        lexer markdown = Ok [Code (Some "mermaid") code] ->
        uuid s1 <> uuid (S s1) ->
        exists n, forall frames, n <= frames ->
          exists a b,
            fst ((run! a <- markdownToAdf markdown ;;
                  run! b <- markdownToAdf markdown ;;
                  pure (a, b)) frames s1) = Ok (a, b)
            /\ a <> b).
Proof.
  pose proof (RuntimeFacts.markdownToStorageFormat_calm new_URL_host
                defaultInline defaultBlock lexer markdown) as H.
  split; [now apply (RuntimeFacts.Calm_state _ _ H)|].
  split; [|split].
  - destruct (RuntimeFacts.Calm_outcome _ _ H frames1) as [E | E];
      now rewrite !E.
  - intros out1 out2 H1 H2.
    destruct (RuntimeFacts.Calm_outcome _ _ H frames1) as [E1 | E1];
      rewrite E1 in H1; [|discriminate].
    destruct (RuntimeFacts.Calm_outcome _ _ H frames2) as [E2 | E2];
      rewrite E2 in H2; [|discriminate].
    rewrite H1 in H2. now injection H2.
  - intros code E Hne. now apply (RuntimeFacts.markdownToAdf_twice uuid lexer
                                    markdown code s1).
Qed.

End Renderers.



Lemma storage_deterministic_witness :
  exists n, forall frames, n <= frames ->
    exists a b,
      fst ((run! a <- Runtime.markdownToAdf Fixture.countingUuid
                        Fixture.deepLexer Fixture.oneDiagram ;;
            run! b <- Runtime.markdownToAdf Fixture.countingUuid
                        Fixture.deepLexer Fixture.oneDiagram ;;
            pure (a, b)) frames 0) = Ok (a, b)
      /\ a <> b.
Proof.
  destruct (storage_deterministic Fixture.sameHost Fixture.deepLexer
              Fixture.plainInline Fixture.plainBlock Fixture.countingUuid
              Fixture.oneDiagram 0 0 0 0) as (_ & _ & _ & H).
  apply (H ("graph TD" ++ nl ++ "    A --> B")%string).
  - reflexivity.
  - discriminate.
Defined.

End Contract.


(* ================================================================== *)
(** ** The tests of the repository, replayed *)
(* ================================================================== *)

Module Examples.
Import JsString Storage Adf AdfProps Props.

(** "should handle CDATA escape sequences in code blocks". *)
Example escapeCdata_foo_bar :
  escapeCdata "foo ]]> bar" = "foo ]]]]><![CDATA[> bar"
  /\ characterData ("<![CDATA[" ++ escapeCdata "foo ]]> bar" ++ "]]>")
     = Some "foo ]]> bar".
Proof. split; reflexivity. Qed.

Example escapeCdata_overlapping :
  escapeCdata "]]]>>" = "]]]]]><![CDATA[>>".
Proof. reflexivity. Qed.

Example escapeXml_reserved :
  escapeXml ("a<b & c>" ++ dq ++ "'") = "a&lt;b &amp; c&gt;&quot;&apos;".
Proof. reflexivity. Qed.

(** The example of the comment of [mdHrefToPageTitle]. *)
Example mdHrefToPageTitle_sample :
  mdHrefToPageTitle "docs/sample-short.md#section" = Ok "sample-short".
Proof. reflexivity. Qed.

Example testMdSuffix_samples :
  testMdSuffix "sample-short.md" = true
  /\ testMdSuffix "docs/sample-short.md#section" = true
  /\ testMdSuffix "https://example.com" = false
  /\ testMdSuffix "notes.md.txt" = false.
Proof. repeat split. Qed.

(** "should generate unique localIds for multiple mermaid blocks". *)
Example two_diagrams :
  let doc :=
    fst (markdownToAdf Fixture.countingUuid Fixture.lexer Fixture.twoDiagrams 0) in
  map type (doc_content doc)
  = ["codeBlock"; "extension"; "codeBlock"; "extension"]%list
  /\ map attrs (filter isExtension (doc_content doc))
     = map attrs [extensionNode "id"; extensionNode "id'"]%list.
Proof. split; reflexivity. Qed.

(** "should convert standalone images to mediaSingle". *)
Example standalone_image :
  doc_content
    (fst (markdownToAdf Fixture.countingUuid Fixture.lexer
            "![Alt text](https://example.com/image.png)" 0))
  = [mediaSingleOf ("https://example.com/image.png", "Alt text")]%list.
Proof. reflexivity. Qed.

(** "should convert unordered lists". *)
Example unordered_list :
  doc_content
    (fst (markdownToAdf Fixture.countingUuid Fixture.lexer
            ("- Item 1" ++ nl ++ "- Item 2") 0))
  = [listNode false NoStart
       [listItemNode [paragraph [textNode "Item 1" []]];
        listItemNode [paragraph [textNode "Item 2" []]]]]%list.
Proof. reflexivity. Qed.

(** An item without tokens gets the empty paragraph. *)
Example empty_item :
  fst (convertListItem Fixture.countingUuid (list_item []) 0)
  = listItemNode [emptyParagraph].
Proof. reflexivity. Qed.

End Examples.


(* ================================================================== *)
(** ** Further properties of the storage format helpers *)
(* ================================================================== *)

Module MoreStorageFacts.
Import JsString JsStringFacts Storage Props MoreProps StorageFacts RendererFacts.

Ltac each_unit c :=
  destruct c as [b0 b1 b2 b3 b4 b5 b6 b7];
  destruct b0, b1, b2, b3, b4, b5, b6, b7.

Lemma allUnits_append (p : ascii -> bool) (a b : string) :
  allUnits p (a ++ b) = (allUnits p a && allUnits p b)%bool.
Proof.
  induction a as [|c a IH]; [reflexivity|]. simpl.
  now rewrite IH, andb_assoc.
Qed.

Lemma countUnit_append (c : ascii) (a b : string) :
  countUnit c (a ++ b) = countUnit c a + countUnit c b.
Proof.
  induction a as [|x a IH]; [reflexivity|]. simpl. rewrite IH. lia.
Qed.

Lemma escapeXml_cons (c : ascii) (text : string) :
  escapeXml (String c text) = entityOf c ++ escapeXml text.
Proof.
  change (String c text) with (String c "" ++ text).
  now rewrite escapeXml_append, escapeXml_unit.
Qed.

Lemma escapeXml_plain (text : string) :
  hasReserved text = false -> escapeXml text = text.
Proof.
  unfold hasReserved. intros H. apply negb_false_iff in H.
  induction text as [|c text IH]; [reflexivity|].
  simpl in H. apply andb_true_iff in H. destruct H as [Hc Ht].
  apply negb_true_iff in Hc.
  now rewrite escapeXml_cons, (entityOf_plain c Hc), (IH Ht).
Qed.

(** *** What escapeXml writes *)

Lemma wellEscaped_entity (c : ascii) (t : string) :
  wellEscaped (entityOf c ++ t) = wellEscaped t.
Proof. each_unit c; cbn; rewrite ?prefix_nil; reflexivity. Qed.

Lemma entity_no_markup (c : ascii) :
  allUnits (fun x => negb (isMarkup x)) (entityOf c) = true.
Proof. each_unit c; reflexivity. Qed.

Lemma escapeXml_no_markup (text : string) :
  allUnits (fun x => negb (isMarkup x)) (escapeXml text) = true.
Proof.
  induction text as [|c text IH]; [reflexivity|].
  now rewrite escapeXml_cons, allUnits_append, entity_no_markup, IH.
Qed.

(** X1.  What [escapeXml] returns can stand between the quotes of an
    attribute: it holds no "<", no ">", no double quote and no
    apostrophe, and every ampersand in it starts one of the five
    entities. *)
Theorem escapeXml_attribute_safe (text : string) :
  allUnits (fun x => negb (isMarkup x)) (escapeXml text) = true
  /\ wellEscaped (escapeXml text) = true.
Proof.
  split; [apply escapeXml_no_markup|].
  induction text as [|c text IH]; [reflexivity|].
  now rewrite escapeXml_cons, wellEscaped_entity.
Qed.

Lemma unescapeFrom_drop (n : nat) (s : string) :
  unescapeFrom n s = unescapeXml (drop n s).
Proof.
  revert n; induction s as [|c s IH]; intros [|n]; try reflexivity.
  simpl. apply IH.
Qed.

Lemma unescape_entity (c : ascii) (t : string) :
  unescapeXml (entityOf c ++ t) = String c (unescapeXml t).
Proof.
  unfold unescapeXml.
  each_unit c; cbn; rewrite ?prefix_nil; reflexivity.
Qed.

(** X2.  Escaping loses nothing: reading the five entities back gives
    the text that was escaped. *)
Theorem escapeXml_round_trip (text : string) :
  unescapeXml (escapeXml text) = text.
Proof.
  induction text as [|c text IH]; [reflexivity|].
  now rewrite escapeXml_cons, unescape_entity, IH.
Qed.

(** X3.  [escapeXml] works unit by unit: escaping a concatenation is
    concatenating the escaped parts, so a value may be escaped in
    pieces, and the empty string stays empty. *)
Theorem escapeXml_concat (a b : string) :
  escapeXml (a ++ b) = escapeXml a ++ escapeXml b
  /\ escapeXml "" = "".
Proof. split; [apply escapeXml_append | reflexivity]. Qed.

Lemma hasReserved_append (a b : string) :
  hasReserved (a ++ b) = (hasReserved a || hasReserved b)%bool.
Proof. unfold hasReserved. now rewrite allUnits_append, negb_andb. Qed.

Lemma hasReserved_entity (c : ascii) : hasReserved (entityOf c) = isReserved c.
Proof. each_unit c; reflexivity. Qed.

Lemma hasReserved_escapeXml (text : string) :
  hasReserved (escapeXml text) = hasReserved text.
Proof.
  induction text as [|c text IH]; [reflexivity|].
  rewrite escapeXml_cons, hasReserved_append, hasReserved_entity, IH.
  unfold hasReserved. simpl. now rewrite negb_andb, negb_involutive.
Qed.

Lemma entity_length (c : ascii) :
  1 <= String.length (entityOf c)
  /\ (isReserved c = true -> 4 <= String.length (entityOf c)).
Proof. each_unit c; cbn; split; try lia; discriminate. Qed.

Lemma escapeXml_length (text : string) :
  String.length text <= String.length (escapeXml text)
  /\ (hasReserved text = true ->
      String.length text < String.length (escapeXml text)).
Proof.
  induction text as [|c text [IH1 IH2]];
    [split; [apply le_n | intros H; cbn in H; discriminate]|].
  rewrite escapeXml_cons, length_append.
  destruct (entity_length c) as [L1 L4]. cbn [String.length]. split; [lia|].
  unfold hasReserved. cbn [allUnits]. rewrite negb_andb, negb_involutive.
  intros H. apply orb_true_iff in H. destruct H as [H|H].
  - specialize (L4 H). lia.
  - specialize (IH2 H). lia.
Qed.

(** X4.  Escaping twice is not neutral: the second pass changes the
    result exactly when the text holds a reserved character (it escapes
    the ampersands of the first pass again). *)
Theorem escapeXml_twice (text : string) :
  escapeXml (escapeXml text) = escapeXml text <-> hasReserved text = false.
Proof.
  split.
  - intros E. destruct (hasReserved text) eqn:H; [|reflexivity].
    rewrite <- hasReserved_escapeXml in H.
    destruct (escapeXml_length (escapeXml text)) as [_ L].
    specialize (L H). rewrite E in L. lia.
  - intros H. rewrite (escapeXml_plain text H). now apply escapeXml_plain.
Qed.

Lemma escapeXml_twice_witness :
  escapeXml (escapeXml "Season Highlights") = escapeXml "Season Highlights".
Proof. apply (escapeXml_twice "Season Highlights"). reflexivity. Defined.

(** *** escapeCdata *)

Lemma escapeCdata_growth (text : string) :
  (contains "]]>" text = false -> escapeCdata text = text)
  /\ String.length text <= String.length (escapeCdata text)
  /\ (contains "]]>" text = true ->
      String.length text < String.length (escapeCdata text)).
Proof.
  induction text as [| s (IH1 & IH2 & IH3) | c s Hp (IH1 & IH2 & IH3)]
    using terminator_ind.
  - split; [reflexivity|]. split; [apply le_n | discriminate].
  - rewrite escapeCdata_match, !length_append. cbn [String.length].
    split; [|split]; [| lia | lia].
    change ("]]>" ++ s) with (String "]" (String "]" (String ">" s))).
    cbn [contains]. change (String "]" (String "]" (String ">" s))) with ("]]>" ++ s).
    rewrite (prefix_append "]]>" s). discriminate.
  - rewrite escapeCdata_step by exact Hp. cbn [contains String.length].
    rewrite Hp. cbn [orb]. split; [|split].
    + intros H. now rewrite (IH1 H).
    + lia.
    + intros H. specialize (IH3 H). lia.
Qed.

(** X5.  [escapeCdata] leaves a text without "]]>" as it is, and makes
    every other text longer; it never shortens a text. *)
Theorem escapeCdata_identity (text : string) :
  (escapeCdata text = text <-> contains "]]>" text = false)
  /\ String.length text <= String.length (escapeCdata text).
Proof.
  destruct (escapeCdata_growth text) as (H1 & H2 & H3).
  split; [|exact H2]. split; [|exact H1].
  intros E. destruct (contains "]]>" text); [|reflexivity].
  specialize (H3 eq_refl). rewrite E in H3. lia.
Qed.

Lemma escapeCdata_identity_witness :
  escapeCdata "graph TD" = "graph TD".
Proof. apply (proj1 (escapeCdata_identity "graph TD")). reflexivity. Defined.

(** *** The page title *)

Lemma hasUnit_cons (c x : ascii) (s : string) :
  hasUnit c (String x s) = (Ascii.eqb x c || hasUnit c s)%bool.
Proof. unfold hasUnit. simpl. now rewrite negb_andb, negb_involutive. Qed.

Lemma split_pieces (c sep : ascii) (s : string) :
  (Ascii.eqb c sep = true \/ hasUnit c s = false) ->
  Forall (fun piece => hasUnit c piece = false) (split sep s).
Proof.
  intros H. induction s as [|x s IH]; simpl.
  - now constructor.
  - assert (Hs : Ascii.eqb c sep = true \/ hasUnit c s = false).
    { destruct H as [H|H]; [now left|]. right.
      rewrite hasUnit_cons in H. now apply orb_false_iff in H. }
    specialize (IH Hs). destruct (Ascii.eqb x sep) eqn:Ex.
    + now constructor.
    + assert (Hx : Ascii.eqb x c = false).
      { destruct H as [H|H].
        - apply Ascii.eqb_eq in H. subst sep. exact Ex.
        - rewrite hasUnit_cons in H. now apply orb_false_iff in H. }
      destruct (split sep s) as [|piece pieces].
      * constructor; [|constructor]. now rewrite hasUnit_cons, Hx.
      * constructor; [|now apply (Forall_inv_tail IH)].
        now rewrite hasUnit_cons, (Forall_inv IH), Hx.
Qed.

Lemma pop_In (a : list string) (x : string) : pop a = Some x -> In x a.
Proof.
  induction a as [|y a IH]; [discriminate|].
  destruct a as [|z a]; simpl.
  - intros E. injection E as ->. now left.
  - intros E. right. now apply IH.
Qed.

Lemma removeAtEnd_keeps (c : ascii) (suf s : string) :
  hasUnit c s = false -> hasUnit c (removeAtEnd suf s) = false.
Proof.
  induction s as [|x s IH]; intros H.
  - cbn [removeAtEnd]. destruct (String.eqb "" suf); reflexivity.
  - cbn [removeAtEnd]. destruct (String.eqb (String x s) suf); [reflexivity|].
    rewrite hasUnit_cons in *. apply orb_false_iff in H. destruct H as [-> H].
    now rewrite (IH H).
Qed.

(** X7.  [mdHrefToPageTitle] returns for every href, and the title it
    returns holds no "/" and no "#": directories and fragment are gone
    whatever the href looks like. *)
Theorem page_title_is_a_name (href : string) :
  exists pageTitle,
    mdHrefToPageTitle href = Ok pageTitle
    /\ hasUnit "/" pageTitle = false
    /\ hasUnit "#" pageTitle = false.
Proof.
  unfold mdHrefToPageTitle.
  pose proof (split_pieces "#" "#" href (or_introl eq_refl)) as Hhash.
  destruct (split "#" href) as [|withoutFragment l] eqn:E;
    [now elim (split_not_nil "#" href)|].
  cbn [first hd_error]. apply Forall_inv in Hhash.
  destruct (pop_some (split "/" withoutFragment) (split_not_nil _ _))
    as [file Hpop].
  rewrite Hpop. exists (removeAtEnd ".md" file). split; [reflexivity|].
  apply pop_In in Hpop. split; apply removeAtEnd_keeps.
  - pose proof (split_pieces "/" "/" withoutFragment (or_introl eq_refl)) as H.
    rewrite Forall_forall in H. now apply H.
  - pose proof (split_pieces "#" "/" withoutFragment (or_intror Hhash)) as H.
    rewrite Forall_forall in H. now apply H.
Qed.

(** *** The image macro *)

Lemma countUnit_none (c : ascii) (p : ascii -> bool) (s : string) :
  p c = false -> allUnits p s = true -> countUnit c s = 0.
Proof.
  intros Hc. induction s as [|x s IH]; [reflexivity|]. simpl. intros H.
  apply andb_true_iff in H. destruct H as [Hx Hs].
  destruct (Ascii.eqb_spec x c) as [->|_]; [congruence|]. now apply IH.
Qed.

Lemma escapeXml_counts (text : string) :
  countUnit "034" (escapeXml text) = 0
  /\ countUnit "<" (escapeXml text) = 0
  /\ countUnit ">" (escapeXml text) = 0.
Proof.
  pose proof (escapeXml_no_markup text) as H.
  repeat split;
    apply (countUnit_none _ (fun x => negb (isMarkup x))); trivial.
Qed.

(** X8.  The image macro is well formed whatever the alternative text,
    the title and the URL hold: it has three "<" and three ">" (the
    opening tag, the ri:url tag and the closing tag) and two double
    quotes per attribute, where ac:alt is there exactly for a non-empty
    alternative text and ac:title exactly for a non-empty title. *)
Theorem image_macro_well_formed (href : string) (title : option string)
    (text : string) :
  countUnit "<" (image href title text) = 3
  /\ countUnit ">" (image href title text) = 3
  /\ countUnit "034" (image href title text)
     = 2 * (1 + (if isEmpty text then 0 else 1)
              + (if truthy title then 1 else 0)).
Proof.
  unfold image, dq, truthy.
  destruct (escapeXml_counts href) as (Hq & Hl & Hg).
  destruct (escapeXml_counts text) as (Tq & Tl & Tg).
  destruct title as [t|]; [destruct (escapeXml_counts t) as (Uq & Ul & Ug);
                           destruct (isEmpty t)|];
    destruct (isEmpty text); cbn [negb];
    rewrite !countUnit_append, ?Hq, ?Hl, ?Hg, ?Tq, ?Tl, ?Tg, ?Uq, ?Ul, ?Ug;
    repeat split; reflexivity.
Qed.

(** *** The test of the href *)

Section Resolver.
Variable new_URL_host : string -> Result string.

(** X6.  [isMarkdownFileLink] accepts an href exactly when the href ends
    in ".md", optionally followed by "#" and a fragment without line
    break, and the URL constructor does not resolve it to a host other
    than "dummy"; when the constructor throws, the ending alone
    decides. *)
Theorem markdown_file_link_exactly (href : string) :
  (isMarkdownFileLink new_URL_host href = true
   <-> endsInMd href /\ (forall h, new_URL_host href = Ok h -> h = "dummy"))
  /\ (forall e, new_URL_host href = Throw e ->
      (isMarkdownFileLink new_URL_host href = true <-> endsInMd href)).
Proof.
  split.
  - split.
    + intros H. split; [now apply (isMarkdownFileLink_endsInMd new_URL_host)|].
      intros h E. destruct (String.eqb_spec h "dummy") as [->|Hne];
        [reflexivity|].
      rewrite (isMarkdownFileLink_foreign new_URL_host href h E Hne) in H.
      discriminate.
    + intros [Hmd Hhost].
      rewrite (isMarkdownFileLink_local new_URL_host href Hhost).
      now apply testMdSuffix_endsInMd.
  - intros e E. unfold isMarkdownFileLink. rewrite E.
    apply testMdSuffix_endsInMd.
Qed.

End Resolver.

Lemma markdown_file_link_exactly_witness :
  isMarkdownFileLink Fixture.sameHost "docs/guide.md#install" = true.
Proof.
  apply (proj1 (markdown_file_link_exactly Fixture.sameHost
                  "docs/guide.md#install")).
  split.
  - exists "docs/guide", "#install". split; [reflexivity|].
    right. now exists "install".
  - intros h E. now injection E as <-.
Defined.

End MoreStorageFacts.



(* ================================================================== *)
(** ** Further properties of the ADF renderer *)
(* ================================================================== *)

Module MoreAdfFacts.
Import JsString Adf AdfProps MoreProps MarkedFacts AdfFacts.
Local Open Scope list_scope.

(** *** White space and image-only paragraphs *)

Lemma trimEnd_empty (s : string) :
  isEmpty (trimEnd s) = allUnits isWhiteSpace s.
Proof.
  induction s as [|c s IH]; [reflexivity|]. cbn [trimEnd allUnits].
  destruct (trimEnd s) as [|k kept]; cbn [isEmpty] in *; rewrite <- IH.
  - rewrite andb_true_r. now destruct (isWhiteSpace c).
  - now rewrite andb_false_r.
Qed.

Lemma allUnits_trimStart (s : string) :
  allUnits isWhiteSpace (trimStart s) = allUnits isWhiteSpace s.
Proof.
  induction s as [|c s IH]; [reflexivity|]. cbn [trimStart].
  destruct (isWhiteSpace c) eqn:E; [|reflexivity].
  cbn [allUnits]. now rewrite E, IH.
Qed.

Lemma trim_empty (s : string) : isEmpty (trim s) = allUnits isWhiteSpace s.
Proof. unfold trim. now rewrite trimEnd_empty, allUnits_trimStart. Qed.

Lemma isBlankText_run (t : Inline) : isBlankText t = isBlankRun t.
Proof. destruct t; try reflexivity. apply trim_empty. Qed.

Lemma isImageOnlyParagraph_test (tokens : list Inline) :
  isImageOnlyParagraph tokens = imageOnlyb tokens.
Proof.
  unfold isImageOnlyParagraph, imageOnlyb.
  assert (Hall : forallb isImage (filter (fun t => negb (isBlankText t)) tokens)
                 = forallb (fun t => isImage t || isBlankRun t) tokens).
  { induction tokens as [|t rest IH]; [reflexivity|]. cbn [filter forallb].
    rewrite <- isBlankText_run. destruct (isBlankText t); cbn [negb forallb].
    - now rewrite orb_true_r.
    - now rewrite orb_false_r, IH. }
  rewrite Hall.
  destruct (forallb (fun t => isImage t || isBlankRun t) tokens) eqn:H;
    [|now rewrite !andb_false_r].
  rewrite !andb_true_r. clear Hall.
  induction tokens as [|t rest IH]; [reflexivity|].
  cbn [forallb] in H. apply andb_true_iff in H. destruct H as [Ht Hrest].
  cbn [filter existsb]. rewrite <- isBlankText_run in Ht.
  destruct (isImage t) eqn:Hi.
  - destruct t; try discriminate. reflexivity.
  - cbn [orb] in *. rewrite Ht. cbn [negb]. now apply IH.
Qed.

Lemma imageOnlyb_spec (tokens : list Inline) :
  imageOnlyb tokens = true <-> imageOnly tokens.
Proof.
  unfold imageOnlyb, imageOnly. rewrite andb_true_iff, existsb_exists,
    forallb_forall, Exists_exists, Forall_forall.
  split; intros [Hex Hall]; (split; [exact Hex|]); intros t Ht;
    specialize (Hall t Ht).
  - apply orb_true_iff in Hall. destruct Hall as [H|H]; [now left|].
    right. destruct t; try discriminate. now eexists.
  - apply orb_true_iff. destruct Hall as [H|(value & -> & H)];
      [now left | now right].
Qed.

(** X14.  The test of [convertParagraphNodes] holds exactly for the
    image-only paragraphs.  Every other paragraph - text with or without
    images, white space alone, no token at all - becomes one paragraph
    node around the inline conversion of its tokens. *)
Theorem paragraph_wrapper (tokens : list Inline) :
  (isImageOnlyParagraph tokens = true <-> imageOnly tokens)
  /\ (~ imageOnly tokens ->
      convertParagraphNodes (Some tokens)
      = [paragraph (convertInlineTokens tokens [])])
  /\ convertParagraphNodes None = [paragraph []].
Proof.
  split; [|split].
  - rewrite isImageOnlyParagraph_test. apply imageOnlyb_spec.
  - intros H. unfold convertParagraphNodes. cbn [orEmpty].
    destruct (isImageOnlyParagraph tokens) eqn:E; [|reflexivity].
    elim H. apply imageOnlyb_spec. now rewrite <- isImageOnlyParagraph_test.
  - reflexivity.
Qed.

Lemma paragraph_wrapper_witness :
  convertParagraphNodes
    (Some [Text "See "; Image "https://example.com/a.png" None "logo"])
  = [paragraph
       (convertInlineTokens
          [Text "See "; Image "https://example.com/a.png" None "logo"] [])].
Proof.
  destruct (paragraph_wrapper
              [Text "See "; Image "https://example.com/a.png" None "logo"])
    as (Hiff & Hwrap & _).
  apply Hwrap. intros H. apply Hiff in H. discriminate H.
Defined.

(** *** Marks *)

Lemma Under_single (path : list Inline) (leaf t : Inline)
    (tokens : list Inline) :
  Under path leaf [t] -> In t tokens -> Under path leaf tokens.
Proof.
  intros H Hin. inversion H as [l ts Hl Hm | w p l ts Hw Hm Hu]; subst.
  - destruct Hl as [<-|[]]. now apply under_here.
  - destruct Hw as [<-|[]]. now apply under_inside.
Qed.

Lemma stamped_single (t : Inline) (tokens : list Inline)
    (active : list AdfMark) (n : AdfNode) :
  stamped [t] active n -> In t tokens -> stamped tokens active n.
Proof.
  intros (H0 & [H|(Ht & path & leaf & Hu & Htext & Hm)]) Hin;
    (split; [exact H0|]); [now left|].
  right. split; [exact Ht|]. exists path, leaf.
  split; [|now split]. now apply (Under_single path leaf t).
Qed.

Lemma stamped_inside (w : Inline) (m : AdfMark) (active : list AdfMark)
    (n : AdfNode) :
  markOf w = Some m ->
  stamped (heldBy w) (active ++ [m]) n -> stamped [w] active n.
Proof.
  intros Hw (H0 & [H|(Ht & path & leaf & Hu & Htext & Hm)]);
    (split; [exact H0|]); [now left|].
  right. split; [exact Ht|]. exists (w :: path), leaf.
  split; [|split; [exact Htext|]].
  - apply under_inside; [now left | congruence | exact Hu].
  - cbn [pathMarks flat_map]. rewrite Hw. fold (pathMarks path).
    now rewrite Hm, <- !app_assoc.
Qed.

Lemma stamped_leaf (leaf : Inline) (active : list AdfMark) (value : string) :
  markOf leaf = None -> textOf leaf = Some value ->
  stamped [leaf] active
    {| type := "text"; attrs := None; content := None; text := Some value;
       marks := match active ++ ownMarks leaf with
                | [] => None
                | ms => Some ms
                end |}.
Proof.
  intros Hm Ht. split.
  - cbn [marks]. now destruct (active ++ ownMarks leaf).
  - right. split; [reflexivity|]. exists [], leaf.
    split; [apply under_here; [now left | exact Hm]|].
    split; [now rewrite Ht|]. unfold marksOf. cbn [marks pathMarks flat_map app].
    now destruct (active ++ ownMarks leaf).
Qed.

Lemma textNode_plain (value : string) (active : list AdfMark) :
  textNode value active
  = {| type := "text"; attrs := None; content := None; text := Some value;
       marks := match active ++ [] with
                | [] => None
                | ms => Some ms
                end |}.
Proof. unfold textNode. rewrite app_nil_r. now destruct active. Qed.

Lemma marked_node (active : list AdfMark) (m : AdfMark) :
  Some (active ++ [m])
  = match active ++ [m] with
    | [] => None
    | ms => Some ms
    end.
Proof. now destruct active. Qed.

Lemma convertInlineToken_wrapper (w : Inline) (m : AdfMark)
    (active : list AdfMark) :
  markOf w = Some m ->
  convertInlineToken active w = convertInlineTokens (heldBy w) (active ++ [m]).
Proof.
  destruct w; try discriminate; intros H; injection H as <-; reflexivity.
Qed.

Lemma convertInlineToken_text (leaf : Inline) (active : list AdfMark)
    (value : string) :
  markOf leaf = None -> textOf leaf = Some value ->
  convertInlineToken active leaf
  = [{| type := "text"; attrs := None; content := None; text := Some value;
        marks := match active ++ ownMarks leaf with
                 | [] => None
                 | ms => Some ms
                 end |}].
Proof.
  intros Hm Ht.
  destruct leaf as [v | v | v | | href title alt | | | | v | | kind [v|]];
    try discriminate; injection Ht as <-;
    cbn [convertInlineToken ownMarks];
    try (now rewrite textNode_plain); now rewrite <- marked_node.
Qed.

Lemma convertInlineToken_stamped (token : Inline) :
  forall active,
    Forall (stamped [token] active) (convertInlineToken active token).
Proof.
  assert (Nest : forall (w : Inline) (m : AdfMark) (active : list AdfMark),
             markOf w = Some m ->
             Forall (fun t => forall a, Forall (stamped [t] a)
                                          (convertInlineToken a t))
               (heldBy w) ->
             Forall (stamped [w] active) (convertInlineToken active w)).
  { intros w m active Hw IH. rewrite (convertInlineToken_wrapper w m active Hw).
    unfold convertInlineTokens. apply Forall_flat_map.
    rewrite Forall_forall in IH. apply Forall_forall. intros t Ht.
    generalize (IH t Ht (active ++ [m])). apply Forall_impl. intros n Hn.
    apply (stamped_inside w m active n Hw).
    now apply (stamped_single t). }
  induction token as [t Ht | href title tokens IH | tokens IH | tokens IH
                      | tokens IH] using Inline_induction; intros active;
    try (eapply Nest; [reflexivity | exact IH]).
  destruct (textOf t) as [value|] eqn:Etext.
  - assert (Hm : markOf t = None) by (destruct t; try reflexivity; contradiction).
    rewrite (convertInlineToken_text t active value Hm Etext).
    apply Forall_cons; [|apply Forall_nil]. now apply stamped_leaf.
  - destruct t as [v | v | v | | | | | | v | | kind [v|]];
      try contradiction; try discriminate; cbn [convertInlineToken];
      try apply Forall_nil.
    apply Forall_cons; [|apply Forall_nil].
    split; [discriminate | now left].
Qed.

Lemma convertInlineTokens_found (path : list Inline) (leaf : Inline)
    (tokens : list Inline) :
  Under path leaf tokens ->
  forall active value,
    textOf leaf = Some value ->
    exists n,
      In n (convertInlineTokens tokens active)
      /\ type n = "text" /\ text n = Some value
      /\ marksOf n = active ++ pathMarks path ++ ownMarks leaf.
Proof.
  induction 1 as [leaf tokens Hin Hm | w path leaf tokens Hin Hw _ IH];
    intros active value Ht.
  - eexists. split; [|split; [|split]].
    + unfold convertInlineTokens. apply in_flat_map. exists leaf.
      split; [exact Hin|].
      rewrite (convertInlineToken_text leaf active value Hm Ht). now left.
    + reflexivity.
    + reflexivity.
    + unfold marksOf. cbn [marks pathMarks flat_map app].
      now destruct (active ++ ownMarks leaf).
  - destruct (markOf w) as [m|] eqn:Em; [|now elim Hw].
    destruct (IH (active ++ [m]) value Ht) as (n & Hn & Hty & Htx & Hmk).
    exists n. split; [|split; [exact Hty|split; [exact Htx|]]].
    + unfold convertInlineTokens. apply in_flat_map. exists w.
      split; [exact Hin|]. now rewrite (convertInlineToken_wrapper w m active Em).
    + cbn [pathMarks flat_map]. rewrite Em. fold (pathMarks path).
      now rewrite Hmk, <- !app_assoc.
Qed.

(** X13.  Marks accumulate in the order of nesting.  Every node that
    [convertInlineTokens] returns for tokens converted under the marks
    [active] is a hard break without marks or the text node of a token
    of the input, and its marks are exactly [active], then the mark of
    every formatting token around that token from the outermost to the
    innermost (strong, em, strike for del, link with href and non-empty
    title), then code for a code span or a link to the image for an
    image; no node has an empty marks array.  And every token that
    shows a text has such a node in the result. *)
Theorem marks_accumulate (tokens : list Inline) (active : list AdfMark) :
  Forall (stamped tokens active) (convertInlineTokens tokens active)
  /\ (forall path leaf value,
        Under path leaf tokens -> textOf leaf = Some value ->
        exists n,
          In n (convertInlineTokens tokens active)
          /\ type n = "text" /\ text n = Some value
          /\ marksOf n = active ++ pathMarks path ++ ownMarks leaf).
Proof.
  split.
  - unfold convertInlineTokens. apply Forall_flat_map, Forall_forall.
    intros t Ht. generalize (convertInlineToken_stamped t active).
    apply Forall_impl. intros n Hn. now apply (stamped_single t).
  - intros path leaf value Hu Ht. now apply convertInlineTokens_found.
Qed.

Lemma marks_accumulate_witness :
  exists n,
    In n (convertInlineTokens
            [Strong [Text "a"; Em [Codespan "b"]]; Text "c"] [])
    /\ type n = "text" /\ text n = Some "b"
    /\ marksOf n = [mark "strong" None; mark "em" None; mark "code" None].
Proof.
  apply (proj2 (marks_accumulate
                  [Strong [Text "a"; Em [Codespan "b"]]; Text "c"] [])
           [Strong [Text "a"; Em [Codespan "b"]]; Em [Codespan "b"]]
           (Codespan "b") "b"); [|reflexivity].
  apply under_inside; [now left | discriminate|].
  apply under_inside; [right; now left | discriminate|].
  apply under_here; [now left | reflexivity].
Defined.

(** *** Tables and lists *)

Lemma tableRow_types (cellType : string) (cells : list TableCell) :
  map type (children (tableRow cellType cells))
  = repeat cellType (length cells).
Proof.
  unfold tableRow, children. cbn [content].
  induction cells as [|c cells IH]; [reflexivity|].
  cbn [map length repeat]. now rewrite IH.
Qed.

Lemma tableRow_cells (cellType : string) (cells : list TableCell) :
  type (tableRow cellType cells) = "tableRow"
  /\ Forall (fun cell => exists inline, content cell = Some [paragraph inline])
       (children (tableRow cellType cells)).
Proof.
  split; [reflexivity|]. unfold tableRow, children. cbn [content].
  apply Forall_forall. intros cell Hin. apply in_map_iff in Hin.
  destruct Hin as (c & <- & _). now eexists.
Qed.

(** X15.  A table node has one row for the header, when the header has
    a cell, followed by one row per body row; the header row holds one
    tableHeader per header cell, a body row one tableCell per cell, in
    order; every row is a tableRow and every cell holds exactly one
    paragraph. *)
Theorem table_shape (header : list TableCell) (rows : list (list TableCell)) :
  map (fun r => map type (children r)) (children (convertTable header rows))
  = match header with
    | [] => []
    | _ => [repeat "tableHeader" (length header)]
    end
    ++ map (fun row => repeat "tableCell" (length row)) rows
  /\ Forall (fun r => type r = "tableRow"
                      /\ Forall (fun cell => exists inline,
                                    content cell = Some [paragraph inline])
                           (children r))
       (children (convertTable header rows)).
Proof.
  change (children (convertTable header rows))
    with (match header with
          | [] => []
          | _ => [tableRow "tableHeader" header]
          end ++ map (tableRow "tableCell") rows).
  split.
  - rewrite map_app, map_map. f_equal.
    + destruct header; [reflexivity|]. cbn [map]. now rewrite tableRow_types.
    + apply map_ext. intros row. apply tableRow_types.
  - apply Forall_app. split.
    + destruct header; constructor; [apply tableRow_cells | constructor].
    + apply Forall_forall. intros r Hin. apply in_map_iff in Hin.
      destruct Hin as (row & <- & _). apply tableRow_cells.
Qed.

Lemma mapGen_length {A B : Type} (f : A -> Gen B) (l : list A) :
  forall s, length (fst (mapGen f l s)) = length l.
Proof.
  induction l as [|x l IH]; intros s; [reflexivity|].
  rewrite mapGen_cons. cbn [fst length]. now rewrite IH.
Qed.

Lemma mapGen_Forall {A B : Type} (P : B -> Prop) (f : A -> Gen B) (l : list A) :
  (forall x s, P (fst (f x s))) -> forall s, Forall P (fst (mapGen f l s)).
Proof.
  intros H. induction l as [|x l IH]; intros s; [constructor|].
  rewrite mapGen_cons. cbn [fst]. constructor; [apply H | apply IH].
Qed.

Lemma convertListItem_type (uuid : nat -> string) (item : ListItem) (s : nat) :
  type (fst (convertListItem uuid item s)) = "listItem".
Proof. destruct item. now rewrite convertListItem_loop, bind_run. Qed.

(** X16.  A list node is an orderedList or a bulletList as the token
    says; it has one child per item of the token, each a listItem; and
    it carries an order attribute, the start number, exactly when the
    list is ordered and starts at a number other than 1. *)
Theorem list_shape (uuid : nat -> string) (ordered : bool) (start : ListStart)
    (items : list ListItem) (s : nat) :
  type (fst (convertList uuid ordered start items s))
  = (if ordered then "orderedList" else "bulletList")
  /\ length (children (fst (convertList uuid ordered start items s)))
     = length items
  /\ Forall (fun c => type c = "listItem")
       (children (fst (convertList uuid ordered start items s)))
  /\ (forall n, attrs (fst (convertList uuid ordered start items s))
                = Some [("order", JNumber n)]
                <-> ordered = true /\ start = Start n /\ n <> 1%Z)
  /\ (attrs (fst (convertList uuid ordered start items s)) = None
      <-> ordered = false \/ start = NoStart \/ start = Start 1%Z).
Proof.
  rewrite convertList_run. cbn [fst]. unfold listNode, children.
  cbn [type content attrs]. split; [reflexivity|].
  split; [apply mapGen_length|].
  split; [apply mapGen_Forall; intros; apply convertListItem_type|].
  destruct start as [|n0]; [|destruct ordered; cbn [andb];
    [destruct (Z.eqb_spec n0 1) as [->|Hne]; cbn [negb]|]].
  - split; [intros n|]; split; try discriminate; try tauto.
    intros (_ & H & _). discriminate.
  - split; [intros n|]; split; try discriminate; try tauto.
    intros (_ & H & Hn). injection H as <-. now elim Hn.
  - split; [intros n|]; split.
    + intros H. injection H as <-. now repeat split.
    + intros (_ & H & _). now injection H as <-.
    + discriminate.
    + intros [H|[H|H]]; try discriminate. injection H as ->. now elim Hne.
  - split; [intros n|]; split; try discriminate; try tauto.
    intros (H & _). discriminate.
Qed.

Lemma list_shape_witness :
  attrs (fst (convertList Fixture.countingUuid true (Start 3)
                [list_item [TextBlock "a" (Some [Text "a"])]] 0))
  = Some [("order", JNumber 3)].
Proof.
  apply (list_shape Fixture.countingUuid true (Start 3)
           [list_item [TextBlock "a" (Some [Text "a"])]] 0).
  split; [reflexivity|]. split; [reflexivity | discriminate].
Defined.

(** *** Counting nodes *)

Lemma list_sum_cons (x : nat) (l : list nat) :
  list_sum (x :: l) = x + list_sum l.
Proof. reflexivity. Qed.

Lemma pushAll_length {A B : Type} (f : A -> Gen (list B)) (g : A -> nat)
    (l : list A) :
  (forall x s, length (fst (f x s)) = g x) ->
  forall s, length (fst (pushAll f l s)) = list_sum (map g l).
Proof.
  intros H. induction l as [|x l IH]; intros s; [reflexivity|].
  rewrite pushAll_cons. cbn [fst map]. rewrite list_sum_cons.
  now rewrite length_app, H, IH.
Qed.

Lemma blockNodes_count (uuid : nat -> string) (t : Token) (s : nat) :
  length (fst (blockNodes uuid t s)) = nodeCount t.
Proof.
  rewrite blockNodes_run. cbn [fst].
  destruct t as [| lang code | | | | | | raw | | inline | |];
    try reflexivity.
  - cbn [convertBlockToken]. rewrite bind_run. unfold convertCodeBlock.
    destruct lang as [l|]; [|reflexivity]. cbn [nodeCount].
    destruct (String.eqb l "mermaid"); reflexivity.
  - rewrite convertBlockToken_quote, bind_run. reflexivity.
  - rewrite convertBlockToken_list, bind_run. reflexivity.
  - cbn [convertBlockToken nodeCount]. rewrite trim_empty.
    destruct (allUnits isWhiteSpace raw); reflexivity.
  - cbn [convertBlockToken nodeCount ret fst orEmpty].
    unfold convertParagraphNodes. rewrite isImageOnlyParagraph_test.
    destruct (imageOnlyb (orEmpty inline)); [|reflexivity].
    now rewrite mediaSingles_spec, length_map, imagesOf_length.
Qed.

(** X9.  The number of nodes of a content sequence is the sum over its
    block tokens: one node for a heading, a table, a rule, a blockquote,
    a list, a code block and a paragraph; two for a mermaid code block;
    one per image for an image-only paragraph; one for an HTML token
    that is not white space; none for white-space HTML, space, def and
    any other token.  The document has that many nodes, and one when
    the sum is zero. *)
Theorem block_node_count (uuid : nat -> string) (lexer : string -> list Token)
    (tokens : list Token) (markdown : string) (s : nat) :
  length (fst (convertBlockTokens uuid tokens s))
  = list_sum (map nodeCount tokens)
  /\ length (doc_content (fst (markdownToAdf uuid lexer markdown s)))
     = Nat.max 1 (list_sum (map nodeCount (lexer markdown))).
Proof.
  assert (Count : forall l s0,
             length (fst (convertBlockTokens uuid l s0))
             = list_sum (map nodeCount l)).
  { intros l s0. apply pushAll_length. apply blockNodes_count. }
  split; [apply Count|].
  rewrite markdownToAdf_run. cbn [fst doc_content]. rewrite <- (Count _ s).
  destruct (fst (convertBlockTokens uuid (lexer markdown) s));
    [reflexivity | cbn [length]; lia].
Qed.

(** *** Identifiers *)

Lemma pushAll_snd {A B : Type} (f : A -> Gen (list B)) (g : A -> nat)
    (l : list A) :
  Forall (fun x => forall s, snd (f x s) = s + g x) l ->
  forall s, snd (pushAll f l s) = s + list_sum (map g l).
Proof.
  induction 1 as [|x l Hx _ IH]; intros s.
  - cbn. lia.
  - rewrite pushAll_cons. cbn [snd map]. rewrite list_sum_cons. rewrite IH, Hx. lia.
Qed.

Lemma mapGen_snd {A B : Type} (f : A -> Gen B) (g : A -> nat) (l : list A) :
  Forall (fun x => forall s, snd (f x s) = s + g x) l ->
  forall s, snd (mapGen f l s) = s + list_sum (map g l).
Proof.
  induction 1 as [|x l Hx _ IH]; intros s.
  - cbn. lia.
  - rewrite mapGen_cons. cbn [snd map]. rewrite list_sum_cons. rewrite IH, Hx. lia.
Qed.

Lemma mermaidBlocks_quote tokens :
  mermaidBlocks (Blockquote tokens) = list_sum (map mermaidBlocks tokens).
Proof. reflexivity. Qed.

Lemma mermaidBlocks_list ordered start items :
  mermaidBlocks (List ordered start items) = list_sum (map mermaidItem items).
Proof. reflexivity. Qed.

Lemma mermaidItem_tokens tokens :
  mermaidItem (list_item tokens) = list_sum (map mermaidBlocks tokens).
Proof. reflexivity. Qed.

Section Identifiers.
Variable uuid : nat -> string.

Lemma listItemStep_snd (t : Token) (s : nat) :
  snd (listItemStep uuid t s) = snd (blockNodes uuid t s).
Proof.
  destruct t as [| | | | | | ordered start items | | | | raw [inline|] |];
    try reflexivity.
  - rewrite blockNodes_run, convertBlockToken_list. cbn [listItemStep].
    now rewrite !bind_run.
  - cbn [listItemStep]. now destruct (convertInlineTokens inline []).
Qed.

Lemma blockNodes_snd (t : Token) :
  forall s, snd (blockNodes uuid t s) = s + mermaidBlocks t.
Proof.
  induction t as [t Ht | tokens IH | ordered start items IH | tokens IH]
    using Token_induction
    with (Q := fun item => forall s,
                 snd (convertListItem uuid item s) = s + mermaidItem item);
    intros s.
  - rewrite blockNodes_run. cbn [snd].
    destruct t as [| lang code | | | | | | raw | | | |]; try contradiction;
      cbn [convertBlockToken mermaidBlocks ret snd]; try lia.
    + rewrite bind_run. unfold convertCodeBlock.
      destruct lang as [l|]; [|cbn; lia].
      destruct (String.eqb l "mermaid"); cbn; lia.
    + destruct (isEmpty (trim raw)); cbn; lia.
  - rewrite blockNodes_run, convertBlockToken_quote, bind_run,
      mermaidBlocks_quote. cbn [ret snd].
    now apply (pushAll_snd (blockNodes uuid) mermaidBlocks).
  - rewrite blockNodes_run, convertBlockToken_list, bind_run, convertList_run,
      mermaidBlocks_list. cbn [ret fst snd].
    now apply (mapGen_snd (convertListItem uuid) mermaidItem).
  - rewrite convertListItem_loop, bind_run, mermaidItem_tokens. cbn [ret snd].
    apply (pushAll_snd (listItemStep uuid) mermaidBlocks).
    revert IH. apply Forall_impl. intros t Ht s0.
    now rewrite listItemStep_snd.
Qed.

Lemma convertBlockTokens_snd (tokens : list Token) (s : nat) :
  snd (convertBlockTokens uuid tokens s)
  = s + list_sum (map mermaidBlocks tokens).
Proof.
  apply (pushAll_snd (blockNodes uuid) mermaidBlocks).
  apply Forall_forall. intros t _. apply blockNodes_snd.
Qed.

Variable lexer : string -> list Token.

(** X10.  A conversion draws one identifier per mermaid code block of
    the Markdown, at any depth of blockquotes and lists, and none for
    anything else; and the document has exactly that many extension
    nodes. *)
Theorem identifiers_drawn (markdown : string) (s : nat) :
  snd (markdownToAdf uuid lexer markdown s)
  = s + list_sum (map mermaidBlocks (lexer markdown))
  /\ length (filter isExtension
               (nodesOf (fst (markdownToAdf uuid lexer markdown s))))
     = list_sum (map mermaidBlocks (lexer markdown)).
Proof.
  assert (Hs : snd (markdownToAdf uuid lexer markdown s)
               = s + list_sum (map mermaidBlocks (lexer markdown))).
  { rewrite markdownToAdf_run. cbn [snd]. apply convertBlockTokens_snd. }
  split; [exact Hs|].
  destruct (markdownToAdf_built uuid lexer markdown s) as (_ & _ & _ & E).
  unfold extensionsOf in E. unfold nodesOf. rewrite E, length_map, length_seq.
  rewrite Hs. lia.
Qed.

Lemma NoDup_map_injective {A B : Type} (f : A -> B) (l : list A) :
  (forall x y, f x = f y -> x = y) -> NoDup l -> NoDup (map f l).
Proof.
  intros Hf. induction 1 as [|x l Hx _ IH]; cbn [map]; constructor; trivial.
  intros Hin. apply in_map_iff in Hin. destruct Hin as (y & E & Hy).
  apply Hf in E. now subst y.
Qed.

(** X11.  When the generator never hands out the same identifier
    twice, no two extension nodes of a document share a localId,
    wherever they stand in the document. *)
Theorem extension_identifiers (markdown : string) (s : nat) :
  (forall i j, uuid i = uuid j -> i = j) ->
  NoDup (map localIdOf
           (filter isExtension
              (nodesOf (fst (markdownToAdf uuid lexer markdown s))))).
Proof.
  intros Hinj.
  destruct (markdownToAdf_built uuid lexer markdown s) as (_ & _ & _ & E).
  unfold extensionsOf in E. unfold nodesOf. rewrite E, map_map.
  apply NoDup_map_injective; [|apply seq_NoDup].
  intros x y H. apply Hinj. now injection H.
Qed.

End Identifiers.

Lemma countingUuid_length (n : nat) :
  String.length (Fixture.countingUuid n) = 2 + n.
Proof.
  induction n as [|n IH]; [reflexivity|]. cbn [Fixture.countingUuid].
  rewrite RendererFacts.length_append, IH. cbn. lia.
Qed.

Lemma countingUuid_injective (i j : nat) :
  Fixture.countingUuid i = Fixture.countingUuid j -> i = j.
Proof.
  intros H. apply (f_equal String.length) in H.
  rewrite !countingUuid_length in H. lia.
Qed.

Lemma extension_identifiers_witness :
  NoDup (map localIdOf
           (filter isExtension
              (nodesOf (fst (markdownToAdf Fixture.countingUuid Fixture.lexer
                               Fixture.twoDiagrams 0))))).
Proof.
  apply (extension_identifiers Fixture.countingUuid Fixture.lexer
           Fixture.twoDiagrams 0).
  exact countingUuid_injective.
Defined.

(** *** The generator and the document *)

Section Generators.
Variables uuid1 uuid2 : nat -> string.

Lemma pushAll_same {A B : Type} (f1 f2 : A -> Gen (list B)) (g : A -> nat)
    (l : list A) :
  (forall x s, snd (f1 x s) = s + g x) ->
  (forall x s, snd (f2 x s) = s + g x) ->
  Forall (fun x => forall s1 s2,
            (forall k, k < g x -> uuid1 (s1 + k) = uuid2 (s2 + k)) ->
            fst (f1 x s1) = fst (f2 x s2)) l ->
  forall s1 s2,
    (forall k, k < list_sum (map g l) -> uuid1 (s1 + k) = uuid2 (s2 + k)) ->
    fst (pushAll f1 l s1) = fst (pushAll f2 l s2).
Proof.
  intros H1 H2. induction 1 as [|x l Hx _ IH]; intros s1 s2 H; [reflexivity|].
  rewrite !pushAll_cons. cbn [fst]. cbn [map] in H. rewrite list_sum_cons in H. f_equal.
  - apply Hx. intros k Hk. apply H. lia.
  - rewrite H1, H2. apply IH. intros k Hk.
    rewrite <- !Nat.add_assoc. apply H. lia.
Qed.

Lemma mapGen_same {A B : Type} (f1 f2 : A -> Gen B) (g : A -> nat)
    (l : list A) :
  Forall (fun x => (forall s, snd (f1 x s) = s + g x)
                   /\ (forall s, snd (f2 x s) = s + g x)
                   /\ forall s1 s2,
                        (forall k, k < g x -> uuid1 (s1 + k) = uuid2 (s2 + k)) ->
                        fst (f1 x s1) = fst (f2 x s2)) l ->
  forall s1 s2,
    (forall k, k < list_sum (map g l) -> uuid1 (s1 + k) = uuid2 (s2 + k)) ->
    fst (mapGen f1 l s1) = fst (mapGen f2 l s2).
Proof.
  induction 1 as [|x l (H1 & H2 & Hx) _ IH]; intros s1 s2 H; [reflexivity|].
  rewrite !mapGen_cons. cbn [fst]. cbn [map] in H. rewrite list_sum_cons in H. f_equal.
  - apply Hx. intros k Hk. apply H. lia.
  - rewrite H1, H2. apply IH. intros k Hk.
    rewrite <- !Nat.add_assoc. apply H. lia.
Qed.

Lemma listItemStep_same (t : Token) (s1 s2 : nat) :
  fst (blockNodes uuid1 t s1) = fst (blockNodes uuid2 t s2) ->
  fst (listItemStep uuid1 t s1) = fst (listItemStep uuid2 t s2).
Proof.
  intros H.
  destruct t as [| | | | | | ordered start items | | | | raw [inline|] |];
    try exact H.
  - rewrite !blockNodes_run, !convertBlockToken_list, !bind_run in H.
    cbn [listItemStep]. rewrite !bind_run. exact H.
  - cbn [listItemStep]. now destruct (convertInlineTokens inline []).
Qed.

Lemma blockNodes_same (t : Token) :
  forall s1 s2,
    (forall k, k < mermaidBlocks t -> uuid1 (s1 + k) = uuid2 (s2 + k)) ->
    fst (blockNodes uuid1 t s1) = fst (blockNodes uuid2 t s2).
Proof.
  induction t as [t Ht | tokens IH | ordered start items IH | tokens IH]
    using Token_induction
    with (Q := fun item => forall s1 s2,
                 (forall k, k < mermaidItem item ->
                            uuid1 (s1 + k) = uuid2 (s2 + k)) ->
                 fst (convertListItem uuid1 item s1)
                 = fst (convertListItem uuid2 item s2));
    intros s1 s2 H.
  - rewrite !blockNodes_run. cbn [fst].
    destruct t as [| lang code | | | | | | raw | | | |]; try contradiction;
      try reflexivity.
    + cbn [convertBlockToken]. rewrite !bind_run. unfold convertCodeBlock.
      destruct lang as [l|]; [|reflexivity]. cbn [mermaidBlocks] in H.
      destruct (String.eqb l "mermaid"); [|reflexivity].
      cbv beta iota delta [bind ret buildMermaidExtensionNode randomUUID
                           fst snd orEmpty].
      specialize (H 0 (Nat.lt_0_1)). rewrite !Nat.add_0_r in H. now rewrite H.
    + cbn [convertBlockToken]. now destruct (isEmpty (trim raw)).
  - rewrite !blockNodes_run, !convertBlockToken_quote, !bind_run.
    cbn [ret fst orEmpty]. rewrite mermaidBlocks_quote in H.
    assert (E : fst (convertBlockTokens uuid1 tokens s1)
                = fst (convertBlockTokens uuid2 tokens s2)).
    { apply (pushAll_same (blockNodes uuid1) (blockNodes uuid2) mermaidBlocks);
        trivial; intros; apply blockNodes_snd. }
    now rewrite E.
  - rewrite !blockNodes_run, !convertBlockToken_list, !bind_run,
      !convertList_run. cbn [ret fst orEmpty].
    rewrite mermaidBlocks_list in H.
    enough (E : fst (mapGen (convertListItem uuid1) items s1)
                = fst (mapGen (convertListItem uuid2) items s2))
      by now rewrite E.
    apply (mapGen_same (convertListItem uuid1) (convertListItem uuid2)
             mermaidItem); trivial.
    revert IH. apply Forall_impl. intros [tokens] Hitem.
    split; [|split; [|exact Hitem]]; intros s;
      rewrite convertListItem_loop, bind_run, mermaidItem_tokens;
      cbn [ret snd];
      apply (pushAll_snd (listItemStep _) mermaidBlocks);
      apply Forall_forall; intros t _ s0;
      rewrite listItemStep_snd; apply blockNodes_snd.
  - rewrite !convertListItem_loop, !bind_run. cbn [ret fst].
    rewrite mermaidItem_tokens in H.
    enough (E : fst (pushAll (listItemStep uuid1) tokens s1)
                = fst (pushAll (listItemStep uuid2) tokens s2))
      by now rewrite E.
    apply (pushAll_same (listItemStep uuid1) (listItemStep uuid2)
             mermaidBlocks); trivial.
    + intros t s. rewrite listItemStep_snd. apply blockNodes_snd.
    + intros t s. rewrite listItemStep_snd. apply blockNodes_snd.
    + revert IH. apply Forall_impl. intros t Ht s0 s3 Hk.
      apply listItemStep_same. now apply Ht.
Qed.

(** X17.  The document depends on the identifier generator only through
    the identifiers it hands out during the conversion: two generators
    that hand out the same identifiers, one per mermaid code block, give
    the same document; so a Markdown text without mermaid code block
    has one document, whatever the generator. *)
Theorem generator_only_identifiers (lexer : string -> list Token)
    (markdown : string) (s1 s2 : nat) :
  (forall k, k < list_sum (map mermaidBlocks (lexer markdown)) ->
             uuid1 (s1 + k) = uuid2 (s2 + k)) ->
  fst (markdownToAdf uuid1 lexer markdown s1)
  = fst (markdownToAdf uuid2 lexer markdown s2).
Proof.
  intros H. rewrite !markdownToAdf_run. cbn [fst].
  assert (E : fst (convertBlockTokens uuid1 (lexer markdown) s1)
              = fst (convertBlockTokens uuid2 (lexer markdown) s2)).
  { apply (pushAll_same (blockNodes uuid1) (blockNodes uuid2) mermaidBlocks);
      trivial; try (intros; apply blockNodes_snd).
    apply Forall_forall. intros t _. apply blockNodes_same. }
  now rewrite E.
Qed.

End Generators.

Lemma generator_only_identifiers_witness :
  fst (markdownToAdf Fixture.countingUuid Fixture.lexer Fixture.oneDiagram 0)
  = fst (markdownToAdf (fun n => Fixture.countingUuid (n - 1)) Fixture.lexer
           Fixture.oneDiagram 1).
Proof.
  apply (generator_only_identifiers Fixture.countingUuid
           (fun n => Fixture.countingUuid (n - 1)) Fixture.lexer
           Fixture.oneDiagram 0 1).
  intros k Hk. destruct k as [|k]; [reflexivity|].
  vm_compute in Hk. lia.
Defined.

(** *** The nesting of the nodes *)

Lemma textNode_ok (value : string) (active : list AdfMark) :
  inlineOk (textNode value active) = true.
Proof. reflexivity. Qed.

Lemma convertInlineToken_ok (token : Inline) :
  forall active, forallb inlineOk (convertInlineToken active token) = true.
Proof.
  assert (Nest : forall (tokens : list Inline) (active : list AdfMark),
             Forall (fun t => forall a,
                       forallb inlineOk (convertInlineToken a t) = true)
               tokens ->
             forallb inlineOk (flat_map (convertInlineToken active) tokens)
             = true).
  { intros tokens active IH. rewrite forallb_flat_map. apply forallb_forall.
    intros t Ht. rewrite Forall_forall in IH. now apply IH. }
  induction token as [t Ht | href title tokens IH | tokens IH | tokens IH
                      | tokens IH] using Inline_induction; intros active;
    cbn [convertInlineToken]; try (now apply Nest).
  destruct t as [value | value | value | | | | | | value | | kind [value|]];
    try contradiction; reflexivity.
Qed.

Lemma convertInlineTokens_ok (tokens : list Inline) (active : list AdfMark) :
  forallb inlineOk (convertInlineTokens tokens active) = true.
Proof.
  unfold convertInlineTokens. rewrite forallb_flat_map. apply forallb_forall.
  intros t _. apply convertInlineToken_ok.
Qed.

Lemma inline_holder (ty : string) (a : option Attrs) (c : list AdfNode) :
  hasType ["paragraph"; "heading"] (node ty a (Some c) None None) = true ->
  forallb inlineOk c = true ->
  everyNode conforms (node ty a (Some c) None None) = true.
Proof.
  intros Hty Hc. rewrite everyNode_node. apply andb_true_iff. split.
  - unfold conforms. rewrite Hty. unfold hasType in *. cbn in *.
    apply orb_true_iff in Hty.
    assert (Hok : forallb
                    (fun n => (type n =? "text") || ((type n =? "hardBreak") || false))
                    c = true).
    { revert Hc. apply forallb_weaken. intros n Hn.
      apply andb_true_iff in Hn. apply Hn. }
    destruct Hty as [H|H]; [|apply orb_true_iff in H; destruct H as [H|H];
                               [|discriminate]];
      apply String.eqb_eq in H; subst ty; exact Hok.
  - revert Hc. apply forallb_weaken. intros n Hn.
    apply andb_true_iff in Hn. apply Hn.
Qed.

Lemma paragraph_ok (tokens : list Inline) (active : list AdfMark) :
  everyNode conforms (paragraph (convertInlineTokens tokens active)) = true.
Proof. apply inline_holder; [reflexivity | apply convertInlineTokens_ok]. Qed.

Lemma convertHeading_ok (depth : nat) (tokens : option (list Inline)) :
  everyNode conforms (convertHeading depth tokens) = true.
Proof. apply inline_holder; [reflexivity | apply convertInlineTokens_ok]. Qed.

Lemma mediaSingles_ok (tokens : list Inline) :
  forallb (fun n => everyNode conforms n && isBlockLevel n)
    (mediaSingles tokens) = true.
Proof.
  induction tokens as [|t rest IH]; [reflexivity|].
  destruct t; cbn [mediaSingles]; exact IH.
Qed.

Lemma Shaped_each (l : list AdfNode) :
  forallb (fun n => everyNode conforms n && isBlockLevel n) l = true ->
  Shaped l.
Proof.
  intros H. split; revert H; apply forallb_weaken; intros n Hn;
    apply andb_true_iff in Hn; apply Hn.
Qed.

Lemma Shaped_app (a b : list AdfNode) : Shaped a -> Shaped b -> Shaped (a ++ b).
Proof.
  intros [Ca La] [Cb Lb]. split; rewrite forallb_app; now apply andb_true_iff.
Qed.

Lemma convertParagraphNodes_shaped (tokens : option (list Inline)) :
  Shaped (convertParagraphNodes tokens).
Proof.
  unfold convertParagraphNodes.
  destruct (isImageOnlyParagraph (orEmpty tokens)).
  - apply Shaped_each, mediaSingles_ok.
  - apply Shaped_each. cbn [forallb]. now rewrite paragraph_ok.
Qed.

Lemma convertCell_ok (cellType : string) (cell : TableCell) :
  hasType ["tableHeader"; "tableCell"]
    (node cellType None None None None) = true ->
  everyNode conforms (convertCell cellType cell) = true.
Proof.
  intros Hty. unfold convertCell. rewrite everyNode_node.
  cbn [forallb]. rewrite paragraph_ok. unfold hasType in Hty. cbn in Hty.
  apply orb_true_iff in Hty.
  destruct Hty as [H|H]; [|apply orb_true_iff in H; destruct H as [H|H];
                             [|discriminate]];
    apply String.eqb_eq in H; subst cellType; reflexivity.
Qed.

Lemma tableRow_ok (cellType : string) (cells : list TableCell) :
  hasType ["tableHeader"; "tableCell"]
    (node cellType None None None None) = true ->
  everyNode conforms (tableRow cellType cells) = true.
Proof.
  intros Hty. unfold tableRow. rewrite everyNode_node.
  apply andb_true_iff. split.
  - unfold hasType in Hty. cbn in Hty. apply orb_true_iff in Hty.
    destruct Hty as [H|H]; [|apply orb_true_iff in H; destruct H as [H|H];
                               [|discriminate]];
      apply String.eqb_eq in H; subst cellType; unfold conforms; cbn;
      apply orb_true_iff; [left | right]; now apply forallb_map_all.
  - apply forallb_map_all. intros cell. now apply convertCell_ok.
Qed.

Lemma convertTable_ok (header : list TableCell) (rows : list (list TableCell)) :
  everyNode conforms (convertTable header rows) = true.
Proof.
  unfold convertTable. rewrite everyNode_node. apply andb_true_iff. split.
  - unfold conforms. cbn. rewrite forallb_app. apply andb_true_iff. split.
    + now destruct header.
    + now apply forallb_map_all.
  - rewrite forallb_app. apply andb_true_iff. split.
    + destruct header; [reflexivity|]. cbn [forallb].
      now rewrite tableRow_ok.
    + apply forallb_map_all. intros row. now apply tableRow_ok.
Qed.

Section Nesting.
Variable uuid : nat -> string.

Lemma convertCodeBlock_shaped lang code s :
  Shaped (fst (convertCodeBlock uuid lang code s)).
Proof.
  unfold convertCodeBlock.
  destruct lang as [l|]; [destruct (String.eqb l "mermaid")|];
    apply Shaped_each; reflexivity.
Qed.

Lemma pushAll_shaped {A : Type} (f : A -> Gen (list AdfNode)) (l : list A) :
  Forall (fun x => forall s, Shaped (fst (f x s))) l ->
  forall s, Shaped (fst (pushAll f l s)).
Proof.
  induction 1 as [|x l Hx _ IH]; intros s; [now split|].
  rewrite pushAll_cons. cbn [fst]. apply Shaped_app; [apply Hx | apply IH].
Qed.

Lemma mapGen_items {A : Type} (f : A -> Gen AdfNode) (l : list A) :
  Forall (fun x => forall s, itemOk (fst (f x s)) = true) l ->
  forall s, forallb itemOk (fst (mapGen f l s)) = true.
Proof.
  induction 1 as [|x l Hx _ IH]; intros s; [reflexivity|].
  rewrite mapGen_cons. cbn [fst forallb]. now rewrite Hx, IH.
Qed.

Lemma listNode_shaped ordered start items :
  forallb itemOk items = true -> Shaped [listNode ordered start items].
Proof.
  intros H. apply Shaped_each. cbn [forallb]. rewrite andb_true_r.
  apply andb_true_iff. split; [|now destruct ordered].
  unfold listNode. rewrite everyNode_node. apply andb_true_iff. split.
  - assert (Hty : forallb (hasType ["listItem"]) items = true).
    { revert H. apply forallb_weaken. intros n Hn.
      apply andb_true_iff in Hn. apply Hn. }
    destruct ordered; unfold conforms; cbn; exact Hty.
  - revert H. apply forallb_weaken. intros n Hn.
    apply andb_true_iff in Hn. apply Hn.
Qed.

Lemma listItemNode_ok (c : list AdfNode) :
  Shaped c -> itemOk (listItemNode c) = true.
Proof.
  intros [C L]. destruct c as [|n c]; [reflexivity|].
  unfold itemOk, listItemNode. rewrite everyNode_node, C.
  unfold conforms. cbn. rewrite !andb_true_r. exact L.
Qed.

Lemma listItemStep_shaped (token : Token) :
  (forall s, Shaped (fst (blockNodes uuid token s))) ->
  forall s, Shaped (fst (listItemStep uuid token s)).
Proof.
  intros H s.
  destruct token as [| | | | | | ordered start items | | | | raw [inline|] |];
    try apply H.
  - specialize (H s).
    rewrite blockNodes_run, convertBlockToken_list, bind_run in H.
    cbn [listItemStep]. now rewrite bind_run.
  - cbn [listItemStep].
    destruct (convertInlineTokens inline []) as [|n inlineNodes] eqn:E;
      [now split|].
    apply Shaped_each. cbn [ret fst forallb]. rewrite <- E, paragraph_ok.
    reflexivity.
Qed.

Lemma blockNodes_shaped (token : Token) :
  forall s, Shaped (fst (blockNodes uuid token s)).
Proof.
  induction token as [t Ht | tokens IH | ordered start items IH | tokens IH]
    using Token_induction
    with (Q := fun item => forall s,
                 itemOk (fst (convertListItem uuid item s)) = true);
    intros s.
  - rewrite blockNodes_run. cbn [fst].
    destruct t as [| lang code | depth inline | header rows | | | | raw | |
                   inline | |];
      try contradiction; cbn [convertBlockToken ret fst orEmpty];
      try (now split).
    + rewrite bind_run. cbn [ret fst orEmpty]. apply convertCodeBlock_shaped.
    + apply Shaped_each. cbn [forallb]. now rewrite convertHeading_ok.
    + apply Shaped_each. cbn [forallb]. now rewrite convertTable_ok.
    + destruct (isEmpty (trim raw)); now split.
    + apply convertParagraphNodes_shaped.
  - rewrite blockNodes_run, convertBlockToken_quote, bind_run.
    cbn [ret fst orEmpty].
    destruct (pushAll_shaped (blockNodes uuid) tokens IH s) as [C L].
    apply Shaped_each. cbn [forallb]. rewrite everyNode_node.
    unfold convertBlockTokens. rewrite C. unfold conforms. cbn.
    now rewrite L.
  - rewrite blockNodes_run, convertBlockToken_list, bind_run, convertList_run.
    cbn [ret fst orEmpty]. apply listNode_shaped. now apply mapGen_items.
  - rewrite convertListItem_loop, bind_run. cbn [ret fst].
    apply listItemNode_ok. apply pushAll_shaped.
    revert IH. apply Forall_impl. intros t Ht. now apply listItemStep_shaped.
Qed.

(** X12.  Every node of a document, at any depth, has the shape of its
    type: a text node has a text and neither content nor attributes; no
    other node has a text or marks; a paragraph or a heading holds text
    nodes and hard breaks only; a mediaSingle holds one media; a code
    block one text node without marks; a list holds list items; a list
    item and a blockquote hold block nodes; a table holds rows, a row
    header cells or data cells, a cell one paragraph; hardBreak, rule,
    media and extension have no content; and the nodes of the document
    itself are block nodes. *)
Theorem document_nesting (lexer : string -> list Token) (markdown : string)
    (s : nat) :
  forallb conforms (nodesOf (fst (markdownToAdf uuid lexer markdown s))) = true
  /\ forallb isBlockLevel
       (doc_content (fst (markdownToAdf uuid lexer markdown s))) = true.
Proof.
  assert (H : Shaped (doc_content (fst (markdownToAdf uuid lexer markdown s)))).
  { rewrite markdownToAdf_run. cbn [fst doc_content].
    assert (B : Shaped (fst (convertBlockTokens uuid (lexer markdown) s))).
    { apply pushAll_shaped. apply Forall_forall. intros t _.
      apply blockNodes_shaped. }
    destruct (fst (convertBlockTokens uuid (lexer markdown) s));
      [now split | exact B]. }
  destruct H as [C L]. split; [|exact L].
  unfold nodesOf. rewrite forallb_flat_map.
  erewrite forallb_ext_Forall; [exact C|].
  apply Forall_forall. intros n _. symmetry. apply everyNode_subnodes.
Qed.

End Nesting.

End MoreAdfFacts.
